(** * dove: the background-rotation engine of [themes/default/assets/app.js]

    A shallow embedding of the background subsystem of the client script:
    tone analysis of a decoded image, the retrying image loader, the
    double-buffered crossfade coordinator ([updateBg], [crossfadeTo],
    [onDone]) and the blur setting.

    [app.js] is present in two revisions.  [ScriptA] is the first one
    (lines 1-335), [ScriptB] the second (lines 336-812).  Where the two
    differ the definitions below take the revision as an argument.

    JavaScript numbers are IEEE-754 binary64, so the arithmetic of
    [analyzeTone] is written with primitive floats; [Math.pow] is not
    specified bit for bit by the language and is a parameter.

    The second part of the file covers the rest of the script, which is the
    same in both revisions: the stored settings, the theme toggle, the search
    engines and their menu, the categories, the search box and the keyboard
    shortcuts. *)

From Stdlib Require Import PrimFloat Uint63 ZArith Lia Bool.
From stdpp Require Import base option list strings pretty gmap.

#[local] Set Warnings "-inexact-float".
#[local] Open Scope Z_scope.
#[local] Open Scope string_scope.
#[local] Open Scope list_scope.

(** ** The two revisions of the script *)

Inductive Script := ScriptA | ScriptB.

(** ** Page state touched by the engine *)

(** The two background elements: [#bgLayer] from the template and
    [#bgLayer2], created by [ensureBgBuffers]. *)
Inductive Layer := BgLayer | BgLayer2.

#[global] Instance Layer_eq_dec : EqDecision Layer.
Proof. solve_decision. Defined.

(** Of a layer only [style.backgroundImage] and the class [fade] are used. *)
Record LayerDom := mkLayerDom {
  backgroundImage : string;
  fade : bool
}.

Record Page := mkPage {
  localStorage : gmap string string;
  rootStyle    : gmap string string;   (* documentElement.style properties *)
  rootClass    : gset string;          (* documentElement.classList *)
  bodyClass    : gset string;          (* document.body.classList *)
  bodyAttr     : gmap string string;   (* document.body attributes *)
  dom1         : LayerDom;             (* #bgLayer *)
  dom2         : LayerDom              (* #bgLayer2 *)
}.

Definition setItem (k v : string) (p : Page) : Page :=
  mkPage (<[k:=v]> (localStorage p)) (rootStyle p) (rootClass p)
         (bodyClass p) (bodyAttr p) (dom1 p) (dom2 p).

Definition setProperty (k v : string) (p : Page) : Page :=
  mkPage (localStorage p) (<[k:=v]> (rootStyle p)) (rootClass p)
         (bodyClass p) (bodyAttr p) (dom1 p) (dom2 p).

Definition setRootClass (c : gset string) (p : Page) : Page :=
  mkPage (localStorage p) (rootStyle p) c
         (bodyClass p) (bodyAttr p) (dom1 p) (dom2 p).

Definition setBodyClass (c : gset string) (p : Page) : Page :=
  mkPage (localStorage p) (rootStyle p) (rootClass p)
         c (bodyAttr p) (dom1 p) (dom2 p).

Definition setAttribute (k v : string) (p : Page) : Page :=
  mkPage (localStorage p) (rootStyle p) (rootClass p)
         (bodyClass p) (<[k:=v]> (bodyAttr p)) (dom1 p) (dom2 p).

Definition layerDom (l : Layer) (p : Page) : LayerDom :=
  match l with BgLayer => dom1 p | BgLayer2 => dom2 p end.

Definition setLayerDom (l : Layer) (d : LayerDom) (p : Page) : Page :=
  match l with
  | BgLayer  => mkPage (localStorage p) (rootStyle p) (rootClass p)
                       (bodyClass p) (bodyAttr p) d (dom2 p)
  | BgLayer2 => mkPage (localStorage p) (rootStyle p) (rootClass p)
                       (bodyClass p) (bodyAttr p) (dom1 p) d
  end.

(** [el.style.backgroundImage = v] *)
Definition setBackgroundImage (l : Layer) (v : string) (p : Page) : Page :=
  setLayerDom l (mkLayerDom v (fade (layerDom l p))) p.

(** [el.classList.add('fade')] / [el.classList.remove('fade')] *)
Definition setFade (l : Layer) (b : bool) (p : Page) : Page :=
  setLayerDom l (mkLayerDom (backgroundImage (layerDom l p)) b) p.

(** [`url('${u}')`] *)
Definition cssUrl (u : string) : string := "url('" +:+ u +:+ "')".

(** ** Device class (supplied by the user-agent tests of revision B) *)

Record Device := mkDevice {
  isMobileDevice : bool;
  isTabletDevice : bool
}.

(** ** Manual theme toggle: [setTheme] *)

(** ASCII white space, as [DOMTokenList] looks for it in a token: TAB, LF,
    FF, CR and SP. *)
Definition asciiWhitespace (c : Ascii.ascii) : bool :=
  bool_decide (Ascii.N_of_ascii c ∈ [9; 10; 12; 13; 32]%N).

(** A token [classList.add] accepts: not empty and without ASCII white
    space. *)
Fixpoint spaceless (s : string) : bool :=
  match s with
  | EmptyString => true
  | String c r => negb (asciiWhitespace c) && spaceless r
  end.

Definition validToken (s : string) : bool :=
  negb (bool_decide (s = "")) && spaceless s.

(** [setTheme(t)].  [None]: [classList.add('theme-'+t)] throws (an
    InvalidCharacterError for a token with white space), after the three
    classes have been removed and before anything is stored; the exception
    leaves the caller, and at page load it stops the script. *)
Definition setTheme (t : string) (p : Page) : option Page :=
  let p := setBodyClass
             (bodyClass p ∖ {["theme-auto"]} ∖ {["theme-light"]} ∖ {["theme-dark"]}) p in
  if validToken ("theme-" +:+ t)
  then
    let p := setBodyClass (bodyClass p ∪ {["theme-" +:+ t]}) p in
    Some (setItem "dove-theme" t p)
  else None.

(** ** ConfigStore: [applyBgBlur] *)

(** The integers a JavaScript number holds exactly, one by one
    ([Number.isSafeInteger]).  For them arithmetic on [Z] is the arithmetic
    of the script and [String(n)] is the decimal numeral of [n]; beyond
    them numbers are rounded, and from 1e21 on [String(n)] is written with
    an exponent.  The settings below are modelled on safe integers. *)
Definition safeInteger (n : Z) : Prop := Z.abs n < 2 ^ 53.

(** Line 320 (revision A) and line 786 (revision B):
    [const n = Math.max(0, Number(px)||0)].  The callers pass the result of
    [parseInt] with [NaN] already replaced, so [px] is an integer; it is
    taken to be a safe integer, for which [`${n}px`] and [String(n)] are
    made of the decimal numeral of [n].  This declaration does not look at
    the device; the argument is there so that both declarations have one
    type. *)
Definition applyBgBlur_plain (d : Device) (px : Z) (p : Page) : Page :=
  let n := Z.max 0 px in
  let p := setProperty "--bg-blur" (pretty n +:+ "px") p in
  setItem "dove-bg-blur" (pretty n) p.

(** Lines 644-658 (revision B): the same with a ceiling of 6 on mobile and 10
    on tablet devices. *)
Definition applyBgBlur_clamped (d : Device) (px : Z) (p : Page) : Page :=
  let blurValue := Z.max 0 px in
  let blurValue :=
    if isMobileDevice d then Z.min blurValue 6
    else if isTabletDevice d then Z.min blurValue 10
    else blurValue in
  let p := setProperty "--bg-blur" (pretty blurValue +:+ "px") p in
  setItem "dove-bg-blur" (pretty blurValue) p.

(** Function declarations of one scope, in source order.  JavaScript hoists
    them and a later declaration of a name replaces an earlier one, so a call
    resolves to the last declaration of that name. *)
Definition Decls (F : Type) := list (string * F).

Fixpoint resolve {F} (name : string) (ds : Decls F) : option F :=
  match ds with
  | [] => None
  | (n, f) :: rest =>
      match resolve name rest with
      | Some g => Some g
      | None => if decide (n = name) then Some f else None
      end
  end.

Definition blurDecls (sc : Script) : Decls (Device -> Z -> Page -> Page) :=
  match sc with
  | ScriptA => [("applyBgBlur", applyBgBlur_plain)]
  | ScriptB => [("applyBgBlur", applyBgBlur_clamped);
                ("applyBgBlur", applyBgBlur_plain)]
  end.

(** What a call [applyBgBlur(px)] runs. *)
Definition applyBgBlur (sc : Script) (d : Device) (px : Z) (p : Page) : Page :=
  match resolve "applyBgBlur" (blurDecls sc) with
  | Some f => f d px p
  | None => p
  end.

(** ** Host: what the browser supplies *)

Record Host := mkHost {
  Math_pow : float -> float -> float;
  device   : Device;
  loadTime : Z        (* Date.now() when the script is evaluated *)
}.

(** ** ToneAnalyzer: [analyzeTone] *)

(** What the scratch canvas yields for an image. *)
Inductive Canvas :=
| NoContext                   (* getContext('2d') is null *)
| Throws                      (* drawImage or getImageData throws *)
| ImageData (data : list Z).  (* getImageData(0,0,size,size).data *)

(** A decoded image, as far as the engine looks at it: the bytes a
    [size]x[size] canvas reads back after [drawImage]. *)
Record Img := mkImg { sample : Z -> Canvas }.

Definition num (z : Z) : float := PrimFloat.of_uint63 (Uint63.of_Z z).

(** An array read; out of range it is [undefined], which arithmetic turns
    into [NaN]. *)
Definition elt (o : option Z) : float :=
  match o with Some z => num z | None => nan end.

(** [const toLin = (v)=>{ v/=255; return v<=0.04045 ? v/12.92 : Math.pow((v+0.055)/1.055, 2.4); }] *)
Definition toLin (h : Host) (v : float) : float :=
  let v := (v / 255)%float in
  if (v <=? 0.04045)%float then (v / 12.92)%float
  else Math_pow h ((v + 0.055) / 1.055)%float 2.4%float.

(** The body of the [for] loop for one index [i]: the luminance term. *)
Definition toneTerm (h : Host) (r g b : option Z) : float :=
  let r := toLin h (elt r) in
  let g := toLin h (elt g) in
  let b := toLin h (elt b) in
  (0.2126 * r + 0.7152 * g + 0.0722 * b)%float.

(** [for(let i=0;i<data.length;i+=4){ ...data[i], data[i+1], data[i+2]...; sum += L; }]:
    each round reads three entries at the front and moves on by four. *)
Fixpoint toneLoop (h : Host) (data : list Z) (sum : float) : float :=
  match data with
  | [] => sum
  | r :: tl =>
      let L := toneTerm h (Some r) (head tl) (head (tail tl)) in
      match tl with
      | _ :: _ :: _ :: rest => toneLoop h rest (sum + L)%float
      | _ => (sum + L)%float
      end
  end.

(** The side of the sampling grid: 32, and 16 on mobile devices in
    revision B. *)
Definition gridSize (sc : Script) (h : Host) : Z :=
  match sc with
  | ScriptA => 32
  | ScriptB => if isMobileDevice (device h) then 16 else 32
  end.

(** [analyzeTone(img)]: ['light'], ['dark'] or [null]. *)
Definition analyzeTone (sc : Script) (h : Host) (img : Img) : option string :=
  let size := gridSize sc h in
  match sample img size with
  | NoContext => None
  | Throws => None
  | ImageData data =>
      let sum := toneLoop h data 0%float in
      let n := size * size in
      let avg := (sum / num n)%float in
      Some (if (0.6 <? avg)%float then "light" else "dark")
  end.

(** The classification as the specification words it, over a grid of RGBA
    pixels. *)
Record Pixel := mkPixel { red : Z; green : Z; blue : Z; alpha : Z }.

Definition flatten (ps : list Pixel) : list Z :=
  flat_map (fun p => [red p; green p; blue p; alpha p]) ps.

Definition srgb_to_linear (h : Host) (c : float) : float :=
  if (c <=? 0.04045)%float then (c / 12.92)%float
  else Math_pow h ((c + 0.055) / 1.055)%float 2.4%float.

Definition relative_luminance (h : Host) (p : Pixel) : float :=
  (0.2126 * srgb_to_linear h (num (red p) / 255)
   + 0.7152 * srgb_to_linear h (num (green p) / 255)
   + 0.0722 * srgb_to_linear h (num (blue p) / 255))%float.

Definition spec_average (h : Host) (ps : list Pixel) : float :=
  (fold_left PrimFloat.add (map (relative_luminance h) ps) 0
   / num (Z.of_nat (length ps)))%float.

Definition spec_classify (h : Host) (ps : list Pixel) : string :=
  if (0.6 <? spec_average h ps)%float then "light" else "dark".

(** ** Applying a tone: [applyTone] *)

(** [tone||'dark'] on a value that is [null] or a string. *)
Definition orDark (tone : option string) : option string :=
  match tone with
  | None => Some "dark"
  | Some t => if decide (t = "") then Some "dark" else Some t
  end.

(** [String(v)] for [null] or a string. *)
Definition String_ (v : option string) : string :=
  match v with Some s => s | None => "null" end.

(** Revision A, lines 215-219. *)
Definition applyTone_A (tone : option string) (p : Page) : Page :=
  match tone with
  | None => p
  | Some t =>
      if decide (t = "") then p
      else
        let p := setAttribute "data-img-tone" t p in
        if decide (t = "light")
        then setProperty "--bg-overlay-light" "0.16" (setProperty "--bg-overlay" "0.28" p)
        else setProperty "--bg-overlay-light" "0.22" (setProperty "--bg-overlay" "0.50" p)
  end.

(** Revision B, lines 661-668 (and again inside [initBg], lines 791-798). *)
Definition applyTone_B (tone : option string) (p : Page) : Page :=
  let p := setRootClass (rootClass p ∖ {["light"]} ∖ {["dark"]}) p in
  let p := setRootClass (rootClass p ∪ {[String_ tone]}) p in
  setItem "dove-theme" (String_ tone) p.

Definition applyTone (sc : Script) (tone : option string) (p : Page) : Page :=
  match sc with
  | ScriptA => applyTone_A tone p
  | ScriptB => applyTone_B tone p
  end.

(** ** ProviderRegistry and RetryFallbackResolver *)

Record LoadResult := mkLoadResult { img : Img; url : string }.

(** One run of [loadNextWithRetry] as the outside world answers it.  The
    index is the ordinal of the [preloadImage] call within the run. *)
Record World := mkWorld {
  innerWidth  : Z;
  innerHeight : Z;
  Date_now    : nat -> Z;
  Math_random : nat -> Z;                  (* Math.floor(Math.random()*100000) *)
  network     : nat -> string -> option Img  (* onload with the image, or onerror *)
}.

(** [x||800] *)
Definition orElse (x d : Z) : Z := if decide (x = 0) then d else x.

(** [vp()] of revision A. *)
Definition vp (w : World) : Z * Z :=
  (Z.max 800 (orElse (innerWidth w) 800), Z.max 600 (orElse (innerHeight w) 600)).

Definition BG_PROVIDERS : list (World -> nat -> Z -> Z -> string) :=
  [ (fun wd n w h =>
       "https://picsum.photos/" +:+ pretty (Z.max 1280 w) +:+ "/"
       +:+ pretty (Z.max 720 h) +:+ "?random=" +:+ pretty (Date_now wd n));
    (fun wd n w h =>
       "https://source.unsplash.com/random/" +:+ pretty (Z.max 1280 w) +:+ "x"
       +:+ pretty (Z.max 720 h) +:+ "?wallpapers,landscape&sig="
       +:+ pretty (Math_random wd n)) ].

Definition FALLBACK_BG (h : Host) : string :=
  "https://picsum.photos/1280/1264?random=" +:+ pretty (loadTime h).

(** [nextUrl()]: the new cursor and the URL.  Revision B calls [nextUrl]
    without defining it, so the call throws a ReferenceError: [None]. *)
Definition nextUrl (sc : Script) (wd : World) (n : nat) (providerIdx : nat)
  : option (nat * string) :=
  match sc with
  | ScriptA =>
      let '(w, h) := vp wd in
      let providerIdx := ((providerIdx + 1) mod length BG_PROVIDERS)%nat in
      match BG_PROVIDERS !! providerIdx with
      | Some build => Some (providerIdx, build wd n w h)
      | None => None
      end
  | ScriptB => None
  end.

Inductive Target := Provider (i : nat) | Fallback.

(** One [preloadImage] call: what it was for, the URL, and whether it loaded. *)
Record Attempt := mkAttempt {
  target    : Target;
  requested : string;
  loaded    : bool
}.

(** What a run of [loadNextWithRetry] leaves: the value the promise settles
    with ([None]: rejected with 'All providers failed, fallback failed'), the
    [preloadImage] calls in order, and the provider cursor. *)
Record Outcome := mkOutcome {
  result   : option LoadResult;
  attempts : list Attempt;
  cursor   : nat
}.

(** The [while(tries-- > 0)] loop followed by the last-resort attempt;
    [n] counts the [preloadImage] calls made so far.  This is one run from
    its call to its end with no other run under way between its requests;
    runs that overlap share [providerIdx] and are followed by [runLoaders]
    below. *)
Fixpoint retry (sc : Script) (h : Host) (wd : World)
    (tries : nat) (n : nat) (providerIdx : nat) (done : list Attempt) : Outcome :=
  match tries with
  | O =>
      let u := FALLBACK_BG h in
      match network wd n u with
      | Some im => mkOutcome (Some (mkLoadResult im u))
                     (done ++ [mkAttempt Fallback u true]) providerIdx
      | None => mkOutcome None (done ++ [mkAttempt Fallback u false]) providerIdx
      end
  | S tries =>
      match nextUrl sc wd n providerIdx with
      | None => retry sc h wd tries n providerIdx done
      | Some (idx, u) =>
          match network wd n u with
          | Some im => mkOutcome (Some (mkLoadResult im u))
                         (done ++ [mkAttempt (Provider idx) u true]) idx
          | None => retry sc h wd tries (S n) idx
                      (done ++ [mkAttempt (Provider idx) u false])
          end
      end
  end.

(** [let tries = Math.max(1, maxTries||BG_PROVIDERS.length)]; [maxTries] is
    [None] when the argument is left out. *)
Definition budget (maxTries : option Z) : Z :=
  let len := Z.of_nat (length BG_PROVIDERS) in
  Z.max 1 (match maxTries with
           | None => len
           | Some k => if decide (k = 0) then len else k
           end).

Definition loadNextWithRetry (sc : Script) (h : Host) (wd : World)
    (maxTries : option Z) (providerIdx : nat) : Outcome :=
  retry sc h wd (Z.to_nat (budget maxTries)) 0 providerIdx [].

(** ** TransitionCoordinator *)

(** The variables an [onDone] (revision A) or [onTransitionEnd] (revision B)
    closes over; [cid] tells the closures of different [crossfadeTo] calls
    apart. *)
Record Closure := mkClosure {
  cid        : nat;
  oldPrimary : Layer;
  newPrimary : Layer
}.

#[global] Instance Closure_eq_dec : EqDecision Closure.
Proof. solve_decision. Defined.

(** Observable steps of the coordinator, recorded in the order they happen. *)
Inductive Obs :=
| Switched                 (* updateBg passed its guard and set switching *)
| FadeStarted (c : nat)    (* crossfadeTo began the crossfade with closure c *)
| FadeDone (c : nat)       (* the completion handler of closure c ran *)
| FallbackShown.           (* the catch block put FALLBACK_BG on the primary *)

#[global] Instance Obs_eq_dec : EqDecision Obs.
Proof. solve_decision. Defined.

(** The module-level variables of the background block, the page, and the
    callbacks the event loop still holds. *)
Record State := mkState {
  bgLayer         : option Layer;       (* the element #bgLayer, or null *)
  bgPrimary       : option Layer;       (* currently visible layer *)
  bgBuffer        : option Layer;       (* hidden layer to preload next image *)
  switching       : bool;               (* prevent concurrent switches *)
  queued          : bool;               (* queue one extra switch request *)
  preloaded       : option LoadResult;  (* next preloaded image if available *)
  page            : Page;               (* document and localStorage *)
  awaitingSwap    : nat;    (* updateBg activations suspended at their await *)
  awaitingPreload : nat;    (* startProactivePreload promises not yet settled *)
  delayed         : list Closure;  (* revision B: frame + 10ms callbacks pending *)
  listeners       : list (Layer * Closure);  (* transitionend: element, handler *)
  timers          : list Closure;  (* safety-net timeouts pending *)
  nextCid         : nat;           (* closures made by crossfadeTo so far *)
  log             : list Obs       (* what has happened, oldest first *)
}.

Definition set_bgLayer (x : option Layer) (s : State) : State :=
  mkState x (bgPrimary s) (bgBuffer s) (switching s) (queued s) (preloaded s)
    (page s) (awaitingSwap s) (awaitingPreload s) (delayed s) (listeners s)
    (timers s) (nextCid s) (log s).

Definition set_bgPrimary (x : option Layer) (s : State) : State :=
  mkState (bgLayer s) x (bgBuffer s) (switching s) (queued s) (preloaded s)
    (page s) (awaitingSwap s) (awaitingPreload s) (delayed s) (listeners s)
    (timers s) (nextCid s) (log s).

Definition set_bgBuffer (x : option Layer) (s : State) : State :=
  mkState (bgLayer s) (bgPrimary s) x (switching s) (queued s) (preloaded s)
    (page s) (awaitingSwap s) (awaitingPreload s) (delayed s) (listeners s)
    (timers s) (nextCid s) (log s).

Definition set_switching (x : bool) (s : State) : State :=
  mkState (bgLayer s) (bgPrimary s) (bgBuffer s) x (queued s) (preloaded s)
    (page s) (awaitingSwap s) (awaitingPreload s) (delayed s) (listeners s)
    (timers s) (nextCid s) (log s).

Definition set_queued (x : bool) (s : State) : State :=
  mkState (bgLayer s) (bgPrimary s) (bgBuffer s) (switching s) x (preloaded
    s) (page s) (awaitingSwap s) (awaitingPreload s) (delayed s)
    (listeners s) (timers s) (nextCid s) (log s).

Definition set_preloaded (x : option LoadResult) (s : State) : State :=
  mkState (bgLayer s) (bgPrimary s) (bgBuffer s) (switching s) (queued s) x
    (page s) (awaitingSwap s) (awaitingPreload s) (delayed s) (listeners s)
    (timers s) (nextCid s) (log s).

Definition set_page (x : Page) (s : State) : State :=
  mkState (bgLayer s) (bgPrimary s) (bgBuffer s) (switching s) (queued s)
    (preloaded s) x (awaitingSwap s) (awaitingPreload s) (delayed s)
    (listeners s) (timers s) (nextCid s) (log s).

Definition set_awaitingSwap (x : nat) (s : State) : State :=
  mkState (bgLayer s) (bgPrimary s) (bgBuffer s) (switching s) (queued s)
    (preloaded s) (page s) x (awaitingPreload s) (delayed s) (listeners s)
    (timers s) (nextCid s) (log s).

Definition set_awaitingPreload (x : nat) (s : State) : State :=
  mkState (bgLayer s) (bgPrimary s) (bgBuffer s) (switching s) (queued s)
    (preloaded s) (page s) (awaitingSwap s) x (delayed s) (listeners s)
    (timers s) (nextCid s) (log s).

Definition set_delayed (x : list Closure) (s : State) : State :=
  mkState (bgLayer s) (bgPrimary s) (bgBuffer s) (switching s) (queued s)
    (preloaded s) (page s) (awaitingSwap s) (awaitingPreload s) x
    (listeners s) (timers s) (nextCid s) (log s).

Definition set_listeners (x : list (Layer * Closure)) (s : State) : State :=
  mkState (bgLayer s) (bgPrimary s) (bgBuffer s) (switching s) (queued s)
    (preloaded s) (page s) (awaitingSwap s) (awaitingPreload s) (delayed s) x
    (timers s) (nextCid s) (log s).

Definition set_timers (x : list Closure) (s : State) : State :=
  mkState (bgLayer s) (bgPrimary s) (bgBuffer s) (switching s) (queued s)
    (preloaded s) (page s) (awaitingSwap s) (awaitingPreload s) (delayed s)
    (listeners s) x (nextCid s) (log s).

Definition set_nextCid (x : nat) (s : State) : State :=
  mkState (bgLayer s) (bgPrimary s) (bgBuffer s) (switching s) (queued s)
    (preloaded s) (page s) (awaitingSwap s) (awaitingPreload s) (delayed s)
    (listeners s) (timers s) x (log s).

Definition set_log (x : list Obs) (s : State) : State :=
  mkState (bgLayer s) (bgPrimary s) (bgBuffer s) (switching s) (queued s)
    (preloaded s) (page s) (awaitingSwap s) (awaitingPreload s) (delayed s)
    (listeners s) (timers s) (nextCid s) x.

Definition record (o : Obs) (s : State) : State := set_log (log s ++ [o]) s.

Definition onPage (f : Page -> Page) (s : State) : State := set_page (f (page s)) s.

(** [ensureBgBuffers()], revision A lines 220-231.  The buffer is a new
    [div] whose class is that of [#bgLayer] with [fade] added. *)
Definition ensureBgBuffers (s : State) : State :=
  match bgLayer s, bgPrimary s with
  | Some l, None =>
      let s := set_bgPrimary (Some l) s in
      let s := onPage (setLayerDom BgLayer2 (mkLayerDom "" true)) s in
      set_bgBuffer (Some BgLayer2) s
  | _, _ => s
  end.

(** [startProactivePreload()]: the promise of [loadNextWithRetry()] stays
    pending until the event loop settles it. *)
Definition startProactivePreload (s : State) : State :=
  match preloaded s with
  | Some _ => s
  | None => set_awaitingPreload (S (awaitingPreload s)) s
  end.

(** The element the completion handler listens on: the layer fading in
    (revision A, line 294), the layer fading out (revision B, line 753). *)
Definition listensOn (sc : Script) (c : Closure) : Layer :=
  match sc with ScriptA => newPrimary c | ScriptB => oldPrimary c end.

(** [el.addEventListener('transitionend', handler, { once: true })] and
    [setTimeout(()=>{ if(switching){ handler(); } }, ms)]. *)
Definition arm (sc : Script) (c : Closure) (s : State) : State :=
  let s := set_listeners (listeners s ++ [(listensOn sc c, c)]) s in
  set_timers (timers s ++ [c]) s.

(** [crossfadeTo(img, url)]. *)
Definition crossfadeTo (sc : Script) (h : Host) (res : LoadResult) (s : State) : State :=
  match bgPrimary s, bgBuffer s with
  | Some p, Some b =>
      let s := onPage (setBackgroundImage b (cssUrl (url res))) s in
      let tone := analyzeTone sc h (img res) in
      let s := onPage (applyTone sc (orDark tone)) s in
      let c := mkClosure (nextCid s) p b in
      let s := set_nextCid (S (nextCid s)) s in
      match sc with
      | ScriptA =>
          let s := onPage (setFade p true) s in
          let s := onPage (setFade b false) s in
          arm sc c (record (FadeStarted (cid c)) s)
      | ScriptB =>
          let s := onPage (setFade b false) s in
          set_delayed (delayed s ++ [c]) (record (FadeStarted (cid c)) s)
      end
  | _, _ => s
  end.

(** Revision B, lines 727-761: the callback that starts fading the old
    layer out and only then installs the listener and the safety net. *)
Definition phase2 (sc : Script) (c : Closure) (s : State) : State :=
  let s := onPage (setFade (oldPrimary c) true) s in
  arm sc c s.

(** [updateBg()] up to its [await]: with a preloaded image it runs through
    [crossfadeTo] at once, otherwise it is left waiting for
    [loadNextWithRetry()]. *)
Definition updateBg (sc : Script) (h : Host) (s : State) : State :=
  let s := match sc with ScriptA => ensureBgBuffers s | ScriptB => s end in
  if switching s then set_queued true s
  else
    let s := record Switched (set_switching true s) in
    match preloaded s with
    | Some res => crossfadeTo sc h res (set_preloaded None s)
    | None => set_awaitingSwap (S (awaitingSwap s)) s
    end.

(** [updateBg()] resumed with the loaded image. *)
Definition swapLoaded (sc : Script) (h : Host) (res : LoadResult) (s : State) : State :=
  crossfadeTo sc h res (set_preloaded None s).

(** The [catch] block of [updateBg()]. *)
Definition swapFailed (h : Host) (s : State) : State :=
  let s := set_switching false s in
  let s :=
    match bgPrimary s with
    | Some p =>
        let s := onPage (setBackgroundImage p (cssUrl (FALLBACK_BG h))) s in
        record FallbackShown (onPage (setFade p false) s)
    | None => s
    end in
  startProactivePreload s.

(** [onDone] (revision A, lines 283-293) and [onTransitionEnd] (revision B,
    lines 732-750). *)
Definition onDone (sc : Script) (h : Host) (c : Closure) (s : State) : State :=
  let s := set_listeners
             (filter (fun lc => lc ≠ (listensOn sc c, c)) (listeners s)) s in
  let s := onPage (setFade (oldPrimary c) true) s in
  let s := set_bgPrimary (Some (newPrimary c)) s in
  let s := set_bgBuffer (Some (oldPrimary c)) s in
  let s := record (FadeDone (cid c)) (set_switching false s) in
  let s := if queued s then updateBg sc h (set_queued false s) else s in
  startProactivePreload (set_preloaded None s).

(** ** The event loop *)

Inductive Event :=
| RequestSwap                             (* a timer tick or a click on "next" *)
| SwapSettled (r : option LoadResult)     (* the load awaited by updateBg *)
| PreloadSettled (r : option LoadResult)  (* the load of startProactivePreload *)
| Frame (c : nat)                         (* revision B: the delayed callback *)
| TransitionEnd (l : Layer)               (* transitionend dispatched on l *)
| Timeout (c : nat).                      (* the safety-net timer of closure c *)

(** One listener of a dispatch: a [once] listener is taken off before it
    runs, and one removed earlier in the same dispatch is skipped. *)
Definition fire (sc : Script) (h : Host) (s : State) (lc : Layer * Closure) : State :=
  if decide (lc ∈ listeners s)
  then onDone sc h (snd lc)
         (set_listeners (filter (fun x => x ≠ lc) (listeners s)) s)
  else s.

Definition dispatch (sc : Script) (h : Host) (l : Layer) (s : State) : State :=
  foldl (fire sc h) s (filter (fun lc => fst lc = l) (listeners s)).

Definition withCid (c : nat) (cs : list Closure) : option Closure :=
  head (filter (fun x => cid x = c) cs).

(** One macrotask.  [None]: the event cannot happen in this state. *)
Definition step (sc : Script) (h : Host) (s : State) (e : Event) : option State :=
  match e with
  | RequestSwap =>
      match bgLayer s with
      | Some _ => Some (updateBg sc h s)
      | None => None
      end
  | SwapSettled r =>
      match awaitingSwap s with
      | O => None
      | S n =>
          let s := set_awaitingSwap n s in
          Some (match r with
                | Some res => swapLoaded sc h res s
                | None => swapFailed h s
                end)
      end
  | PreloadSettled r =>
      match awaitingPreload s with
      | O => None
      | S n =>
          let s := set_awaitingPreload n s in
          Some (match r with
                | Some res => set_preloaded (Some res) s
                | None => s
                end)
      end
  | Frame c =>
      match withCid c (delayed s) with
      | Some cl =>
          Some (phase2 sc cl
                  (set_delayed (filter (fun x => cid x ≠ c) (delayed s)) s))
      | None => None
      end
  | TransitionEnd l => Some (dispatch sc h l s)
  | Timeout c =>
      match withCid c (timers s) with
      | Some cl =>
          let s := set_timers (filter (fun x => cid x ≠ c) (timers s)) s in
          Some (if switching s then onDone sc h cl s else s)
      | None => None
      end
  end.

Fixpoint run (sc : Script) (h : Host) (s : State) (es : list Event) : option State :=
  match es with
  | [] => Some s
  | e :: es =>
      match step sc h s e with
      | Some s' => run sc h s' es
      | None => None
      end
  end.

(** The state when the script has been evaluated, before [initBg]. *)
Definition boot (l : option Layer) (p : Page) : State :=
  mkState l None None false false None p 0 0 [] [] [] 0 [].

(** [initBg()]: nothing is installed without [#bgLayer].  [savedBlur] is the
    stored blur as [initBg] parses it, [None] on a page without the blur
    selector.  The interval timer that [applyBgInterval] installs and the
    click handler of the "next" button call [updateBg]; their firings are
    the [RequestSwap] events. *)
Definition initBg (sc : Script) (h : Host) (savedBlur : option Z) (s : State) : State :=
  match bgLayer s with
  | None => s
  | Some _ =>
      let s := match sc with ScriptA => ensureBgBuffers s | ScriptB => s end in
      let s := onPage (applyTone sc (Some "dark")) s in
      let s := updateBg sc h s in
      let s := match savedBlur with
               | Some v => onPage (applyBgBlur sc (device h) v) s
               | None => s
               end in
      startProactivePreload s
  end.

(** Crossfades begun and not yet completed, read off the log. *)
Definition inFlight (l : list Obs) : list nat :=
  foldl (fun (acc : list nat) o =>
           match o with
           | FadeStarted c => (acc ++ [c])%list
           | FadeDone c => filter (fun x => x ≠ c) acc
           | _ => acc
           end) [] l.

(** How often [updateBg] has taken the switch. *)
Definition swaps (l : list Obs) : nat :=
  length (filter (fun o => o = Switched) l).

(** ** Reading a run of the loader *)

Definition isFallback (a : Attempt) : bool :=
  match target a with Fallback => true | Provider _ => false end.

Definition providerAttempts (o : Outcome) : list Attempt :=
  filter (fun a => isFallback a = false) (attempts o).


(** The host part of an absolute http(s) URL is what follows the scheme; a
    path of the site itself has no scheme. *)
Definition isRemoteUrl (u : string) : bool :=
  String.prefix "https://" u || String.prefix "http://" u.

(** A provider attempt that did not load. *)
Definition failedProvider (a : Attempt) : Prop :=
  isFallback a = false /\ loaded a = false.

(** ** Reading a state of the coordinator *)

(** Revision B once an image has arrived: [crossfadeTo] found no buffers and
    returned before arming anything. *)
Definition stuck (s : State) : Prop :=
  switching s = true /\ bgPrimary s = None /\ bgBuffer s = None
  /\ awaitingSwap s = 0%nat /\ delayed s = [] /\ listeners s = []
  /\ timers s = [] /\ log s = [Switched].

(* ================================================================== *)
(** * Further parts of the script *)
(* ================================================================== *)

(** Strings are kept as their UTF-8 bytes.  Integers are exact; JavaScript
    agrees with that up to 2^53. *)

(** ** Values that are a string, [null] or [undefined] *)

Inductive JsVal := JsNull | JsUndefined | JsString (s : string).

#[global] Instance JsVal_eq_dec : EqDecision JsVal.
Proof. solve_decision. Defined.

(** [!v] *)
Definition falsy (v : JsVal) : bool :=
  match v with
  | JsString s => bool_decide (s = "")
  | _ => true
  end.

(** [v||''] *)
Definition orEmpty (v : JsVal) : string :=
  match v with JsString s => s | _ => "" end.

(** [String(v)] *)
Definition jsToString (v : JsVal) : string :=
  match v with
  | JsNull => "null"
  | JsUndefined => "undefined"
  | JsString s => s
  end.

(** [localStorage.getItem(k)] *)
Definition getItem (k : string) (p : Page) : JsVal :=
  match localStorage p !! k with
  | Some v => JsString v
  | None => JsNull
  end.

(** [localStorage.getItem(k)||d] *)
Definition getItemOr (k d : string) (p : Page) : string :=
  match localStorage p !! k with
  | Some v => if decide (v = "") then d else v
  | None => d
  end.

(** ** [parseInt(s, 10)] and white space *)

Definition byte (c : Ascii.ascii) : N := Ascii.N_of_ascii c.

(** One white-space or line-terminator character at the front of [s], taken
    off: TAB, LF, VT, FF, CR, SP, and in UTF-8 U+00A0, U+1680,
    U+2000..U+200A, U+2028, U+2029, U+202F, U+205F, U+3000, U+FEFF. *)
Definition whiteRest (s : string) : option string :=
  match s with
  | String a r1 =>
      let a := byte a in
      if bool_decide (a ∈ [9; 10; 11; 12; 13; 32]%N) then Some r1
      else
        match r1 with
        | String b r2 =>
            let b := byte b in
            if bool_decide (a = 194 /\ b = 160)%N then Some r2
            else
              match r2 with
              | String c r3 =>
                  let c := byte c in
                  if bool_decide
                       ((a, b, c) ∈
                          [(225, 154, 128); (226, 128, 128); (226, 128, 129);
                           (226, 128, 130); (226, 128, 131); (226, 128, 132);
                           (226, 128, 133); (226, 128, 134); (226, 128, 135);
                           (226, 128, 136); (226, 128, 137); (226, 128, 138);
                           (226, 128, 168); (226, 128, 169); (226, 128, 175);
                           (226, 129, 159); (227, 128, 128); (239, 187, 191)]%N)
                  then Some r3 else None
              | EmptyString => None
              end
        | EmptyString => None
        end
  | EmptyString => None
  end.

Fixpoint skipWhiteFuel (fuel : nat) (s : string) : string :=
  match fuel with
  | O => s
  | S fuel =>
      match whiteRest s with
      | Some r => skipWhiteFuel fuel r
      | None => s
      end
  end.

(** [s] without its leading white space; every round takes at least one
    byte, so the length of [s] is fuel enough. *)
Definition skipWhite (s : string) : string := skipWhiteFuel (String.length s) s.

(** [!s.trim()]: the string is white space only. *)
Definition isBlank (s : string) : bool := bool_decide (skipWhite s = "").

Definition digit (c : Ascii.ascii) : option N :=
  let b := byte c in
  if bool_decide (48 <= b <= 57)%N then Some (b - 48)%N else None.

(** The value of the longest prefix of decimal digits, from [acc]. *)
Fixpoint digitsVal (acc : N) (s : string) : N :=
  match s with
  | String c r =>
      match digit c with
      | Some d => digitsVal (acc * 10 + d) r
      | None => acc
      end
  | EmptyString => acc
  end.

Definition unsignedInt (s : string) : option N :=
  match s with
  | String c _ =>
      match digit c with
      | Some _ => Some (digitsVal 0 s)
      | None => None
      end
  | EmptyString => None
  end.

(** [parseInt(s, 10)]; [None] is [NaN]. *)
Definition parseInt10 (s : string) : option Z :=
  match skipWhite s with
  | String c r =>
      if bool_decide (byte c = 45)%N        (* '-' *)
      then (fun n => (- Z.of_N n)%Z) <$> unsignedInt r
      else if bool_decide (byte c = 43)%N   (* '+' *)
      then Z.of_N <$> unsignedInt r
      else Z.of_N <$> unsignedInt (String c r)
  | EmptyString => None
  end.

(** ** ConfigStore: what [initBg] reads back, the change handlers, the
    rotation timer *)

(** [const savedBlur = parseInt(localStorage.getItem('dove-bg-blur')||'12',10);
     const v = isNaN(savedBlur) ? 12 : savedBlur].  The value is that of the
    script while the numeral read is a safe integer. *)
Definition savedBlur (p : Page) : Z :=
  default 12 (parseInt10 (getItemOr "dove-bg-blur" "12" p)).

(** [parseInt(localStorage.getItem('dove-bg-interval')||'0',10)], as for
    [savedBlur]. *)
Definition savedInterval (p : Page) : option Z :=
  parseInt10 (getItemOr "dove-bg-interval" "0" p).

(** The [change] handler of the blur selector with the selector's value. *)
Definition onBlurChange (sc : Script) (d : Device) (value : string) (p : Page) : Page :=
  let value := if decide (value = "") then "12" else value in
  applyBgBlur sc d (default 12 (parseInt10 value)) p.

(** The timers of [setInterval]: [bgTimer] is the script's variable,
    [intervals] what the browser holds (handle and period in ms).  Handles
    are positive, as the HTML standard has them, so a handle is never
    falsy. *)
Record Scheduler := mkScheduler {
  bgTimer   : option positive;
  intervals : list (positive * Z);
  nextTimer : positive
}.

(** [applyBgInterval(seconds)] for a safe integer [seconds] (the callers
    replace [NaN]); [String(seconds||0)] is then the decimal numeral of
    [seconds], and [seconds*1000] is exact while it is a safe integer
    too. *)
Definition applyBgInterval (seconds : Z) (tp : Scheduler * Page) : Scheduler * Page :=
  let t := fst tp in
  let t :=
    match bgTimer t with
    | Some id =>
        mkScheduler None (filter (fun x => fst x ≠ id) (intervals t)) (nextTimer t)
    | None => t
    end in
  let p := setItem "dove-bg-interval" (pretty seconds) (snd tp) in
  if bool_decide (0 < seconds)
  then (mkScheduler (Some (nextTimer t))
          (intervals t ++ [(nextTimer t, seconds * 1000)])
          (Pos.succ (nextTimer t)), p)
  else (t, p).

(** The [change] handler of the interval selector. *)
Definition onIntervalChange (value : string) (tp : Scheduler * Page) : Scheduler * Page :=
  let value := if decide (value = "") then "0" else value in
  applyBgInterval (default 0 (parseInt10 value)) tp.

(** The interval part of [initBg]: a stored value that does not parse is
    not applied at all. *)
Definition initInterval (tp : Scheduler * Page) : Scheduler * Page :=
  match savedInterval (snd tp) with
  | Some saved => applyBgInterval saved tp
  | None => tp
  end.

(** The rotation timer is the only interval the scheduler holds. *)
Definition oneTimer (t : Scheduler) : Prop :=
  match bgTimer t with
  | Some id => exists ms, intervals t = [(id, ms)]
  | None => intervals t = []
  end.

(** ** Theme toggle *)

(** The click handler of [#toggleTheme]. *)
Definition toggleThemeClick (p : Page) : option Page :=
  let cur := getItemOr "dove-theme" "auto" p in
  let nxt :=
    if decide (cur = "auto") then "light"
    else if decide (cur = "light") then "dark" else "auto" in
  setTheme nxt p.

(** ** Clock: [pad] *)

(** [n<10 ? '0'+n : ''+n] *)
Definition pad (n : Z) : string :=
  if bool_decide (n < 10) then "0" +:+ pretty n else pretty n.

(** ** Search engines *)

(** One [<li>] of [#engineMenu]: [dataset.name] and [dataset.template],
    each a string or [undefined]. *)
Record EngineItem := mkEngineItem {
  ename     : JsVal;
  etemplate : JsVal
}.

Record SearchUi := mkSearchUi {
  engineMenu   : option (list EngineItem);  (* None: the page has no menu *)
  ariaSelected : list bool;                 (* aria-selected of each <li> *)
  engineLabel  : option JsVal;   (* None: no #engineLabel; else its text *)
  uiPage       : Page
}.

(** [engines()] *)
Definition engines (u : SearchUi) : list EngineItem :=
  default [] (engineMenu u).

(** [list.find(x=>x.name===name) || list[0]], with the position found. *)
Definition pickEngine (name : JsVal) (l : list EngineItem) : option (nat * EngineItem) :=
  match list_find (fun x => ename x = name) l with
  | Some ie => Some ie
  | None => (fun e => (0%nat, e)) <$> head l
  end.

Definition selectedEngineName (u : SearchUi) : JsVal := getItem "dove-engine" (uiPage u).

(** [setSelectedEngine(name)].  [label.textContent = e.name] with a name
    that is [undefined] leaves the label with the empty text. *)
Definition setSelectedEngine (name : JsVal) (u : SearchUi) : SearchUi :=
  match engineMenu u with
  | None => u
  | Some l =>
      match pickEngine name l with
      | None => u
      | Some (i, e) =>
          mkSearchUi (engineMenu u)
            (imap (fun j _ => bool_decide (j = i)) l)
            ((fun _ => JsString (orEmpty (ename e))) <$> engineLabel u)
            (setItem "dove-engine" (jsToString (ename e)) (uiPage u))
      end
  end.

(** [nextEngine(delta)].  [%] is the remainder with the sign of the
    dividend; with a negative index [list[idx]] is [undefined] and reading
    its [name] throws: [None]. *)
Definition nextEngine (delta : Z) (u : SearchUi) : option SearchUi :=
  let l := engines u in
  match l with
  | [] => Some u
  | _ =>
      let name := selectedEngineName u in
      let found := match list_find (fun x => ename x = name) l with
                   | Some (i, _) => Z.of_nat i
                   | None => -1
                   end in
      let idx := Z.max 0 found in
      let idx := Z.rem (idx + delta + Z.of_nat (length l)) (Z.of_nat (length l)) in
      if bool_decide (idx < 0) then None
      else
        match l !! Z.to_nat idx with
        | Some e => Some (setSelectedEngine (ename e) u)
        | None => None
        end
  end.

(** *** [encodeURIComponent] and [String.prototype.replace] *)

(** The characters [encodeURIComponent] leaves alone: letters, digits and
    [- _ . ! ~ * ' ( )]. *)
Definition unreserved (b : N) : bool :=
  bool_decide (65 <= b <= 90)%N || bool_decide (97 <= b <= 122)%N
  || bool_decide (48 <= b <= 57)%N
  || bool_decide (b ∈ [45; 95; 46; 33; 126; 42; 39; 40; 41]%N).

Definition hexDigit (n : N) : Ascii.ascii :=
  Ascii.ascii_of_N (if bool_decide (n < 10)%N then 48 + n else 55 + n).

(** Every byte of the UTF-8 form that is not unreserved becomes [%XX]. *)
Fixpoint encodeURIComponent (s : string) : string :=
  match s with
  | String c r =>
      let b := byte c in
      if unreserved b then String c (encodeURIComponent r)
      else String (Ascii.ascii_of_N 37)
             (String (hexDigit (b / 16)) (String (hexDigit (b mod 16))
                (encodeURIComponent r)))
  | EmptyString => EmptyString
  end.

Fixpoint stripPrefix (pat s : string) : option string :=
  match pat with
  | EmptyString => Some s
  | String a pat =>
      match s with
      | String b s => if decide (a = b) then stripPrefix pat s else None
      | EmptyString => None
      end
  end.

(** The text before and after the first occurrence of [pat] in [s]. *)
Fixpoint findSub (pat s : string) : option (string * string) :=
  match stripPrefix pat s with
  | Some rest => Some (EmptyString, rest)
  | None =>
      match s with
      | String c r => (fun ab => (String c (fst ab), snd ab)) <$> findSub pat r
      | EmptyString => None
      end
  end.

(** The replacement text of [replace] with a string pattern (no capture
    groups): [$$] is a dollar, [$&] the match, [$`] and [$'] the text before
    and after it; any other [$] stands for itself. *)
Fixpoint expand (matched before after rep : string) : string :=
  match rep with
  | EmptyString => EmptyString
  | String a r1 =>
      if bool_decide (byte a = 36)%N then
        match r1 with
        | String c r2 =>
            if bool_decide (byte c = 36)%N then String a (expand matched before after r2)
            else if bool_decide (byte c = 38)%N
                 then matched +:+ expand matched before after r2
            else if bool_decide (byte c = 96)%N
                 then before +:+ expand matched before after r2
            else if bool_decide (byte c = 39)%N
                 then after +:+ expand matched before after r2
            else String a (expand matched before after r1)
        | EmptyString => String a EmptyString
        end
      else String a (expand matched before after r1)
  end.

(** [s.replace(pat, rep)] for a string [pat]: the first occurrence only. *)
Definition jsReplace (pat rep s : string) : string :=
  match findSub pat s with
  | Some (before, after) => before +:+ expand pat before after rep +:+ after
  | None => s
  end.

(** [currentEngineUrl(qs)]; [None] is [null]. *)
Definition currentEngineUrl (qs : string) (u : SearchUi) : option string :=
  match pickEngine (selectedEngineName u) (engines u) with
  | None => None
  | Some (_, e) =>
      Some (jsReplace "{q}" (encodeURIComponent qs) (orEmpty (etemplate e)))
  end.

(** Only unreserved characters, [%] and hexadecimal digits. *)
Definition urlSafe (c : Ascii.ascii) : bool :=
  unreserved (byte c) || bool_decide (byte c = 37)%N.

(** ** Categories *)

(** A sidebar entry: [getAttribute('data-cat')] (a string or [null]) and
    whether it carries the class [active]. *)
Record CatItem := mkCatItem {
  dataCat  : JsVal;
  isActive : bool
}.

Record SectionEl := mkSectionEl {
  sectionCat     : JsVal;
  sectionDisplay : string        (* style.display *)
}.

Record CatUi := mkCatUi {
  catList    : option (list CatItem);   (* None: the page has no #cats *)
  sections   : list SectionEl;
  currentCat : string;
  searchText : option string;           (* q.value; None without #q *)
  catPage    : Page
}.

(** [setActiveCat(name)] *)
Definition setActiveCat (name : JsVal) (u : CatUi) : CatUi :=
  match catList u with
  | None => u
  | Some items =>
      mkCatUi
        (Some (map (fun it => mkCatItem (dataCat it) (bool_decide (dataCat it = name)))
                 items))
        (if isBlank (default "" (searchText u))
         then map (fun sec =>
                     mkSectionEl (sectionCat sec)
                       (if falsy name || bool_decide (name = sectionCat sec)
                        then "" else "none"))
                (sections u)
         else sections u)
        (orEmpty name)
        (searchText u)
        (setItem "dove-cat" (orEmpty name) (catPage u))
  end.

(** The category [initCats()] activates. *)
Definition initialCat (u : CatUi) (items : list CatItem) : JsVal :=
  let saved := getItem "dove-cat" (catPage u) in
  if falsy saved || negb (bool_decide (Exists (fun it => dataCat it = saved) items))
  then match items with
       | it :: _ => dataCat it
       | [] => JsString ""
       end
  else saved.

(** [initCats()] *)
Definition initCats (u : CatUi) : CatUi :=
  match catList u with
  | None => u
  | Some items => setActiveCat (initialCat u items) u
  end.

(** ** Reading a trace of the event loop *)

Definition isRequest (e : Event) : bool :=
  match e with RequestSwap => true | _ => false end.

(** Calls of [updateBg] made by the timer or the "next" button. *)
Definition requests (es : list Event) : nat :=
  length (filter (fun e => isRequest e = true) es).

(** The request [updateBg] has put aside in [queued]. *)
Definition pending (s : State) : nat := if queued s then 1%nat else 0%nat.

Definition isFadeStarted (o : Obs) : bool :=
  match o with FadeStarted _ => true | _ => false end.

Definition fadesBegun (l : list Obs) : nat :=
  length (filter (fun o => isFadeStarted o = true) l).

Definition fallbacksShown (l : list Obs) : nat :=
  length (filter (fun o => o = FallbackShown) l).

(** The two layers a completion handler closes over are different
    elements. *)
Definition distinctLayers (c : Closure) : Prop := oldPrimary c ≠ newPrimary c.

(** Both buffers exist and are different elements, and so are the layers of
    every completion handler the event loop still holds. *)
Definition buffered (s : State) : Prop :=
  (exists x y, bgPrimary s = Some x /\ bgBuffer s = Some y /\ x ≠ y)
  /\ Forall distinctLayers (delayed s)
  /\ Forall (fun lc => distinctLayers (snd lc)) (listeners s)
  /\ Forall distinctLayers (timers s).

(** Every switch taken has led to a crossfade or to the fallback image, or
    still waits for its load. *)
Definition balanced (s : State) : Prop :=
  swaps (log s)
  = (fadesBegun (log s) + fallbacksShown (log s) + awaitingSwap s)%nat.

(** Revision B before any buffer exists: nothing armed, nothing painted. *)
Definition unbuffered (p : Page) (s : State) : Prop :=
  bgPrimary s = None /\ bgBuffer s = None
  /\ delayed s = [] /\ listeners s = [] /\ timers s = []
  /\ dom1 (page s) = dom1 p /\ dom2 (page s) = dom2 p
  /\ Forall (fun o => o = Switched) (log s).

(** ** The search box: [filter], [externalSearch] and the Enter key *)

(** What the realm supplies: [String.prototype.toLowerCase], and the names a
    fresh object literal answers to with a truthy value through
    [Object.prototype] (['constructor'], ['toString'], ...). *)
Record Realm := mkRealm {
  toLowerCase : string -> string;
  inherited   : string -> bool
}.

(** [s.trimEnd()]: the string is cut where only white space follows.  Inside
    a multi-byte character the rest starts with a continuation byte, which
    begins no white-space character. *)
Fixpoint trimEnd (s : string) : string :=
  match s with
  | EmptyString => EmptyString
  | String c r => if isBlank (String c r) then EmptyString else String c (trimEnd r)
  end.

(** [s.trim()] *)
Definition trim (s : string) : string := trimEnd (skipWhite s).

(** [t.includes(v)] *)
Definition includes (t v : string) : bool :=
  match findSub v t with Some _ => true | None => false end.

(** A link card: its attributes [data-name], [data-host], [data-desc] and
    [href] ([getAttribute] gives a string or [null]) and [style.display]. *)
Record Card := mkCard {
  dataName    : JsVal;
  dataHost    : JsVal;
  dataDesc    : JsVal;
  href        : JsVal;
  cardDisplay : string
}.

(** The link list and the search box.  The categories, the sections (their
    [data-cat] and [style.display]) and the text of [#q] are those of
    [CatUi]. *)
Record LinksUi := mkLinksUi {
  cards        : list Card;        (* document.querySelectorAll('.card') *)
  sectionCards : list (list nat);  (* per section: its .card descendants, by
                                      position in [cards] *)
  itemDisplay  : list string;      (* style.display of each .cat-item *)
  catChildren  : nat;              (* catList.children.length *)
  sidebar      : option string;    (* style.display of #sidebar, if there is one *)
  cats         : CatUi
}.

(** [`${name} ${host} ${desc}`] *)
Definition cardText (rl : Realm) (c : Card) : string :=
  toLowerCase rl (orEmpty (dataName c)) +:+ " "
  +:+ toLowerCase rl (orEmpty (dataHost c)) +:+ " "
  +:+ toLowerCase rl (orEmpty (dataDesc c)).

(** [(q && q.value || '').toLowerCase().trim()] *)
Definition query (rl : Realm) (u : LinksUi) : string :=
  trim (toLowerCase rl (default "" (searchText (cats u)))).

Definition setCardDisplay (d : string) (c : Card) : Card :=
  mkCard (dataName c) (dataHost c) (dataDesc c) (href c) d.

(** [x.style.display !== 'none'] *)
Definition shown (d : string) : bool := negb (bool_decide (d = "none")).

(** [Array.from(sec.querySelectorAll('.card')).some(x => x.style.display !== 'none')] *)
Definition sectionVisible (cs : list Card) (members : list nat) : bool :=
  existsb (fun i => match cs !! i with
                    | Some c => shown (cardDisplay c)
                    | None => false
                    end) members.

(** The [sections.forEach] of a search: every section is shown or hidden,
    and [hasVisibleByCat] collects the categories of the visible ones.
    [has] holds the own keys of that object; all its values are [true]. *)
Fixpoint searchSections (cs : list Card) (secs : list SectionEl)
    (members : list (list nat)) (has : gset string) : list SectionEl * gset string :=
  match secs with
  | [] => ([], has)
  | sec :: secs =>
      let visible := sectionVisible cs (default [] (head members)) in
      let has := if visible then {[orEmpty (sectionCat sec)]} ∪ has else has in
      let '(secs', has') := searchSections cs secs (tail members) has in
      (mkSectionEl (sectionCat sec) (if visible then "" else "none") :: secs', has')
  end.

(** [currentCat || (catList && catList.querySelector('.cat-item') &&
    catList.querySelector('.cat-item').getAttribute('data-cat')) || ''] *)
Definition restoreCat (c : CatUi) : JsVal :=
  if bool_decide (currentCat c = "") then
    match catList c with
    | Some (it :: _) => if falsy (dataCat it) then JsString "" else dataCat it
    | _ => JsString ""
    end
  else JsString (currentCat c).

(** [v ? (t.includes(v) ? '' : 'none') : ''] *)
Definition matchDisplay (rl : Realm) (v : string) (c : Card) : string :=
  if bool_decide (v = "") then ""
  else if includes (cardText rl c) v then "" else "none".

(** [filter()], the [input] handler of the search box (named apart from the
    list function). *)
Definition filterLinks (rl : Realm) (u : LinksUi) : LinksUi :=
  let v := query rl u in
  let cs := (fun c => setCardDisplay (matchDisplay rl v c) c) <$> cards u in
  if bool_decide (v = "") then
    mkLinksUi cs (sectionCards u)
      (match catList (cats u) with
       | Some items => (fun _ => "") <$> items
       | None => itemDisplay u
       end)
      (catChildren u)
      ((fun _ => match catList (cats u) with
                 | Some _ => if bool_decide (0 < catChildren u)%nat then "" else "none"
                 | None => "none"
                 end) <$> sidebar u)
      (setActiveCat (restoreCat (cats u)) (cats u))
  else
    let '(secs, has) := searchSections cs (sections (cats u)) (sectionCards u) ∅ in
    let items :=
      match catList (cats u) with
      | Some items =>
          (fun it =>
             let cat := orEmpty (dataCat it) in
             if bool_decide (cat ∈ has) || inherited rl cat then "" else "none")
          <$> items
      | None => itemDisplay u
      end in
    mkLinksUi cs (sectionCards u) items (catChildren u)
      (match catList (cats u) with
       | Some _ => (fun _ => if existsb shown items then "" else "none") <$> sidebar u
       | None => sidebar u
       end)
      (mkCatUi (catList (cats u)) secs (currentCat (cats u)) (searchText (cats u))
         (catPage (cats u))).

(** The user replaces the text of [#q]; the [input] event then runs
    [filter]. *)
Definition typeText (rl : Realm) (v : string) (u : LinksUi) : LinksUi :=
  filterLinks rl
    (mkLinksUi (cards u) (sectionCards u) (itemDisplay u) (catChildren u) (sidebar u)
       (mkCatUi (catList (cats u)) (sections (cats u)) (currentCat (cats u)) (Some v)
          (catPage (cats u)))).

(** [externalSearch()]: the URL handed to [window.open], if any. *)
Definition externalSearch (u : LinksUi) (e : SearchUi) : option string :=
  let v := trim (default "" (searchText (cats u))) in
  if bool_decide (v = "") then None
  else
    match currentEngineUrl v e with
    | Some url => if bool_decide (url = "") then None else Some url
    | None => None
    end.

(** The [keydown] handler of [#q] for the key Enter: the URL opened, if
    any. *)
Definition onEnter (shiftKey : bool) (u : LinksUi) (e : SearchUi) : option string :=
  let v := trim (default "" (searchText (cats u))) in
  if bool_decide (v = "") then None
  else
    let visible := filter (fun c => shown (cardDisplay c) = true) (cards u) in
    if shiftKey then externalSearch u e
    else
      match visible with
      | c :: _ => if falsy (href c) then None else Some (orEmpty (href c))
      | [] => externalSearch u e
      end.

(** ** The stored theme at page load *)

(** [const saved = localStorage.getItem('dove-theme'); if(saved){ setTheme(saved); }]
    [None]: [setTheme] throws and the script stops there; nothing below this
    line of the script runs, [initBg] included. *)
Definition restoreTheme (p : Page) : option Page :=
  match getItem "dove-theme" p with
  | JsString t => if bool_decide (t = "") then Some p else setTheme t p
  | _ => Some p
  end.

(** ** The engine menu: [toggleEngineMenu] and the click handlers *)

Record MenuUi := mkMenuUi {
  hasButton    : bool;            (* the page has #engineBtn *)
  menuHidden   : bool;            (* engineMenu.hasAttribute('hidden') *)
  ariaExpanded : option string;   (* aria-expanded of #engineBtn *)
  search       : SearchUi
}.

(** [toggleEngineMenu(force)]; [force] is [None] when the argument is left
    out. *)
Definition toggleEngineMenu (force : option bool) (m : MenuUi) : MenuUi :=
  match engineMenu (search m) with
  | None => m
  | Some _ =>
      if negb (hasButton m) then m
      else
        let open := match force with Some b => b | None => menuHidden m end in
        if open then mkMenuUi (hasButton m) false (Some "true") (search m)
        else mkMenuUi (hasButton m) true (Some "false") (search m)
  end.

(** The [click] listener of [document], line 68; [outside] is
    [!engineMenu.contains(ev.target) && ev.target!==engineBtn]. *)
Definition documentClick (outside : bool) (m : MenuUi) : MenuUi :=
  match engineMenu (search m) with
  | None => m
  | Some _ =>
      if negb (menuHidden m) && outside then toggleEngineMenu (Some false) m else m
  end.

(** Where a click lands.  The button and the menu are not nested in one
    another. *)
Inductive ClickTarget :=
| OnButton          (* the target is #engineBtn itself *)
| InsideButton      (* the target is a descendant of #engineBtn *)
| OnItem (i : nat)  (* the target is the i-th <li> of the menu, or inside it *)
| InsideMenu        (* elsewhere inside #engineMenu *)
| Elsewhere.

(** One click: the listeners it reaches while it bubbles, innermost first:
    that of the [<li>] (installed by [initEngine]), that of the button
    (line 67), and last that of [document]. *)
Definition click (t : ClickTarget) (m : MenuUi) : MenuUi :=
  match t with
  | OnButton => documentClick false (toggleEngineMenu None m)
  | InsideButton => documentClick true (toggleEngineMenu None m)
  | OnItem i =>
      match engines (search m) !! i with
      | Some x =>
          let m := mkMenuUi (hasButton m) (menuHidden m) (ariaExpanded m)
                     (setSelectedEngine (ename x) (search m)) in
          documentClick false (toggleEngineMenu (Some false) m)
      | None => m
      end
  | InsideMenu => documentClick false m
  | Elsewhere => documentClick true m
  end.

(** [aria-expanded] of the button says whether the menu is open. *)
Definition announced (m : MenuUi) : Prop :=
  ariaExpanded m = Some (if menuHidden m then "false" else "true").

(** ** Keyboard shortcuts *)

Record KeyEvent := mkKeyEvent {
  key      : string;
  altKey   : bool;
  shiftKey : bool;
  ctrlKey  : bool;
  metaKey  : bool
}.

(** What the [keydown] listener of [document] (lines 105-113) does. *)
Inductive Shortcut :=
| FocusSearch                  (* q && q.focus() *)
| CycleEngine (delta : Z)      (* nextEngine(delta) *)
| SearchOutside                (* externalSearch() *)
| NoShortcut.

(** [isMac] is [navigator.platform.toUpperCase().indexOf('MAC')>=0],
    [qFocused] is [document.activeElement===q]. *)
Definition shortcut (rl : Realm) (isMac qFocused : bool) (ev : KeyEvent) : Shortcut :=
  let modifier := if isMac then metaKey ev else ctrlKey ev in
  if (bool_decide (key ev = "/") && negb qFocused)
     || (modifier && bool_decide (toLowerCase rl (key ev) = "k"))
  then FocusSearch
  else if altKey ev && shiftKey ev && bool_decide (toLowerCase rl (key ev) = "e")
  then CycleEngine 1
  else if altKey ev
          && (bool_decide (key ev = "ArrowUp") || bool_decide (key ev = "ArrowDown"))
  then CycleEngine (if bool_decide (key ev = "ArrowDown") then 1 else -1)
  else if modifier && bool_decide (key ev = "/")
  then SearchOutside
  else NoShortcut.

(** ** Loader runs side by side *)

(** [providerIdx] is one variable of the script, and a run of
    [loadNextWithRetry] gives way at every [await]: all the runs under way
    advance the same cursor.  ([retry] above follows one run while no other
    run is under way.)  [initBg] alone starts two runs, one for the swap
    and one for the preload.  The index handed to the world is here the
    ordinal of the [preloadImage] call on the page. *)

Inductive RunStatus :=
| Waiting (t : Target)    (* suspended at [await preloadImage(...)] *)
| Resolved (t : Target)   (* returned the image of that request *)
| Rejected.               (* threw 'All providers failed, fallback failed' *)

Record LoaderRun := mkLoaderRun {
  triesLeft : nat;          (* [tries] *)
  status    : RunStatus;
  asked     : list Target   (* the requests of this run, in order *)
}.

Record Loaders := mkLoaders {
  sharedIdx  : nat;                            (* [providerIdx] *)
  loaderRuns : list LoaderRun;
  issued     : list (nat * Target * string)    (* every [preloadImage] call of
                                                  the page in order: the run,
                                                  what for, the URL *)
}.

(** Run [i] at the head of its loop with [tries] rounds to go, having asked
    [was]: it goes on to its next [await].  A [nextUrl] that throws is
    caught and the loop goes round; after the loop the fallback is asked. *)
Fixpoint proceed (sc : Script) (h : Host) (wd : World) (i : nat)
    (tries : nat) (was : list Target) (L : Loaders) : Loaders :=
  match tries with
  | O =>
      mkLoaders (sharedIdx L)
        (<[i := mkLoaderRun 0 (Waiting Fallback) (was ++ [Fallback])]> (loaderRuns L))
        (issued L ++ [(i, Fallback, FALLBACK_BG h)])
  | S tries =>
      match nextUrl sc wd (length (issued L)) (sharedIdx L) with
      | Some (idx, u) =>
          mkLoaders idx
            (<[i := mkLoaderRun tries (Waiting (Provider idx)) (was ++ [Provider idx])]>
               (loaderRuns L))
            (issued L ++ [(i, Provider idx, u)])
      | None => proceed sc h wd i tries was L
      end
  end.

Inductive LoaderEvent :=
| Begin (maxTries : option Z)     (* [loadNextWithRetry(maxTries)] is called *)
| Settled (i : nat) (ok : bool).  (* the request run [i] waits for loads, or fails *)

Definition loaderStep (sc : Script) (h : Host) (wd : World)
    (L : Loaders) (e : LoaderEvent) : option Loaders :=
  match e with
  | Begin maxTries =>
      let i := length (loaderRuns L) in
      let L := mkLoaders (sharedIdx L)
                 (loaderRuns L ++ [mkLoaderRun 0 Rejected []]) (issued L) in
      Some (proceed sc h wd i (Z.to_nat (budget maxTries)) [] L)
  | Settled i ok =>
      match loaderRuns L !! i with
      | Some r =>
          match status r with
          | Waiting t =>
              if ok
              then Some (mkLoaders (sharedIdx L)
                           (<[i := mkLoaderRun (triesLeft r) (Resolved t) (asked r)]>
                              (loaderRuns L))
                           (issued L))
              else
                match t with
                | Provider _ => Some (proceed sc h wd i (triesLeft r) (asked r) L)
                | Fallback =>
                    Some (mkLoaders (sharedIdx L)
                            (<[i := mkLoaderRun (triesLeft r) Rejected (asked r)]>
                               (loaderRuns L))
                            (issued L))
                end
          | _ => None
          end
      | None => None
      end
  end.

Fixpoint runLoaders (sc : Script) (h : Host) (wd : World)
    (L : Loaders) (es : list LoaderEvent) : option Loaders :=
  match es with
  | [] => Some L
  | e :: es =>
      match loaderStep sc h wd L e with
      | Some L' => runLoaders sc h wd L' es
      | None => None
      end
  end.

(** The providers asked on the page, in the order of the requests. *)
Definition providersIssued (L : Loaders) : list nat :=
  omap (fun x => match snd (fst x) with
                 | Provider i => Some i
                 | Fallback => None
                 end) (issued L).

(** The provider requests of the page alternate, beginning with provider 1,
    and the cursor is on the provider asked last. *)
Definition alternating (L : Loaders) : Prop :=
  (forall k i, providersIssued L !! k = Some i -> i = ((k + 1) mod 2)%nat)
  /\ sharedIdx L = (length (providersIssued L) mod 2)%nat.

(** ** Sample inputs *)

(** A host for the examples: a desktop device.  Its [Math_pow] returns the
    base, which is what [Math.pow] returns at base 1, the only base the
    examples below raise to a power. *)
Definition sampleHost : Host :=
  mkHost (fun x _ => x) (mkDevice false false) 1700000000000.

Definition blankPage : Page :=
  mkPage ∅ ∅ ∅ ∅ ∅ (mkLayerDom "" false) (mkLayerDom "" false).

(** An all-white image, and one whose pixels the canvas refuses to hand out
    (a cross-origin image without CORS approval). *)
Definition whiteImage : Img :=
  mkImg (fun size =>
    ImageData (flatten (repeat (mkPixel 255 255 255 255) (Z.to_nat (size * size))))).

Definition taintedImage : Img := mkImg (fun _ => Throws).

(** *** Sample page for the search box *)

(** [toLowerCase] on ASCII text. *)
Fixpoint asciiLower (s : string) : string :=
  match s with
  | EmptyString => EmptyString
  | String c r =>
      String (if bool_decide (65 <= byte c <= 90)%N
              then Ascii.ascii_of_N (byte c + 32) else c)
        (asciiLower r)
  end.

Definition sampleRealm : Realm :=
  mkRealm asciiLower
    (fun k => bool_decide
                (k ∈ ["constructor"; "hasOwnProperty"; "isPrototypeOf";
                      "propertyIsEnumerable"; "toLocaleString"; "toString";
                      "valueOf"; "__proto__"; "__defineGetter__";
                      "__defineSetter__"; "__lookupGetter__"; "__lookupSetter__"])).

Definition sampleCards : list Card :=
  [ mkCard (JsString "GitHub") (JsString "github.com") (JsString "Code hosting")
      (JsString "https://github.com/") "";
    mkCard (JsString "GitLab") (JsString "gitlab.com") JsNull
      (JsString "https://gitlab.com/") "";
    mkCard (JsString "Hacker News") (JsString "news.ycombinator.com") (JsString "Tech news")
      (JsString "https://news.ycombinator.com/") "" ].

(** Two sections, [dev] with the first two cards and [news] with the third;
    [text] is in the search box. *)
Definition sampleLinks (withCats : bool) (text : string) : LinksUi :=
  mkLinksUi sampleCards [[0%nat; 1%nat]; [2%nat]] [""; ""] 2 (Some "")
    (mkCatUi
       (if withCats
        then Some [mkCatItem (JsString "dev") true; mkCatItem (JsString "news") false]
        else None)
       [mkSectionEl (JsString "dev") ""; mkSectionEl (JsString "news") ""]
       "" (Some text) blankPage).

Definition sampleEngines : SearchUi :=
  mkSearchUi
    (Some [mkEngineItem (JsString "DuckDuckGo") (JsString "https://duckduckgo.com/?q={q}")])
    [true] None blankPage.

(* ================================================================== *)
(** * Properties *)
(* ================================================================== *)

(** ** Page lemmas *)

Lemma localStorage_setProperty k v p :
  localStorage (setProperty k v p) = localStorage p.
Proof. reflexivity. Qed.

Lemma localStorage_setItem k v p :
  localStorage (setItem k v p) = <[k:=v]> (localStorage p).
Proof. reflexivity. Qed.

Lemma rootStyle_setItem k v p : rootStyle (setItem k v p) = rootStyle p.
Proof. reflexivity. Qed.

Lemma layerDom_setLayerDom l d p : layerDom l (setLayerDom l d p) = d.
Proof. by destruct l. Qed.

Lemma layerDom_setLayerDom_ne l l' d p :
  l ≠ l' -> layerDom l' (setLayerDom l d p) = layerDom l' p.
Proof. by destruct l, l'. Qed.

(** ** ConfigStore *)

Lemma resolve_blur sc :
  resolve "applyBgBlur" (blurDecls sc) = Some applyBgBlur_plain.
Proof. by destruct sc. Qed.

Lemma applyBgBlur_is_plain sc d px p :
  applyBgBlur sc d px p = applyBgBlur_plain d px p.
Proof. unfold applyBgBlur. by rewrite resolve_blur. Qed.

(** C9 (as the code has it).  In both revisions a call of [applyBgBlur]
    writes the requested value, bounded below by 0 only, to the render
    variable [--bg-blur] and to the stored setting [dove-bg-blur]: the
    device class plays no part.  On a mobile device a request for 20 pixels
    is applied and stored as 20, not as the ceiling 6 of the declaration at
    lines 644-658, which the later declaration at line 786 replaces. *)
Theorem applyBgBlur_no_device_ceiling sc d px p :
  rootStyle (applyBgBlur sc d px p) !! "--bg-blur"
    = Some (pretty (Z.max 0 px) +:+ "px")
  /\ localStorage (applyBgBlur sc d px p) !! "dove-bg-blur"
    = Some (pretty (Z.max 0 px))
  /\ rootStyle (applyBgBlur ScriptB (mkDevice true false) 20 p) !! "--bg-blur"
    = Some "20px"
  /\ rootStyle (applyBgBlur_clamped (mkDevice true false) 20 p) !! "--bg-blur"
    = Some "6px".
Proof.
  rewrite !applyBgBlur_is_plain. unfold applyBgBlur_plain, applyBgBlur_clamped.
  cbn [rootStyle localStorage setItem setProperty isMobileDevice].
  repeat split; by rewrite lookup_insert_eq.
Qed.

(** ** Tone application *)

Lemma orDark_analyzeTone sc h im :
  orDark (analyzeTone sc h im) = Some "light"
  \/ orDark (analyzeTone sc h im) = Some "dark".
Proof.
  unfold analyzeTone. destruct (sample im (gridSize sc h)); cbn; auto.
  destruct (PrimFloat.ltb _ _); cbn; auto.
Qed.

Lemma applyTone_A_light p :
  applyTone_A (Some "light") p
  = setProperty "--bg-overlay-light" "0.16"
      (setProperty "--bg-overlay" "0.28" (setAttribute "data-img-tone" "light" p)).
Proof. unfold applyTone_A. by repeat case_decide. Qed.

Lemma applyTone_A_dark p :
  applyTone_A (Some "dark") p
  = setProperty "--bg-overlay-light" "0.22"
      (setProperty "--bg-overlay" "0.50" (setAttribute "data-img-tone" "dark" p)).
Proof. unfold applyTone_A. by repeat case_decide. Qed.

Lemma applyTone_A_localStorage tone p :
  localStorage (applyTone_A tone p) = localStorage p.
Proof.
  unfold applyTone_A. destruct tone; [|done]. by repeat case_decide.
Qed.

Lemma applyTone_B_theme tone p :
  localStorage (applyTone_B tone p) !! "dove-theme" = Some (String_ tone).
Proof. unfold applyTone_B. cbn. by rewrite lookup_insert_eq. Qed.


(** ** RetryFallbackResolver *)

Lemma nextUrl_A_defined wd n idx : is_Some (nextUrl ScriptA wd n idx).
Proof.
  unfold nextUrl. destruct (vp wd) as [w h'].
  destruct (lookup_lt_is_Some_2 BG_PROVIDERS ((idx + 1) mod length BG_PROVIDERS)%nat)
    as [b Hb].
  - apply Nat.mod_upper_bound. cbn. lia.
  - rewrite Hb. eauto.
Qed.

(** The attempts of a run: failed provider attempts, then one last attempt
    that is either a provider attempt that loaded or the fallback. *)
Lemma retry_shape sc h wd tries : forall n idx done,
  exists pre last,
    attempts (retry sc h wd tries n idx done) = done ++ pre ++ [last]
    /\ Forall failedProvider pre
    /\ (length pre <= tries)%nat
    /\ (isFallback last = true ->
        requested last = FALLBACK_BG h /\ (sc = ScriptA -> length pre = tries))
    /\ (isFallback last = false -> loaded last = true /\ (length pre < tries)%nat)
    /\ (result (retry sc h wd tries n idx done) = None <-> loaded last = false)
    /\ (forall r, result (retry sc h wd tries n idx done) = Some r ->
        url r = requested last).
Proof.
  induction tries as [|tries IH]; intros n idx done.
  - cbn [retry]. destruct (network wd n (FALLBACK_BG h)) as [im|] eqn:E.
    + exists [], (mkAttempt Fallback (FALLBACK_BG h) true). cbn.
      repeat split; try done. intros r [= <-]. done.
    + exists [], (mkAttempt Fallback (FALLBACK_BG h) false). cbn.
      repeat split; done.
  - cbn [retry]. destruct (nextUrl sc wd n idx) as [[idx' u]|] eqn:En.
    + destruct (network wd n u) as [im|] eqn:E.
      * exists [], (mkAttempt (Provider idx') u true). cbn.
        repeat split; try done; try lia. intros r [= <-]. done.
      * destruct (IH (S n) idx' (done ++ [mkAttempt (Provider idx') u false]))
          as (pre & last & Ha & Hp & Hl & Hf & Hs & Hr & Hu).
        exists (mkAttempt (Provider idx') u false :: pre), last.
        rewrite Ha, <- app_assoc. cbn [app length].
        split; [done|]. split; [constructor; [done|exact Hp]|].
        split; [lia|]. split.
        { intros Hfb. destruct (Hf Hfb) as [? Hlen]. split; [done|].
          intros Hsc. rewrite (Hlen Hsc). done. }
        split; [intros Hfb; destruct (Hs Hfb); split; [done|lia]|].
        split; [exact Hr|exact Hu].
    + destruct (IH n idx done) as (pre & last & Ha & Hp & Hl & Hf & Hs & Hr & Hu).
      exists pre, last. split; [exact Ha|]. split; [exact Hp|]. split; [lia|].
      split.
      { intros Hfb. destruct (Hf Hfb) as [? _]. split; [done|].
        intros ->. destruct (nextUrl_A_defined wd n idx) as [? Hx]. congruence. }
      split; [intros Hfb; destruct (Hs Hfb); split; [done|lia]|].
      split; [exact Hr|exact Hu].
Qed.





Lemma fallback_url_remote h :
  isRemoteUrl (FALLBACK_BG h) = true
  /\ String.prefix "https://picsum.photos/" (FALLBACK_BG h) = true.
Proof. split; reflexivity. Qed.

Lemma prefix_app (p s : string) : String.prefix p (p +:+ s) = true.
Proof.
  induction p as [|a p IH]; [by destruct s|].
  change (String a p +:+ s) with (String a (p +:+ s)).
  cbn [String.prefix]. destruct (Ascii.ascii_dec a a); [exact IH|done].
Qed.

(** C8 (as the code has it).  Whenever a run of [loadNextWithRetry] gets to
    its last-resort attempt, and so whenever every provider attempt has
    failed, the URL requested is [FALLBACK_BG]: an absolute https URL on the
    host [picsum.photos], the host of the first entry of [BG_PROVIDERS], not
    a path of an asset shipped with the site. *)
Theorem fallback_attempt_is_remote sc h wd maxTries idx :
  let o := loadNextWithRetry sc h wd maxTries idx in
  Forall (fun a => isFallback a = true ->
            requested a = "https://picsum.photos/1280/1264?random=" +:+ pretty (loadTime h)
            /\ isRemoteUrl (requested a) = true
            /\ String.prefix "https://picsum.photos/" (requested a) = true)
         (attempts o)
  /\ (result o = None -> exists a, last (attempts o) = Some a /\ isFallback a = true)
  /\ (forall n w h', exists build,
        BG_PROVIDERS !! 0%nat = Some build
        /\ String.prefix "https://picsum.photos/" (build wd n w h') = true).
Proof.
  intros o. unfold o, loadNextWithRetry.
  destruct (retry_shape sc h wd (Z.to_nat (budget maxTries)) 0 idx [])
    as (pre & last & Ha & Hp & Hl & Hf & Hs & Hr & _).
  cbn [app] in Ha. rewrite Ha. split; [|split].
  - apply Forall_app. split.
    + eapply Forall_impl; [exact Hp|]. intros a [E _] E'. congruence.
    + constructor; [|constructor]. intros E. destruct (Hf E) as [-> _].
      split; [reflexivity|]. apply fallback_url_remote.
  - intros Hn. exists last. split; [by rewrite last_snoc|].
    destruct (isFallback last) eqn:E; [done|].
    destruct (Hs eq_refl). apply Hr in Hn. congruence.
  - intros n w h'. eexists. split; [reflexivity|]. cbv beta. apply prefix_app.
Qed.

(** ** ToneAnalyzer *)

Lemma toneTerm_pixel h p :
  toneTerm h (Some (red p)) (Some (green p)) (Some (blue p))
  = relative_luminance h p.
Proof. reflexivity. Qed.

(** The strided loop over the byte array adds up, pixel by pixel and in
    order, the luminances of the grid. *)
Lemma toneLoop_flatten h ps : forall sum,
  toneLoop h (flatten ps) sum
  = fold_left PrimFloat.add (map (relative_luminance h) ps) sum.
Proof.
  induction ps as [|p ps IH]; intros sum; [reflexivity|].
  change (flatten (p :: ps))
    with (red p :: green p :: blue p :: alpha p :: flatten ps).
  cbn [toneLoop head tail map fold_left].
  rewrite toneTerm_pixel. apply IH.
Qed.

(** C6.  [analyzeTone] is a function of the bytes the sampling canvas
    returns: two images with the same samples get the same answer.  On a
    full grid of pixels the answer is the one the specification describes:
    each channel divided by 255 and linearised with the sRGB transform, the
    BT.709 weighted sum per pixel, the mean over the grid, and ['light']
    exactly when the mean is greater than 0.6, ['dark'] otherwise. *)
Theorem analyzeTone_classifies sc h im ps :
  sample im (gridSize sc h) = ImageData (flatten ps) ->
  Z.of_nat (length ps) = gridSize sc h * gridSize sc h ->
  analyzeTone sc h im = Some (spec_classify h ps)
  /\ (spec_classify h ps = "light" <-> (0.6 <? spec_average h ps)%float = true)
  /\ (spec_classify h ps = "dark" <-> (0.6 <? spec_average h ps)%float = false)
  /\ (forall im', sample im' (gridSize sc h) = sample im (gridSize sc h) ->
      analyzeTone sc h im' = analyzeTone sc h im).
Proof.
  intros Hs Hn. split; [|split; [|split]].
  - unfold analyzeTone. rewrite Hs, toneLoop_flatten.
    unfold spec_classify, spec_average. by rewrite Hn.
  - unfold spec_classify. by destruct (PrimFloat.ltb _ _).
  - unfold spec_classify. by destruct (PrimFloat.ltb _ _).
  - intros im' E. unfold analyzeTone. by rewrite E.
Qed.

(** A black 32x32 grid is classified dark, on any device of revision A. *)
Lemma analyzeTone_classifies_witness :
  let h := mkHost (fun x _ => x) (mkDevice false false) 0 in
  let ps := repeat (mkPixel 0 0 0 255) 1024 in
  let im := mkImg (fun _ => ImageData (flatten ps)) in
  analyzeTone ScriptA h im = Some (spec_classify h ps)
  /\ spec_classify h ps = "dark".
Proof.
  intros h ps im. split.
  - exact (proj1 (analyzeTone_classifies ScriptA h im ps eq_refl eq_refl)).
  - vm_compute. reflexivity.
Defined.

(** ** TransitionCoordinator: field lemmas *)

Lemma ensureBgBuffers_switching s : switching (ensureBgBuffers s) = switching s.
Proof. unfold ensureBgBuffers. by destruct (bgLayer s), (bgPrimary s). Qed.

Lemma ensureBgBuffers_log s : log (ensureBgBuffers s) = log s.
Proof. unfold ensureBgBuffers. by destruct (bgLayer s), (bgPrimary s). Qed.

Lemma ensureBgBuffers_idem s : ensureBgBuffers (ensureBgBuffers s) = ensureBgBuffers s.
Proof.
  unfold ensureBgBuffers.
  destruct (bgLayer s) eqn:E1, (bgPrimary s) eqn:E2; cbn; by rewrite ?E1, ?E2.
Qed.

Lemma ensureBgBuffers_set_queued b s :
  ensureBgBuffers (set_queued b s) = set_queued b (ensureBgBuffers s).
Proof. unfold ensureBgBuffers. cbn. by destruct (bgLayer s), (bgPrimary s). Qed.

(** While [switching] is set, [updateBg] only sets [queued]. *)
Lemma updateBg_while_switching sc h s :
  switching s = true ->
  updateBg sc h s
  = set_queued true (match sc with ScriptA => ensureBgBuffers s | ScriptB => s end).
Proof.
  intros Hs. unfold updateBg. destruct sc.
  - by rewrite ensureBgBuffers_switching, Hs.
  - by rewrite Hs.
Qed.

Lemma updateBg_twice sc h s :
  switching s = true -> updateBg sc h (updateBg sc h s) = updateBg sc h s.
Proof.
  intros Hs. rewrite (updateBg_while_switching sc h s Hs).
  rewrite updateBg_while_switching.
  - destruct sc; [|done]. by rewrite ensureBgBuffers_set_queued, ensureBgBuffers_idem.
  - destruct sc; cbn; [by rewrite ensureBgBuffers_switching|done].
Qed.

Lemma updateBg_iter sc h s n :
  switching s = true -> Nat.iter (S n) (updateBg sc h) s = updateBg sc h s.
Proof.
  intros Hs. induction n as [|n IH]; [done|].
  change (Nat.iter (S (S n)) (updateBg sc h) s)
    with (updateBg sc h (Nat.iter (S n) (updateBg sc h) s)).
  rewrite IH. by apply updateBg_twice.
Qed.

#[local] Arguments swaps : simpl never.
#[local] Arguments inFlight : simpl never.

Lemma swaps_snoc l o :
  swaps (l ++ [o]) = (swaps l + (if decide (o = Switched) then 1 else 0))%nat.
Proof.
  unfold swaps. rewrite filter_app, length_app. f_equal.
  case_decide; [by rewrite filter_cons_True|by rewrite filter_cons_False].
Qed.

Lemma crossfadeTo_switching sc h res s :
  switching (crossfadeTo sc h res s) = switching s.
Proof. unfold crossfadeTo. by destruct (bgPrimary s), (bgBuffer s), sc. Qed.

Lemma crossfadeTo_queued sc h res s :
  queued (crossfadeTo sc h res s) = queued s.
Proof. unfold crossfadeTo. by destruct (bgPrimary s), (bgBuffer s), sc. Qed.

Lemma crossfadeTo_log sc h res s :
  log (crossfadeTo sc h res s)
  = match bgPrimary s, bgBuffer s with
    | Some _, Some _ => log s ++ [FadeStarted (nextCid s)]
    | _, _ => log s
    end.
Proof. unfold crossfadeTo. by destruct (bgPrimary s), (bgBuffer s), sc. Qed.

Lemma crossfadeTo_swaps sc h res s :
  swaps (log (crossfadeTo sc h res s)) = swaps (log s).
Proof.
  rewrite crossfadeTo_log. destruct (bgPrimary s), (bgBuffer s); try done.
  rewrite swaps_snoc. case_decide; [done|lia].
Qed.

(** From idle, [updateBg] takes the switch exactly once. *)
Lemma updateBg_idle sc h s :
  switching s = false ->
  switching (updateBg sc h s) = true
  /\ queued (updateBg sc h s) = queued s
  /\ swaps (log (updateBg sc h s)) = S (swaps (log s)).
Proof.
  intros Hs. unfold updateBg.
  assert (switching (match sc with ScriptA => ensureBgBuffers s | ScriptB => s end) = false)
    as Hs' by (destruct sc; [by rewrite ensureBgBuffers_switching|done]).
  assert (log (match sc with ScriptA => ensureBgBuffers s | ScriptB => s end) = log s)
    as Hl by (destruct sc; [by rewrite ensureBgBuffers_log|done]).
  assert (queued (match sc with ScriptA => ensureBgBuffers s | ScriptB => s end) = queued s)
    as Hq by (destruct sc; [unfold ensureBgBuffers; by destruct (bgLayer s), (bgPrimary s)|done]).
  set (s1 := match sc with ScriptA => ensureBgBuffers s | ScriptB => s end) in *.
  rewrite Hs'. cbn. destruct (preloaded s1).
  - rewrite crossfadeTo_switching, crossfadeTo_queued, crossfadeTo_swaps. cbn.
    rewrite swaps_snoc, Hl. case_decide; [|done]. split; [done|]. split; [done|lia].
  - cbn. rewrite swaps_snoc, Hl. case_decide; [|done]. split; [done|]. split; [done|lia].
Qed.

(** Requests that follow one another while [switching] is set, with no
    other event between them, leave the state one request leaves: [queued]
    set, nothing logged, no swap begun.  A completion handler that runs next
    clears [queued] and calls [updateBg] once.  (The event loop may deliver
    other events between the requests; see the serialisation section
    below.) *)
Theorem requests_coalesce sc h s c (N : nat) :
  (0 < N)%nat ->
  switching s = true ->
  let s1 := Nat.iter N (updateBg sc h) s in
  let s2 := onDone sc h c s1 in
  s1 = updateBg sc h s
  /\ queued s1 = true
  /\ log s1 = log s
  /\ swaps (log s2) = S (swaps (log s))
  /\ queued s2 = false
  /\ switching s2 = true.
Proof.
  intros HN Hs s1 s2.
  assert (s1 = updateBg sc h s) as E1.
  { unfold s1. destruct N as [|n]; [lia|]. by apply updateBg_iter. }
  assert (queued s1 = true /\ log s1 = log s) as [Hq Hl].
  { rewrite E1, (updateBg_while_switching sc h s Hs). cbn.
    destruct sc; [by rewrite ensureBgBuffers_log|done]. }
  split; [done|]. split; [done|]. split; [done|].
  unfold s2, onDone. cbn. rewrite Hq.
  set (s3 := set_queued false _).
  assert (switching s3 = false) as H3 by done.
  assert (queued s3 = false) as Q3 by done.
  assert (swaps (log s3) = swaps (log s)) as L3.
  { unfold s3. cbn. rewrite swaps_snoc, Hl. case_decide; [done|lia]. }
  destruct (updateBg_idle sc h s3 H3) as (U1 & U2 & U3).
  unfold startProactivePreload. cbn.
  split; [|split].
  - rewrite <- L3, <- U3. by destruct (updateBg sc h s3).
  - rewrite <- Q3, <- U2. done.
  - done.
Qed.

(** Three requests during the first swap of a page of revision A. *)
Lemma requests_coalesce_witness :
  let s := initBg ScriptA sampleHost (Some 12) (boot (Some BgLayer) blankPage) in
  let c := mkClosure 0 BgLayer BgLayer2 in
  (0 < 3)%nat /\ switching s = true
  /\ swaps (log (onDone ScriptA sampleHost c (Nat.iter 3 (updateBg ScriptA sampleHost) s)))
     = S (swaps (log s)).
Proof.
  intros s c. split; [lia|]. split; [reflexivity|].
  exact (proj1 (proj2 (proj2 (proj2
    (requests_coalesce ScriptA sampleHost s c 3 ltac:(lia) eq_refl))))).
Defined.

(** ** TransitionCoordinator: serialisation *)

(** C1 (as the code has it).  Revision A, from page load: the first image
    loads and its crossfade (closure 0) begins; a second request is queued;
    [transitionend] completes the crossfade and the queued request takes the
    switch and waits for its image; then the safety-net timer of closure 0
    fires, finds [switching] set by the new swap, runs [onDone] of closure 0
    a second time and clears [switching].  The image of the second swap
    arrives and crossfade 1 begins with [switching] clear, so the next
    request is not queued: it begins crossfade 2 while crossfade 1 has not
    completed. *)
Theorem stale_timer_overlap :
  let s0 := initBg ScriptA sampleHost (Some 12) (boot (Some BgLayer) blankPage) in
  let r1 := mkLoadResult whiteImage "https://picsum.photos/1920/1080?random=1" in
  let r2 := mkLoadResult whiteImage "https://picsum.photos/1920/1080?random=2" in
  let r3 := mkLoadResult whiteImage "https://picsum.photos/1920/1080?random=3" in
  let upToTimer :=
    [SwapSettled (Some r1); RequestSwap; TransitionEnd BgLayer2; Timeout 0] in
  let upToFade := upToTimer ++ [SwapSettled (Some r2)] in
  let all := upToFade ++ [PreloadSettled (Some r3); RequestSwap] in
  (switching <$> run ScriptA sampleHost s0 upToTimer) = Some false
  /\ (awaitingSwap <$> run ScriptA sampleHost s0 upToTimer) = Some 1%nat
  /\ (switching <$> run ScriptA sampleHost s0 upToFade) = Some false
  /\ (inFlight <$> (log <$> run ScriptA sampleHost s0 upToFade)) = Some [1%nat]
  /\ (inFlight <$> (log <$> run ScriptA sampleHost s0 all)) = Some [1%nat; 2%nat]
  /\ (log <$> run ScriptA sampleHost s0 all)
     = Some [Switched; FadeStarted 0; FadeDone 0; Switched; FadeDone 0;
             FadeStarted 1; Switched; FadeStarted 2].
Proof. vm_compute. repeat split; reflexivity. Qed.

(** C3 (as the code has it).  Revision A, from page load: the first image
    loads and crossfade 0 begins, a preload resolves, a request is queued,
    and [transitionend] completes crossfade 0; the queued request begins
    crossfade 1 with the preloaded image.  The safety-net timer of
    crossfade 0 is still pending.  Crossfade 1 is now in flight and
    [switching] is set.  Three requests arrive before crossfade 1
    completes, and [switching] is set at each of them.  After the first one
    the left-over timer fires: it finds [switching] set, runs [onDone] of
    crossfade 0 again and serves the queued request, while crossfade 1 is
    still in flight.  The second and third request set [queued] again, and
    the completion of crossfade 1 serves it: the three requests give two
    further swaps, not one, and both go on to show an image. *)
Theorem stale_timer_serves_queued_request :
  let s0 := initBg ScriptA sampleHost (Some 12) (boot (Some BgLayer) blankPage) in
  let r1 := mkLoadResult whiteImage "https://picsum.photos/1920/1080?random=1" in
  let r2 := mkLoadResult whiteImage "https://picsum.photos/1920/1080?random=2" in
  let r3 := mkLoadResult whiteImage "https://picsum.photos/1920/1080?random=3" in
  let r4 := mkLoadResult whiteImage "https://picsum.photos/1920/1080?random=4" in
  let view := fun s => (switching s, queued s, inFlight (log s), swaps (log s)) in
  let before :=
    [SwapSettled (Some r1); PreloadSettled (Some r2); RequestSwap;
     TransitionEnd BgLayer2] in
  let first := before ++ [RequestSwap] in
  let timer := first ++ [Timeout 0] in
  let second := timer ++ [RequestSwap] in
  let third := second ++ [RequestSwap] in
  let completed := third ++ [TransitionEnd BgLayer] in
  let shown := completed ++ [SwapSettled (Some r3); SwapSettled (Some r4)] in
  (view <$> run ScriptA sampleHost s0 before) = Some (true, false, [1%nat], 2%nat)
  /\ (view <$> run ScriptA sampleHost s0 first) = Some (true, true, [1%nat], 2%nat)
  /\ (view <$> run ScriptA sampleHost s0 timer) = Some (true, false, [1%nat], 3%nat)
  /\ (view <$> run ScriptA sampleHost s0 second) = Some (true, true, [1%nat], 3%nat)
  /\ (view <$> run ScriptA sampleHost s0 third) = Some (true, true, [1%nat], 3%nat)
  /\ (view <$> run ScriptA sampleHost s0 completed) = Some (true, false, [], 4%nat)
  /\ (fadesBegun <$> (log <$> run ScriptA sampleHost s0 before)) = Some 2%nat
  /\ (fadesBegun <$> (log <$> run ScriptA sampleHost s0 shown)) = Some 4%nat
  /\ (log <$> run ScriptA sampleHost s0 completed)
     = Some [Switched; FadeStarted 0; FadeDone 0; Switched; FadeStarted 1;
             FadeDone 0; Switched; FadeDone 1; Switched].
Proof. vm_compute. repeat split; reflexivity. Qed.

(** ** TransitionCoordinator: completion *)

Lemma stuck_step h s e s' :
  stuck s -> step ScriptB h s e = Some s' -> stuck s'.
Proof.
  intros (Hs & Hp & Hb & Ha & Hd & Hl & Ht & Hg) Hstep.
  destruct e as [|r|r|c|l|c]; unfold step in Hstep.
  - destruct (bgLayer s); [|done]. injection Hstep as <-.
    rewrite (updateBg_while_switching ScriptB h s Hs). by repeat split.
  - by rewrite Ha in Hstep.
  - destruct (awaitingPreload s); [done|]. injection Hstep as <-.
    destruct r; by repeat split.
  - by rewrite Hd in Hstep.
  - injection Hstep as <-. unfold dispatch. rewrite Hl. by repeat split.
  - by rewrite Ht in Hstep.
Qed.

Lemma stuck_run h es : forall s s',
  stuck s -> run ScriptB h s es = Some s' -> stuck s'.
Proof.
  induction es as [|e es IH]; intros s s' Hs Hr; cbn in Hr.
  - by injection Hr as <-.
  - destruct (step ScriptB h s e) as [s1|] eqn:E; [|done].
    eapply IH; [|exact Hr]. by eapply stuck_step.
Qed.

(** The state [initBg] leaves in revision B. *)
Lemma initBg_B_state h blur p :
  initBg ScriptB h blur (boot (Some BgLayer) p)
  = mkState (Some BgLayer) None None true false None
      (match blur with
       | Some v => applyBgBlur ScriptB (device h) v (applyTone ScriptB (Some "dark") p)
       | None => applyTone ScriptB (Some "dark") p
       end)
      1 1 [] [] [] 0 [Switched].
Proof. by destruct blur. Qed.

(** C2 (as the code has it).  Revision B never creates the two buffers
    (the calls of [ensureBgBuffers] are commented out and nothing else
    assigns [bgPrimary] before a crossfade completes).  So when the image of
    the first swap has loaded, [crossfadeTo] returns at its guard: no
    listener and no safety-net timer is installed, and whatever happens
    afterwards [switching] stays set; every later request is only queued. *)
Theorem revisionB_stays_switching h p blur r es s :
  run ScriptB h (initBg ScriptB h blur (boot (Some BgLayer) p))
      (SwapSettled (Some r) :: es) = Some s ->
  switching s = true
  /\ bgPrimary s = None
  /\ timers s = [] /\ listeners s = []
  /\ log s = [Switched].
Proof.
  rewrite initBg_B_state. intros Hr. cbn [run] in Hr.
  destruct (step ScriptB h _ (SwapSettled (Some r))) as [s1|] eqn:E; [|done].
  assert (stuck s1) as H1.
  { unfold step in E. cbn [awaitingSwap] in E. injection E as <-.
    unfold swapLoaded, crossfadeTo. by repeat split. }
  destruct (stuck_run h es s1 s H1 Hr) as (? & ? & ? & ? & ? & ? & ? & ?).
  by repeat split.
Qed.

(** The fallback image loads, then two clicks and a stray [transitionend]. *)
Lemma revisionB_stays_switching_witness :
  let s0 := initBg ScriptB sampleHost (Some 12) (boot (Some BgLayer) blankPage) in
  let r := mkLoadResult whiteImage (FALLBACK_BG sampleHost) in
  let es := [RequestSwap; TransitionEnd BgLayer; RequestSwap] in
  exists s, run ScriptB sampleHost s0 (SwapSettled (Some r) :: es) = Some s
            /\ switching s = true.
Proof.
  intros s0 r es.
  destruct (run ScriptB sampleHost s0 (SwapSettled (Some r) :: es)) as [s|] eqn:E.
  - exists s. split; [reflexivity|].
    exact (proj1 (revisionB_stays_switching sampleHost blankPage (Some 12) r es s E)).
  - vm_compute in E. discriminate E.
Defined.

(** ** TransitionCoordinator: total failure of a swap *)

Lemma inFlight_snoc l o :
  inFlight (l ++ [o])
  = match o with
    | FadeStarted c => inFlight l ++ [c]
    | FadeDone c => filter (fun x => x ≠ c) (inFlight l)
    | _ => inFlight l
    end.
Proof. unfold inFlight. rewrite foldl_app. by destruct o. Qed.

Lemma setFade_layerDom l b p :
  layerDom l (setFade l b p) = mkLayerDom (backgroundImage (layerDom l p)) b.
Proof. by destruct l. Qed.

Lemma setBackgroundImage_layerDom l v p :
  layerDom l (setBackgroundImage l v p) = mkLayerDom v (fade (layerDom l p)).
Proof. by destruct l. Qed.

(** What the [catch] block of [updateBg] does. *)
Lemma swapFailed_effect h s :
  let s' := swapFailed h s in
  switching s' = false
  /\ log s' = log s ++ match bgPrimary s with Some _ => [FallbackShown] | None => [] end
  /\ timers s' = timers s /\ listeners s' = listeners s /\ delayed s' = delayed s
  /\ nextCid s' = nextCid s /\ preloaded s' = preloaded s
  /\ awaitingPreload s'
     = match preloaded s with
       | Some _ => awaitingPreload s
       | None => S (awaitingPreload s)
       end
  /\ (forall p, bgPrimary s = Some p ->
      layerDom p (page s') = mkLayerDom (cssUrl (FALLBACK_BG h)) false).
Proof.
  unfold swapFailed, startProactivePreload.
  change (bgPrimary (set_switching false s)) with (bgPrimary s).
  destruct (bgPrimary s) as [p|] eqn:Ep; cbn [preloaded record onPage set_log
    set_page set_switching];
    destruct (preloaded s) as [r|] eqn:Er; cbn; rewrite ?app_nil_r;
    repeat split; try done; intros q [= <-]; by destruct p.
Qed.

(** C5 (amended).  Let every provider attempt and the fallback attempt of
    the load that [updateBg] awaits fail.  Then the rejection is handled:
    the step is defined, [switching] is cleared, no crossfade begins (no
    closure is made, nothing is armed, the crossfades in flight are the same),
    the visible layer, when there is one, shows [FALLBACK_BG] with its
    [fade] class removed, and the next request takes the switch again.  A
    preload is started when the preload slot is empty; when a preload that
    was already under way has filled the slot in the meantime, the slot is
    kept and no further preload is started. *)
Theorem exhausted_swap_degrades sc h wd idx s :
  result (loadNextWithRetry sc h wd None idx) = None ->
  awaitingSwap s ≠ 0%nat ->
  exists s',
    step sc h s (SwapSettled (result (loadNextWithRetry sc h wd None idx))) = Some s'
    /\ switching s' = false
    /\ inFlight (log s') = inFlight (log s)
    /\ nextCid s' = nextCid s
    /\ timers s' = timers s /\ listeners s' = listeners s /\ delayed s' = delayed s
    /\ (forall p, bgPrimary s = Some p ->
        layerDom p (page s') = mkLayerDom (cssUrl (FALLBACK_BG h)) false)
    /\ (preloaded s = None -> awaitingPreload s' = S (awaitingPreload s))
    /\ (is_Some (preloaded s) ->
        awaitingPreload s' = awaitingPreload s /\ preloaded s' = preloaded s)
    /\ swaps (log (updateBg sc h s')) = S (swaps (log s')).
Proof.
  intros Hfail Hw. rewrite Hfail. unfold step.
  destruct (awaitingSwap s) as [|n] eqn:En; [done|].
  set (s1 := set_awaitingSwap n s).
  destruct (swapFailed_effect h s1)
    as (H1 & H2 & H3 & H4 & H5 & H6 & H7 & H8 & H9).
  exists (swapFailed h s1). split; [done|]. split; [done|].
  split.
  { rewrite H2. change (bgPrimary s1) with (bgPrimary s).
    change (log s1) with (log s).
    destruct (bgPrimary s); [by rewrite inFlight_snoc|by rewrite app_nil_r]. }
  split; [done|]. split; [done|]. split; [done|]. split; [done|].
  split; [exact H9|].
  split; [intros E; rewrite H8; change (preloaded s1) with (preloaded s); by rewrite E|].
  split.
  { intros [r E]. rewrite H8, H7. change (preloaded s1) with (preloaded s).
    by rewrite E. }
  by destruct (updateBg_idle sc h _ H1) as (_ & _ & ?).
Qed.

(** A load with every attempt failing, settling the first swap of a page. *)
Lemma exhausted_swap_degrades_witness :
  let wd := mkWorld 1920 1080 (fun _ => 1700000000123) (fun _ => 4242)
              (fun _ _ => None) in
  let s := initBg ScriptA sampleHost (Some 12) (boot (Some BgLayer) blankPage) in
  result (loadNextWithRetry ScriptA sampleHost wd None 0) = None
  /\ awaitingSwap s ≠ 0%nat
  /\ exists s',
       step ScriptA sampleHost s
         (SwapSettled (result (loadNextWithRetry ScriptA sampleHost wd None 0)))
         = Some s'
       /\ switching s' = false.
Proof.
  intros wd s.
  assert (result (loadNextWithRetry ScriptA sampleHost wd None 0) = None)
    as H1 by (vm_compute; reflexivity).
  assert (awaitingSwap s ≠ 0%nat) as H2 by (vm_compute; discriminate).
  split; [exact H1|]. split; [exact H2|].
  destruct (exhausted_swap_degrades ScriptA sampleHost wd 0%nat s H1 H2)
    as (s' & E & Hs & _).
  exists s'. split; [exact E|exact Hs].
Defined.

(** C5 as first stated, refuted: on a page of revision A the preload started
    by [initBg] finishes while the first swap is still loading; then that
    load fails altogether.  The [catch] block finds the slot filled and
    starts no preload: none is pending afterwards. *)
Lemma refill_skipped_when_slot_filled :
  let s0 := initBg ScriptA sampleHost (Some 12) (boot (Some BgLayer) blankPage) in
  let r := mkLoadResult whiteImage "https://picsum.photos/1920/1080?random=1" in
  (awaitingPreload <$> run ScriptA sampleHost s0 [PreloadSettled (Some r)])
    = Some 0%nat
  /\ (awaitingPreload <$>
        run ScriptA sampleHost s0 [PreloadSettled (Some r); SwapSettled None])
    = Some 0%nat
  /\ (switching <$>
        run ScriptA sampleHost s0 [PreloadSettled (Some r); SwapSettled None])
    = Some false.
Proof. vm_compute. repeat split; reflexivity. Qed.

(** ** TransitionCoordinator: the crossfade itself *)

Lemma crossfadeTo_page sc h res s p b :
  bgPrimary s = Some p -> bgBuffer s = Some b ->
  page (crossfadeTo sc h res s)
  = let pg := applyTone sc (orDark (analyzeTone sc h (img res)))
                (setBackgroundImage b (cssUrl (url res)) (page s)) in
    match sc with
    | ScriptA => setFade b false (setFade p true pg)
    | ScriptB => setFade b false pg
    end.
Proof. intros Hp Hb. unfold crossfadeTo. rewrite Hp, Hb. by destruct sc. Qed.

Lemma crossfadeTo_armed sc h res s p b :
  bgPrimary s = Some p -> bgBuffer s = Some b ->
  let c := mkClosure (nextCid s) p b in
  log (crossfadeTo sc h res s) = log s ++ [FadeStarted (nextCid s)]
  /\ nextCid (crossfadeTo sc h res s) = S (nextCid s)
  /\ match sc with
     | ScriptA =>
         timers (crossfadeTo sc h res s) = timers s ++ [c]
         /\ listeners (crossfadeTo sc h res s) = listeners s ++ [(b, c)]
         /\ delayed (crossfadeTo sc h res s) = delayed s
     | ScriptB =>
         timers (crossfadeTo sc h res s) = timers s
         /\ listeners (crossfadeTo sc h res s) = listeners s
         /\ delayed (crossfadeTo sc h res s) = delayed s ++ [c]
     end.
Proof. intros Hp Hb. unfold crossfadeTo. rewrite Hp, Hb. by destruct sc. Qed.

Lemma setFade_other (f : Page -> gmap string string) l b p :
  (forall d q, f (setLayerDom l d q) = f q) -> f (setFade l b p) = f p.
Proof. intros H. unfold setFade. apply H. Qed.

Lemma bodyAttr_setLayerDom l d p : bodyAttr (setLayerDom l d p) = bodyAttr p.
Proof. by destruct l. Qed.

Lemma rootStyle_setLayerDom l d p : rootStyle (setLayerDom l d p) = rootStyle p.
Proof. by destruct l. Qed.

Lemma localStorage_setLayerDom l d p :
  localStorage (setLayerDom l d p) = localStorage p.
Proof. by destruct l. Qed.

Lemma rootClass_setLayerDom l d p : rootClass (setLayerDom l d p) = rootClass p.
Proof. by destruct l. Qed.

Lemma layerDom_applyTone sc tone l p :
  layerDom l (applyTone sc tone p) = layerDom l p.
Proof.
  destruct sc; cbn [applyTone].
  - unfold applyTone_A. destruct tone; [|done]. repeat case_decide; by destruct l.
  - by destruct l.
Qed.

(** C7 (amended).  When the analysis of the arriving image fails
    ([analyzeTone] returns [null]) the crossfade applies the tone ['dark'],
    whatever tone was applied before: in revision A the attribute
    [data-img-tone] and the two overlay variables take their dark values, in
    revision B the stored theme and the class of the document element
    become [dark].  The swap goes ahead as with any image: the image is put
    on the buffer, the buffer is shown, the crossfade is logged and its
    completion is armed. *)
Theorem failed_analysis_applies_dark sc h res s p b :
  analyzeTone sc h (img res) = None ->
  bgPrimary s = Some p ->
  bgBuffer s = Some b ->
  let s' := crossfadeTo sc h res s in
  let c := mkClosure (nextCid s) p b in
  match sc with
  | ScriptA =>
      bodyAttr (page s') !! "data-img-tone" = Some "dark"
      /\ rootStyle (page s') !! "--bg-overlay" = Some "0.50"
      /\ rootStyle (page s') !! "--bg-overlay-light" = Some "0.22"
  | ScriptB =>
      localStorage (page s') !! "dove-theme" = Some "dark"
      /\ "dark" ∈ rootClass (page s')
      /\ "light" ∉ rootClass (page s')
  end
  /\ layerDom b (page s') = mkLayerDom (cssUrl (url res)) false
  /\ log s' = log s ++ [FadeStarted (nextCid s)]
  /\ match sc with
     | ScriptA => timers s' = timers s ++ [c] /\ listeners s' = listeners s ++ [(b, c)]
     | ScriptB => delayed s' = delayed s ++ [c]
     end.
Proof.
  intros Hn Hp Hb s' c.
  pose proof (crossfadeTo_page sc h res s p b Hp Hb) as Hpage.
  destruct (crossfadeTo_armed sc h res s p b Hp Hb) as (Hl & _ & Harm).
  fold s' in Hpage, Hl, Harm. rewrite Hn in Hpage. cbn [orDark] in Hpage.
  split; [|split; [|split; [exact Hl|]]].
  - destruct sc; rewrite Hpage; cbv zeta; cbn [applyTone].
    + unfold setFade. rewrite !bodyAttr_setLayerDom, !rootStyle_setLayerDom.
      rewrite applyTone_A_dark. cbn [bodyAttr rootStyle setProperty setAttribute].
      split; [by rewrite lookup_insert_eq|].
      split; [rewrite lookup_insert_ne by done; by rewrite lookup_insert_eq|].
      by rewrite lookup_insert_eq.
    + unfold setFade. rewrite !localStorage_setLayerDom, !rootClass_setLayerDom.
      split; [apply applyTone_B_theme|]. unfold applyTone_B.
      cbn [rootClass setItem setRootClass String_]. split.
      * apply elem_of_union. right. by apply elem_of_singleton.
      * intros [H|H]%elem_of_union.
        -- apply elem_of_difference in H as [H _].
           apply elem_of_difference in H as [_ H]. by apply H, elem_of_singleton.
        -- by apply elem_of_singleton in H.
  - rewrite Hpage. cbv zeta. destruct sc.
    + rewrite setFade_layerDom. f_equal.
      destruct (decide (p = b)) as [->|Hne].
      * rewrite setFade_layerDom. cbn [backgroundImage].
        by rewrite layerDom_applyTone, setBackgroundImage_layerDom.
      * unfold setFade at 1. rewrite layerDom_setLayerDom_ne by done.
        by rewrite layerDom_applyTone, setBackgroundImage_layerDom.
    + rewrite setFade_layerDom. f_equal.
      by rewrite layerDom_applyTone, setBackgroundImage_layerDom.
  - destruct sc;
      [exact (conj (proj1 Harm) (proj1 (proj2 Harm)))|exact (proj2 (proj2 Harm))].
Qed.

(** The second swap of a page of revision A brings an image the canvas may
    not read. *)
Lemma failed_analysis_applies_dark_witness :
  let s := set_bgBuffer (Some BgLayer2)
             (set_bgPrimary (Some BgLayer) (boot (Some BgLayer) blankPage)) in
  let res := mkLoadResult taintedImage "https://picsum.photos/1920/1080?random=7" in
  analyzeTone ScriptA sampleHost (img res) = None
  /\ bgPrimary s = Some BgLayer
  /\ bgBuffer s = Some BgLayer2
  /\ bodyAttr (page (crossfadeTo ScriptA sampleHost res s)) !! "data-img-tone"
     = Some "dark".
Proof.
  intros s res. split; [reflexivity|]. split; [reflexivity|]. split; [reflexivity|].
  exact (proj1 (proj1
    (failed_analysis_applies_dark ScriptA sampleHost res s BgLayer BgLayer2
       eq_refl eq_refl eq_refl))).
Defined.

(** C7 as first stated, refuted: in revision A a white image is shown and
    classified light; the next image cannot be analysed, and the tone
    outputs go to dark instead of staying light. *)
Lemma tone_reset_on_failed_analysis :
  let s0 := initBg ScriptA sampleHost (Some 12) (boot (Some BgLayer) blankPage) in
  let r1 := mkLoadResult whiteImage "https://picsum.photos/1920/1080?random=1" in
  let r2 := mkLoadResult taintedImage
              "https://source.unsplash.com/random/1920x1080?wallpapers,landscape&sig=7" in
  let shown := [SwapSettled (Some r1); TransitionEnd BgLayer2] in
  let next := shown ++ [RequestSwap; SwapSettled (Some r2)] in
  let tone (s : State) := bodyAttr (page s) !! "data-img-tone" in
  let overlay (s : State) := rootStyle (page s) !! "--bg-overlay" in
  analyzeTone ScriptA sampleHost (img r2) = None
  /\ (tone <$> run ScriptA sampleHost s0 shown) = Some (Some "light")
  /\ (overlay <$> run ScriptA sampleHost s0 shown) = Some (Some "0.28")
  /\ (tone <$> run ScriptA sampleHost s0 next) = Some (Some "dark")
  /\ (overlay <$> run ScriptA sampleHost s0 next) = Some (Some "0.50").
Proof. vm_compute. repeat split; reflexivity. Qed.

(** ** Revision A: the safety net from a clean state *)

Lemma withCid_snoc_fresh n cs c :
  Forall (fun x => cid x ≠ n) cs -> cid c = n ->
  withCid n (cs ++ [c]) = Some c
  /\ filter (fun x => cid x ≠ n) (cs ++ [c]) = cs.
Proof.
  intros Hf Hc. unfold withCid. rewrite !filter_app.
  assert (filter (fun x => cid x = n) cs = [] /\ filter (fun x => cid x ≠ n) cs = cs)
    as [-> ->].
  { induction Hf as [|x cs Hx _ [IH1 IH2]]; [done|].
    rewrite filter_cons_False by done. rewrite filter_cons_True by done.
    by rewrite IH1, IH2. }
  rewrite filter_cons_True by done. rewrite filter_cons_False by (intros H; by apply H).
  by rewrite app_nil_r.
Qed.

(** In revision A, a crossfade begun while [switching] is set and no timer
    of an earlier crossfade is left over is completed by its own safety-net
    timer even if [transitionend] never arrives: the roles of the two layers
    are exchanged, the old layer is hidden and, nothing being queued,
    [switching] is cleared. *)
Lemma safety_net_completes h res s p b :
  bgPrimary s = Some p -> bgBuffer s = Some b ->
  switching s = true -> queued s = false ->
  Forall (fun x => cid x ≠ nextCid s) (timers s) ->
  exists s2,
    step ScriptA h (crossfadeTo ScriptA h res s) (Timeout (nextCid s)) = Some s2
    /\ switching s2 = false
    /\ bgPrimary s2 = Some b /\ bgBuffer s2 = Some p
    /\ fade (layerDom p (page s2)) = true
    /\ log s2 = log s ++ [FadeStarted (nextCid s); FadeDone (nextCid s)]
    /\ timers s2 = timers s.
Proof.
  intros Hp Hb Hs Hq Hfresh.
  destruct (crossfadeTo_armed ScriptA h res s p b Hp Hb) as (Hl & _ & Ht & _ & _).
  set (c := mkClosure (nextCid s) p b) in *.
  destruct (withCid_snoc_fresh (nextCid s) (timers s) c Hfresh eq_refl) as [Hw Hf].
  unfold step. rewrite Ht, Hw, Hf. cbn [switching set_timers].
  rewrite crossfadeTo_switching, Hs.
  eexists. split; [reflexivity|].
  unfold onDone. cbn [queued record set_log set_switching set_bgBuffer set_bgPrimary
    onPage set_page set_listeners].
  change (queued (set_timers (timers s) (crossfadeTo ScriptA h res s)))
    with (queued (crossfadeTo ScriptA h res s)).
  rewrite crossfadeTo_queued, Hq.
  unfold startProactivePreload. cbn [preloaded set_preloaded].
  cbn -[crossfadeTo setFade layerDom].
  rewrite Hl, <- app_assoc. repeat split; try done. by rewrite setFade_layerDom.
Qed.

(** Revision A with a left-over timer.  After the schedule that leads to
    crossfade 1 in [stale_timer_overlap], let [transitionend] of crossfade 1
    be lost.  Its own safety-net timer then finds [switching] already
    cleared and does nothing: the handler of crossfade 1 never runs, and
    [bgPrimary] keeps naming [#bgLayer2], which is hidden, while [#bgLayer]
    shows the image.  With the image of the queued swap preloaded, the
    left-over timer hides the layer that is fading in and both layers end
    up hidden. *)
Lemma stale_timer_skips_completion :
  let s0 := initBg ScriptA sampleHost (Some 12) (boot (Some BgLayer) blankPage) in
  let r1 := mkLoadResult whiteImage "https://picsum.photos/1920/1080?random=1" in
  let r2 := mkLoadResult whiteImage "https://picsum.photos/1920/1080?random=2" in
  let lost :=
    [SwapSettled (Some r1); RequestSwap; TransitionEnd BgLayer2; Timeout 0;
     SwapSettled (Some r2); Timeout 1] in
  let hidden :=
    [SwapSettled (Some r1); RequestSwap; PreloadSettled (Some r2);
     TransitionEnd BgLayer2; Timeout 0] in
  let shows (s : State) := (fade (dom1 (page s)), fade (dom2 (page s))) in
  (log <$> run ScriptA sampleHost s0 lost)
    = Some [Switched; FadeStarted 0; FadeDone 0; Switched; FadeDone 0; FadeStarted 1]
  /\ (timers <$> run ScriptA sampleHost s0 lost) = Some []
  /\ (bgPrimary <$> run ScriptA sampleHost s0 lost) = Some (Some BgLayer2)
  /\ (shows <$> run ScriptA sampleHost s0 lost) = Some (false, true)
  /\ (shows <$> run ScriptA sampleHost s0 hidden) = Some (true, true).
Proof. vm_compute. repeat split; reflexivity. Qed.

(** ** Revision A: completion by [transitionend] *)

Lemma listeners_snoc_fresh (b : Layer) (c : Closure) (ls : list (Layer * Closure)) :
  Forall (fun lc => fst lc ≠ b) ls ->
  filter (fun lc => fst lc = b) (ls ++ [(b, c)]) = [(b, c)]
  /\ filter (fun x => x ≠ (b, c)) (ls ++ [(b, c)]) = ls.
Proof.
  intros Hf. rewrite !filter_app.
  assert (filter (fun lc => fst lc = b) ls = []
          /\ filter (fun x => x ≠ (b, c)) ls = ls) as [-> ->].
  { induction Hf as [|x ls Hx _ [IH1 IH2]]; [done|].
    rewrite filter_cons_False by done.
    rewrite filter_cons_True by (intros ->; by apply Hx).
    by rewrite IH1, IH2. }
  rewrite filter_cons_True by done.
  rewrite filter_cons_False by (intros H; by apply H).
  by rewrite app_nil_r.
Qed.

(** In revision A, [transitionend] on the layer fading in completes the
    crossfade: roles exchanged, old layer hidden, [switching] cleared when
    nothing is queued.  The safety-net timer of the crossfade stays pending. *)
Lemma transitionend_completes h res s p b :
  bgPrimary s = Some p -> bgBuffer s = Some b ->
  queued s = false ->
  Forall (fun lc => fst lc ≠ b) (listeners s) ->
  let c := mkClosure (nextCid s) p b in
  exists s2,
    step ScriptA h (crossfadeTo ScriptA h res s) (TransitionEnd b) = Some s2
    /\ switching s2 = false
    /\ bgPrimary s2 = Some b /\ bgBuffer s2 = Some p
    /\ log s2 = log s ++ [FadeStarted (nextCid s); FadeDone (nextCid s)]
    /\ listeners s2 = listeners s
    /\ timers s2 = timers s ++ [c].
Proof.
  intros Hp Hb Hq Hfresh c.
  destruct (crossfadeTo_armed ScriptA h res s p b Hp Hb) as (Hl & _ & Ht & Hli & _).
  fold c in Ht, Hli.
  destruct (listeners_snoc_fresh b c (listeners s) Hfresh) as [Hw Hf].
  unfold step, dispatch. rewrite Hli, Hw. cbn [foldl]. unfold fire.
  rewrite Hli. rewrite decide_True by (apply elem_of_app; right; by apply list_elem_of_singleton).
  rewrite Hf. eexists. split; [reflexivity|].
  unfold onDone.
  change (queued (set_listeners _ (set_listeners _ (crossfadeTo ScriptA h res s))))
    with (queued (crossfadeTo ScriptA h res s)).
  cbn [queued record set_log set_switching set_bgBuffer set_bgPrimary
    onPage set_page set_listeners].
  rewrite crossfadeTo_queued, Hq.
  unfold startProactivePreload. cbn [preloaded set_preloaded].
  cbn -[crossfadeTo setFade layerDom].
  rewrite Hl, Ht, <- app_assoc. repeat split; try done.
  clear -Hfresh. induction Hfresh as [|x ls Hx _ IH]; [done|].
  rewrite filter_cons_True by (intros ->; by apply Hx). by rewrite IH.
Qed.

(* ================================================================== *)
(** * Further properties *)
(* ================================================================== *)

#[local] Set Warnings "-clear-no-such-hyp".

(** ** Decimal strings and [parseInt] *)

Lemma digit_pretty_N_char d :
  (d < 10)%N -> digit (pretty_N_char d) = Some d.
Proof.
  intros Hd.
  assert (d = 0 \/ d = 1 \/ d = 2 \/ d = 3 \/ d = 4 \/ d = 5 \/ d = 6 \/ d = 7
          \/ d = 8 \/ d = 9)%N as H by lia.
  repeat destruct H as [->|H]; try subst d; reflexivity.
Qed.

Lemma digitsVal_pretty_N_go x : forall s,
  digitsVal 0 (pretty_N_go x s) = digitsVal x s.
Proof.
  induction (N.lt_wf_0 x) as [x _ IH]; intros s.
  assert (x = 0 \/ 0 < x)%N as [->|Hx] by lia; [by rewrite pretty_N_go_0|].
  rewrite pretty_N_go_step by done.
  rewrite IH by (apply N.div_lt; lia).
  cbn [digitsVal]. rewrite digit_pretty_N_char by (apply N.mod_lt; lia).
  f_equal. pose proof (N.div_mod x 10 ltac:(lia)). lia.
Qed.

Lemma pretty_N_go_head x : forall s,
  (0 < x)%N ->
  exists d r, (d < 10)%N /\ pretty_N_go x s = String (pretty_N_char d) r.
Proof.
  induction (N.lt_wf_0 x) as [x _ IH]; intros s Hx.
  rewrite pretty_N_go_step by done.
  destruct (N.eq_dec (N.div x 10) 0%N) as [E|E].
  - rewrite E, pretty_N_go_0. eexists _, _. split; [|done]. apply N.mod_lt. lia.
  - apply IH; [apply N.div_lt; lia|]. apply N.neq_0_lt_0. exact E.
Qed.

(** A decimal numeral: a digit first, and its digits give [x] back. *)
Lemma pretty_N_numeral (x : N) :
  exists d r, (d < 10)%N /\ pretty x = String (pretty_N_char d) r
              /\ digitsVal 0 (pretty x) = x.
Proof.
  unfold pretty, pretty_N. case_decide as Hx.
  - subst x. exists 0%N, "". by repeat split.
  - destruct (pretty_N_go_head x "" ltac:(lia)) as (d & r & Hd & E).
    exists d, r. split; [done|]. split; [done|].
    rewrite digitsVal_pretty_N_go. generalize x. by intros [|?].
Qed.

Lemma byte_pretty_N_char d : (d < 10)%N -> byte (pretty_N_char d) = (48 + d)%N.
Proof.
  intros Hd.
  assert (d = 0 \/ d = 1 \/ d = 2 \/ d = 3 \/ d = 4 \/ d = 5 \/ d = 6 \/ d = 7
          \/ d = 8 \/ d = 9)%N as H by lia.
  repeat destruct H as [->|H]; try subst d; reflexivity.
Qed.

(** A printable ASCII character other than the space is not white space. *)
Lemma whiteRest_plain a r :
  (33 <= byte a <= 126)%N -> whiteRest (String a r) = None.
Proof.
  intros Ha. unfold whiteRest.
  rewrite bool_decide_eq_false_2.
  2:{ intros H. repeat (apply elem_of_cons in H as [H|H]; [lia|]).
      by apply elem_of_nil in H. }
  destruct r as [|b r2]; [done|].
  rewrite bool_decide_eq_false_2 by lia.
  destruct r2 as [|c r3]; [done|].
  rewrite bool_decide_eq_false_2; [done|].
  intros H. repeat (apply elem_of_cons in H as [H|H]; [injection H; lia|]).
  by apply elem_of_nil in H.
Qed.

Lemma skipWhite_plain a r :
  (33 <= byte a <= 126)%N -> skipWhite (String a r) = String a r.
Proof.
  intros Ha. unfold skipWhite. cbn [String.length skipWhiteFuel].
  by rewrite whiteRest_plain.
Qed.

Lemma unsignedInt_pretty (x : N) : unsignedInt (pretty x) = Some x.
Proof.
  destruct (pretty_N_numeral x) as (d & r & Hd & E & Hv).
  unfold unsignedInt. rewrite E, digit_pretty_N_char by done. by rewrite <- E, Hv.
Qed.

Lemma parseInt10_pretty_N (x : N) : parseInt10 (pretty x) = Some (Z.of_N x).
Proof.
  destruct (pretty_N_numeral x) as (d & r & Hd & E & Hv).
  pose proof (byte_pretty_N_char d Hd) as Hb.
  unfold parseInt10. rewrite E, skipWhite_plain by lia.
  rewrite !bool_decide_eq_false_2 by lia.
  by rewrite <- E, unsignedInt_pretty.
Qed.

(** [parseInt(String(z), 10)] is [z]. *)
Lemma parseInt10_pretty (z : Z) : parseInt10 (pretty z) = Some z.
Proof.
  destruct z as [|x|x].
  - reflexivity.
  - apply (parseInt10_pretty_N (N.pos x)).
  - change (pretty (Z.neg x))
      with (String (Ascii.ascii_of_N 45) (pretty (N.pos x))).
    unfold parseInt10. rewrite skipWhite_plain by (cbn; lia).
    rewrite bool_decide_eq_true_2 by done.
    by rewrite unsignedInt_pretty.
Qed.

Lemma pretty_Z_nonempty (z : Z) : pretty z ≠ "".
Proof.
  destruct z as [|x|x]; [done| |done].
  destruct (pretty_N_numeral (N.pos x)) as (d & r & _ & E & _).
  change (pretty (Z.pos x)) with (pretty (N.pos x)). by rewrite E.
Qed.

(** ** ConfigStore across page loads *)

Lemma getItemOr_setItem k d v p :
  v ≠ "" -> getItemOr k d (setItem k v p) = v.
Proof.
  intros Hv. unfold getItemOr. rewrite localStorage_setItem, lookup_insert_eq.
  by rewrite decide_False.
Qed.

(** X1.  For a blur that is a safe integer (below 2^53 in absolute value;
    only there is the stored string the decimal numeral), what [applyBgBlur]
    stores is what [initBg] reads back on the next page load, and applying
    that value again leaves the page as it is.  Without a stored value, or
    with one that is not a number, [initBg] takes 12. *)
Theorem blur_survives_reload sc d px p :
  safeInteger px ->
  let p' := applyBgBlur sc d px p in
  savedBlur p' = Z.max 0 px
  /\ applyBgBlur sc d (savedBlur p') p' = p'
  /\ (localStorage p !! "dove-bg-blur" = None -> savedBlur p = 12)
  /\ (forall v, localStorage p !! "dove-bg-blur" = Some v ->
      parseInt10 v = None -> savedBlur p = 12).
Proof.
  intros _ p'.
  assert (savedBlur p' = Z.max 0 px) as E.
  { unfold p', savedBlur. rewrite applyBgBlur_is_plain. unfold applyBgBlur_plain.
    rewrite getItemOr_setItem by apply pretty_Z_nonempty.
    by rewrite parseInt10_pretty. }
  split; [exact E|]. split; [|split].
  - rewrite E. unfold p'. rewrite !applyBgBlur_is_plain. unfold applyBgBlur_plain.
    rewrite Z.max_r by lia. unfold setItem, setProperty. cbn. f_equal.
    + apply insert_insert_eq.
    + apply insert_insert_eq.
  - intros H. unfold savedBlur, getItemOr. by rewrite H.
  - intros v H Hv. unfold savedBlur, getItemOr. rewrite H.
    case_decide; [done|by rewrite Hv].
Qed.

(** The blur 20 on a mobile device of revision B. *)
Lemma blur_survives_reload_witness :
  safeInteger 20
  /\ savedBlur (applyBgBlur ScriptB (mkDevice true false) 20 blankPage) = Z.max 0 20.
Proof.
  assert (safeInteger 20) as H by (unfold safeInteger; lia).
  split; [exact H|].
  exact (proj1 (blur_survives_reload ScriptB (mkDevice true false) 20 blankPage H)).
Defined.

(** ** RotationScheduler: [applyBgInterval] *)

Lemma applyBgInterval_timer secs t p :
  oneTimer t ->
  let r := applyBgInterval secs (t, p) in
  oneTimer (fst r)
  /\ (0 < secs -> exists id, bgTimer (fst r) = Some id
                             /\ intervals (fst r) = [(id, secs * 1000)])
  /\ (secs <= 0 -> bgTimer (fst r) = None /\ intervals (fst r) = []).
Proof.
  intros Ht. unfold applyBgInterval. cbn [fst snd].
  set (t1 := match bgTimer t with Some _ => _ | None => t end).
  assert (bgTimer t1 = None /\ intervals t1 = []) as [Hb Hi].
  { unfold t1. unfold oneTimer in Ht. destruct (bgTimer t) as [id|] eqn:Eb.
    - destruct Ht as [ms ->]. cbn [bgTimer intervals]. split; [done|].
      by rewrite filter_cons_False by (intros H; by apply H).
    - by split. }
  case_bool_decide as Hs; cbn [fst].
  - split; [|split]; [|eauto|lia].
    + unfold oneTimer. cbn. rewrite Hi. eauto.
    + eexists. split; [reflexivity|]. cbn. by rewrite Hi.
  - split; [|split]; [|lia|done].
    unfold oneTimer. by rewrite Hb.
Qed.

(** X2.  However often and with whatever values the interval is set, the
    browser holds at most one rotation timer: after the last call there is
    exactly one, of period [seconds*1000] ms, when the last value is
    positive, and none when it is zero or negative. *)
Theorem interval_single_timer (t : Scheduler) (p : Page) (earlier : list Z) (secs : Z) :
  oneTimer t ->
  let r := foldl (fun tp s => applyBgInterval s tp) (t, p) (earlier ++ [secs]) in
  (length (intervals (fst r)) <= 1)%nat
  /\ (0 < secs -> exists id, bgTimer (fst r) = Some id
                             /\ intervals (fst r) = [(id, secs * 1000)])
  /\ (secs <= 0 -> bgTimer (fst r) = None /\ intervals (fst r) = []).
Proof.
  intros Ht r. unfold r. rewrite foldl_app. cbn [foldl].
  assert (oneTimer (fst (foldl (fun tp s => applyBgInterval s tp) (t, p) earlier)))
    as H1.
  { clear r. revert t p Ht. induction earlier as [|s l IH]; intros t p Ht; [done|].
    cbn [foldl].
    destruct (applyBgInterval s (t, p)) as [t1 p1] eqn:E.
    apply IH. pose proof (applyBgInterval_timer s t p Ht) as [H _].
    by rewrite E in H. }
  destruct (foldl _ (t, p) earlier) as [t1 p1]. cbn [fst] in H1.
  destruct (applyBgInterval_timer secs t1 p1 H1) as (Ho & Hpos & Hneg).
  split; [|by split].
  destruct (Z.lt_ge_cases 0 secs) as [Hs|Hs].
  - destruct (Hpos Hs) as (id & _ & ->). cbn. lia.
  - destruct (Hneg ltac:(lia)) as [_ ->]. cbn. lia.
Qed.

(** The interval is set to 30, 0 and 5 seconds in turn. *)
Lemma interval_single_timer_witness :
  let t := mkScheduler None [] 1 in
  oneTimer t
  /\ (length (intervals (fst (foldl (fun tp s => applyBgInterval s tp)
                                (t, blankPage) ([30%Z; 0%Z] ++ [5%Z])))) <= 1)%nat.
Proof.
  intros t. assert (oneTimer t) as H by reflexivity.
  split; [exact H|].
  exact (proj1 (interval_single_timer t blankPage [30; 0] 5 H)).
Defined.

(** X3.  For an interval whose period in milliseconds is a safe integer
    (only there is the stored string the decimal numeral of the seconds),
    the interval that [applyBgInterval] stores is the one [initBg] reads
    back and applies on the next page load: the reloaded page has a rotation
    timer exactly when the value was positive, with the same period. *)
Theorem interval_survives_reload secs (tp : Scheduler * Page) :
  safeInteger (secs * 1000) ->
  let p' := snd (applyBgInterval secs tp) in
  let reloaded := initInterval (mkScheduler None [] 1, p') in
  savedInterval p' = Some secs
  /\ intervals (fst reloaded) = (if bool_decide (0 < secs) then [(1%positive, secs * 1000)] else [])
  /\ savedInterval (snd reloaded) = Some secs.
Proof.
  intros _ p' reloaded.
  assert (forall q, savedInterval (snd (applyBgInterval secs q)) = Some secs) as Hs.
  { intros q. unfold applyBgInterval, savedInterval.
    case_bool_decide; cbn [snd];
      (rewrite getItemOr_setItem by apply pretty_Z_nonempty);
      apply parseInt10_pretty. }
  split; [apply Hs|].
  unfold reloaded, initInterval. cbn [snd]. unfold p'. rewrite Hs. split; [|apply Hs].
  unfold applyBgInterval at 1. cbn [fst bgTimer]. by case_bool_decide.
Qed.

(** Thirty seconds, set while a timer of ten seconds runs. *)
Lemma interval_survives_reload_witness :
  let tp := (mkScheduler (Some 1%positive) [(1%positive, 10000)] 2, blankPage) in
  safeInteger (30 * 1000)
  /\ savedInterval (snd (applyBgInterval 30 tp)) = Some 30.
Proof.
  intros tp.
  assert (safeInteger (30 * 1000)) as H by (unfold safeInteger; lia).
  split; [exact H|].
  exact (proj1 (interval_survives_reload 30 tp H)).
Defined.

(** ** Clock *)

Lemma pad_length_100 :
  forallb (fun k => Nat.eqb (String.length (pad (Z.of_nat k))) 2) (seq 0 100) = true.
Proof. vm_compute. reflexivity. Qed.

Lemma parseInt10_zero s :
  parseInt10 ("0" +:+ s) = Some (Z.of_N (digitsVal 0 s)).
Proof.
  change ("0" +:+ s) with (String (Ascii.ascii_of_N 48) s).
  unfold parseInt10. rewrite skipWhite_plain by (cbn; lia). reflexivity.
Qed.

(** X4.  For the values a clock shows (0 to 99) [pad] gives exactly two
    characters, and they read back as the number. *)
Theorem pad_two_digits (n : Z) :
  0 <= n <= 99 ->
  String.length (pad n) = 2%nat /\ parseInt10 (pad n) = Some n.
Proof.
  intros Hn. split.
  - pose proof pad_length_100 as H. rewrite forallb_forall in H.
    specialize (H (Z.to_nat n)). rewrite Z2Nat.id in H by lia.
    apply Nat.eqb_eq, H, in_seq. lia.
  - unfold pad. case_bool_decide as Hlt; [|apply parseInt10_pretty].
    rewrite parseInt10_zero. f_equal.
    destruct n as [|x|x]; [reflexivity| |lia].
    change (pretty (Z.pos x)) with (pretty (N.pos x)).
    by destruct (pretty_N_numeral (N.pos x)) as (_ & _ & _ & _ & ->).
Qed.

Lemma pad_two_digits_witness :
  0 <= 7 <= 99 /\ pad 7 = "07" /\ parseInt10 (pad 7) = Some 7.
Proof.
  split; [lia|]. split; [reflexivity|].
  exact (proj2 (pad_two_digits 7 ltac:(lia))).
Defined.

(** ** Theme toggle *)

Lemma setTheme_Some t p q :
  setTheme t p = Some q ->
  q = mkPage (<["dove-theme" := t]> (localStorage p)) (rootStyle p) (rootClass p)
        (bodyClass p ∖ {["theme-auto"]} ∖ {["theme-light"]} ∖ {["theme-dark"]}
         ∪ {["theme-" +:+ t]})
        (bodyAttr p) (dom1 p) (dom2 p).
Proof.
  unfold setTheme. cbv zeta. destruct (validToken _); [|done]. by intros [= <-].
Qed.

(** The three themes are valid tokens: for them [setTheme] never throws. *)
Lemma setTheme_three t p :
  t ∈ ["auto"; "light"; "dark"] ->
  setTheme t p
  = Some (mkPage (<["dove-theme" := t]> (localStorage p)) (rootStyle p) (rootClass p)
            (bodyClass p ∖ {["theme-auto"]} ∖ {["theme-light"]} ∖ {["theme-dark"]}
             ∪ {["theme-" +:+ t]})
            (bodyAttr p) (dom1 p) (dom2 p)).
Proof.
  intros Ht.
  repeat (apply elem_of_cons in Ht as [->|Ht]); [| | |by apply elem_of_nil in Ht];
    reflexivity.
Qed.

Lemma setTheme_after_three t u p q :
  t ∈ ["auto"; "light"; "dark"] -> u ∈ ["auto"; "light"; "dark"] ->
  setTheme t p = Some q -> setTheme u q = setTheme u p.
Proof.
  intros Ht Hu E. apply setTheme_Some in E as ->.
  rewrite !(setTheme_three u) by done. cbn. f_equal. f_equal.
  - apply insert_insert_eq.
  - apply set_eq. intros x.
    repeat (apply elem_of_cons in Ht as [->|Ht]); [| | |by apply elem_of_nil in Ht];
      set_solver.
Qed.

(** X5.  A click on the theme toggle never throws and stores one of the
    three themes: light when the stored theme is auto, missing or empty,
    dark when it is light, and auto for every other stored value.
    Afterwards the body carries the class of that theme and neither of the
    other two theme classes; every other class of the body is left as it
    was, also a class [theme-x] that a foreign stored value has put there.
    Three more clicks come back to the same page state. *)
Theorem theme_toggle_cycles (p : Page) :
  exists t p1,
    toggleThemeClick p = Some p1
    /\ match localStorage p !! "dove-theme" with
       | None => t = "light"
       | Some cur =>
           if decide (cur = "" \/ cur = "auto") then t = "light"
           else if decide (cur = "light") then t = "dark"
           else t = "auto"
       end
    /\ localStorage p1 !! "dove-theme" = Some t
    /\ "theme-" +:+ t ∈ bodyClass p1
    /\ (forall u, u ∈ ["auto"; "light"; "dark"] -> u ≠ t ->
        "theme-" +:+ u ∉ bodyClass p1)
    /\ (forall c, c ∉ ["theme-auto"; "theme-light"; "theme-dark"] ->
        c ∈ bodyClass p1 <-> c ∈ bodyClass p)
    /\ ((toggleThemeClick p1 ≫= toggleThemeClick) ≫= toggleThemeClick) = Some p1.
Proof.
  set (cur := getItemOr "dove-theme" "auto" p).
  set (t := if decide (cur = "auto") then "light"
            else if decide (cur = "light") then "dark" else "auto").
  assert (t ∈ ["auto"; "light"; "dark"]) as Ht
    by (unfold t; repeat case_decide; set_solver).
  assert (toggleThemeClick p = setTheme t p) as E0 by reflexivity.
  pose proof (setTheme_three t p Ht) as E1. rewrite <- E0 in E1.
  eexists t, _. split; [exact E1|].
  split.
  { unfold t, cur, getItemOr. destruct (localStorage p !! "dove-theme") as [v|]; [|done].
    repeat case_decide; subst; try done; naive_solver. }
  cbn [localStorage bodyClass].
  split; [by rewrite lookup_insert_eq|]. split; [set_solver|].
  split.
  { intros u Hu Hne.
    repeat (apply elem_of_cons in Ht as [->|Ht]); [| | |by apply elem_of_nil in Ht];
      repeat (apply elem_of_cons in Hu as [->|Hu]); try done;
      try (by apply elem_of_nil in Hu); set_solver. }
  split.
  { intros c Hc.
    assert (c ≠ "theme-auto" /\ c ≠ "theme-light" /\ c ≠ "theme-dark") as (? & ? & ?)
      by (repeat split; intros ->; apply Hc; set_solver).
    repeat (apply elem_of_cons in Ht as [->|Ht]); [| | |by apply elem_of_nil in Ht];
      set_solver. }
  assert (forall u q q', u ≠ "" -> setTheme u q = Some q' ->
            getItemOr "dove-theme" "auto" q' = u) as Hget.
  { intros u q q' Hu Eq. apply setTheme_Some in Eq as ->.
    unfold getItemOr. cbn [localStorage]. rewrite lookup_insert_eq.
    by rewrite decide_False. }
  assert (forall q q', setTheme "auto" q = Some q' ->
            toggleThemeClick q' = setTheme "light" q) as Ha.
  { intros q q' Eq. unfold toggleThemeClick. rewrite (Hget "auto" q q') by done.
    rewrite decide_True by done.
    apply (setTheme_after_three "auto" "light" q q'); [set_solver|set_solver|done]. }
  assert (forall q q', setTheme "light" q = Some q' ->
            toggleThemeClick q' = setTheme "dark" q) as Hl.
  { intros q q' Eq. unfold toggleThemeClick. rewrite (Hget "light" q q') by done.
    rewrite decide_False by done. rewrite decide_True by done.
    apply (setTheme_after_three "light" "dark" q q'); [set_solver|set_solver|done]. }
  assert (forall q q', setTheme "dark" q = Some q' ->
            toggleThemeClick q' = setTheme "auto" q) as Hd.
  { intros q q' Eq. unfold toggleThemeClick. rewrite (Hget "dark" q q') by done.
    rewrite !decide_False by done.
    apply (setTheme_after_three "dark" "auto" q q'); [set_solver|set_solver|done]. }
  rewrite E0 in E1.
  pose proof (setTheme_three "auto" p ltac:(set_solver)) as Ta.
  pose proof (setTheme_three "light" p ltac:(set_solver)) as Tl.
  pose proof (setTheme_three "dark" p ltac:(set_solver)) as Td.
  clear E0 Hget. revert E1.
  repeat (apply elem_of_cons in Ht as [->|Ht]); [| | |by apply elem_of_nil in Ht];
    intros E1.
  - rewrite (Ha p _ E1), Tl. cbn [mbind option_bind]. rewrite (Hl p _ Tl), Td.
    cbn [mbind option_bind]. by rewrite (Hd p _ Td), Ta.
  - rewrite (Hl p _ E1), Td. cbn [mbind option_bind]. rewrite (Hd p _ Td), Ta.
    cbn [mbind option_bind]. by rewrite (Ha p _ Ta), Tl.
  - rewrite (Hd p _ E1), Ta. cbn [mbind option_bind]. rewrite (Ha p _ Ta), Tl.
    cbn [mbind option_bind]. by rewrite (Hl p _ Tl), Td.
Qed.

(** ** Search engines *)

Lemma pickEngine_in l name i e :
  pickEngine name l = Some (i, e) ->
  l !! i = Some e
  /\ ((exists x, x ∈ l /\ ename x = name) -> ename e = name)
  /\ ((forall x, x ∈ l -> ename x ≠ name) -> i = 0%nat).
Proof.
  unfold pickEngine. destruct (list_find _ l) as [[j x]|] eqn:E.
  - intros [= -> ->]. apply list_find_Some in E as (Hl & Hn & _).
    split; [done|]. split; [done|]. intros H. destruct (H e); [|done].
    by eapply list_elem_of_lookup_2.
  - destruct l as [|y l]; [done|]. cbn. intros [= <- <-].
    split; [done|]. split; [|done]. intros (x & Hx & Hn).
    apply list_find_None in E. rewrite Forall_forall in E. by destruct (E x Hx).
Qed.

Lemma pickEngine_nonempty name l : l ≠ [] -> is_Some (pickEngine name l).
Proof.
  intros Hl. unfold pickEngine. destruct (list_find _ l) as [ie|]; [eauto|].
  destruct l; [done|]. cbn. eauto.
Qed.

(** X6.  Whatever name [setSelectedEngine] is called with (a stale stored
    name, [null], a name of the menu), on a non-empty menu it ends with an
    engine of the menu selected: that engine's name is stored, it is the
    only entry with [aria-selected] true, it is the engine asked for when
    the menu has one of that name and the first entry otherwise. *)
Theorem selected_engine_is_in_menu (name : JsVal) (u : SearchUi) (l : list EngineItem) :
  engineMenu u = Some l ->
  l ≠ [] ->
  let u' := setSelectedEngine name u in
  exists i e,
    l !! i = Some e
    /\ localStorage (uiPage u') !! "dove-engine" = Some (jsToString (ename e))
    /\ length (ariaSelected u') = length l
    /\ (forall j, ariaSelected u' !! j = Some true <-> j = i)
    /\ ((exists x, x ∈ l /\ ename x = name) -> ename e = name)
    /\ ((forall x, x ∈ l -> ename x ≠ name) -> i = 0%nat).
Proof.
  intros Hm Hl u'. destruct (pickEngine_nonempty name l Hl) as [[i e] Hp].
  destruct (pickEngine_in l name i e Hp) as (Hi & Hfound & Hnone).
  exists i, e. unfold u', setSelectedEngine. rewrite Hm, Hp. cbn.
  split; [done|]. split; [by rewrite lookup_insert_eq|].
  split; [by rewrite length_imap|]. split; [|by split].
  intros j. rewrite list_lookup_imap. split.
  - destruct (l !! j); [|done]. cbn. intros [= H]. by apply bool_decide_eq_true in H.
  - intros ->. rewrite Hi. cbn. by rewrite bool_decide_eq_true_2.
Qed.

Lemma selected_engine_is_in_menu_witness :
  let l := [mkEngineItem (JsString "Google") (JsString "https://www.google.com/search?q={q}");
            mkEngineItem (JsString "Bing") (JsString "https://www.bing.com/search?q={q}")] in
  let u := mkSearchUi (Some l) [] (Some JsNull) blankPage in
  engineMenu u = Some l /\ l ≠ []
  /\ exists i e, l !! i = Some e
       /\ localStorage (uiPage (setSelectedEngine (JsString "Yahoo") u)) !! "dove-engine"
          = Some (jsToString (ename e)).
Proof.
  intros l u. split; [reflexivity|]. split; [discriminate|].
  destruct (selected_engine_is_in_menu (JsString "Yahoo") u l eq_refl ltac:(discriminate))
    as (i & e & H1 & H2 & _).
  exists i, e. split; [exact H1|exact H2].
Defined.

Lemma list_find_NoDup_name (l : list EngineItem) i e :
  NoDup (ename <$> l) -> l !! i = Some e ->
  list_find (fun x => ename x = ename e) l = Some (i, e).
Proof.
  intros Hnd Hi. apply list_find_Some. split; [done|]. split; [done|].
  intros j y Hj Hlt Hy.
  assert (i = j); [|lia].
  eapply (NoDup_lookup (ename <$> l)); [done| |];
    rewrite list_lookup_fmap; [by rewrite Hi|by rewrite Hj, <- Hy].
Qed.

Lemma nextEngine_nonempty (d : Z) (u : SearchUi) l :
  engineMenu u = Some l -> l ≠ [] ->
  nextEngine d u
  = let found := match list_find (fun x => ename x = selectedEngineName u) l with
                 | Some (i, _) => Z.of_nat i
                 | None => -1
                 end in
    let idx := Z.rem (Z.max 0 found + d + Z.of_nat (length l)) (Z.of_nat (length l)) in
    if bool_decide (idx < 0) then None
    else match l !! Z.to_nat idx with
         | Some e => Some (setSelectedEngine (ename e) u)
         | None => None
         end.
Proof.
  intros Hm Hl. unfold nextEngine, engines. rewrite Hm. cbn [default].
  by destruct l.
Qed.

(** With distinct names that are strings, [nextEngine(d)] from entry [i]
    selects entry [(i+d) mod n], for any [d] from [-n] on. *)
Lemma nextEngine_moves (d : Z) (u : SearchUi) l i e :
  engineMenu u = Some l ->
  NoDup (ename <$> l) ->
  Forall (fun x => exists s, ename x = JsString s) l ->
  l !! i = Some e ->
  selectedEngineName u = ename e ->
  - Z.of_nat (length l) <= d ->
  exists e',
    l !! Z.to_nat ((Z.of_nat i + d) mod Z.of_nat (length l)) = Some e'
    /\ nextEngine d u = Some (setSelectedEngine (ename e') u)
    /\ engineMenu (setSelectedEngine (ename e') u) = Some l
    /\ selectedEngineName (setSelectedEngine (ename e') u) = ename e'
    /\ (forall j, ariaSelected (setSelectedEngine (ename e') u) !! j = Some true
                  <-> j = Z.to_nat ((Z.of_nat i + d) mod Z.of_nat (length l))).
Proof.
  intros Hm Hnd Hstr Hi Hsel Hd.
  pose proof (lookup_lt_Some _ _ _ Hi) as Hlt.
  set (n := Z.of_nat (length l)) in *.
  assert (0 < n) as Hn by lia.
  set (k := (Z.of_nat i + d) mod n).
  assert (0 <= k < n) as Hk by (apply Z.mod_pos_bound; lia).
  destruct (lookup_lt_is_Some_2 l (Z.to_nat k)) as [e' He']; [lia|].
  exists e'. split; [done|].
  assert (pickEngine (ename e') l = Some (Z.to_nat k, e')) as Hp.
  { unfold pickEngine. by rewrite (list_find_NoDup_name l _ e' Hnd He'). }
  assert (setSelectedEngine (ename e') u
          = mkSearchUi (Some l) (imap (fun j _ => bool_decide (j = Z.to_nat k)) l)
              ((fun _ => JsString (orEmpty (ename e'))) <$> engineLabel u)
              (setItem "dove-engine" (jsToString (ename e')) (uiPage u))) as Hset.
  { unfold setSelectedEngine. by rewrite Hm, Hp. }
  split; [|rewrite Hset; split; [done|split]].
  - rewrite (nextEngine_nonempty d u l Hm) by (intros ->; done).
    rewrite Hsel, (list_find_NoDup_name l i e Hnd Hi).
    cbv zeta. rewrite Z.max_r by lia. fold n.
    rewrite Z.rem_mod_nonneg by lia.
    replace ((Z.of_nat i + d + n) mod n) with k
      by (unfold k; rewrite <- (Z.mod_add (Z.of_nat i + d) 1 n) by lia;
          f_equal; lia).
    rewrite bool_decide_eq_false_2 by lia. by rewrite He'.
  - unfold selectedEngineName, getItem. cbn. rewrite lookup_insert_eq.
    rewrite Forall_forall in Hstr.
    destruct (Hstr e' (list_elem_of_lookup_2 _ _ _ He')) as [s ->]. done.
  - intros j. cbn. rewrite list_lookup_imap. split.
    + destruct (l !! j); [|done]. cbn. intros [= H]. by apply bool_decide_eq_true in H.
    + intros ->. rewrite He'. cbn. by rewrite bool_decide_eq_true_2.
Qed.

(** X7.  In a menu whose engines have distinct names, switching to the
    next engine and then to the previous one comes back to the engine that
    was selected: the same name is stored and the same entry is marked
    selected.  Going forward from the last entry wraps to the first. *)
Theorem engine_next_then_previous (u : SearchUi) l i e :
  engineMenu u = Some l ->
  NoDup (ename <$> l) ->
  Forall (fun x => exists s, ename x = JsString s) l ->
  l !! i = Some e ->
  selectedEngineName u = ename e ->
  exists u1 u2 e1,
    nextEngine 1 u = Some u1
    /\ l !! ((i + 1) mod length l)%nat = Some e1
    /\ selectedEngineName u1 = ename e1
    /\ (forall j, ariaSelected u1 !! j = Some true <-> j = ((i + 1) mod length l)%nat)
    /\ nextEngine (-1) u1 = Some u2
    /\ selectedEngineName u2 = ename e
    /\ (forall j, ariaSelected u2 !! j = Some true <-> j = i).
Proof.
  intros Hm Hnd Hstr Hi Hsel.
  pose proof (lookup_lt_Some _ _ _ Hi) as Hlt.
  destruct (nextEngine_moves 1 u l i e Hm Hnd Hstr Hi Hsel ltac:(lia))
    as (e1 & He1 & Hn1 & Hm1 & Hs1 & Ha1).
  assert (Z.to_nat ((Z.of_nat i + 1) mod Z.of_nat (length l))
          = ((i + 1) mod length l)%nat) as Ek.
  { rewrite <- (Nat2Z.id ((i + 1) mod length l)%nat). f_equal.
    rewrite Nat2Z.inj_mod. f_equal. lia. }
  rewrite Ek in He1, Ha1.
  set (u1 := setSelectedEngine (ename e1) u) in *.
  destruct (nextEngine_moves (-1) u1 l _ e1 Hm1 Hnd Hstr He1 Hs1 ltac:(lia))
    as (e2 & He2 & Hn2 & Hm2 & Hs2 & Ha2).
  assert (Z.to_nat ((Z.of_nat ((i + 1) mod length l)%nat + -1) mod Z.of_nat (length l))
          = i) as Ei.
  { rewrite Nat2Z.inj_mod.
    destruct (decide (i + 1 = length l)%nat) as [E|E].
    - replace (Z.of_nat (i + 1)) with (Z.of_nat (length l)) by lia.
      rewrite Z.mod_same by lia.
      replace (0 + -1) with (-1) by lia.
      rewrite <- (Z.mod_add (-1) 1 (Z.of_nat (length l))) by lia.
      rewrite Z.mod_small by lia. lia.
    - rewrite (Z.mod_small (Z.of_nat (i + 1))) by lia.
      rewrite Z.mod_small by lia. lia. }
  rewrite Ei in He2, Ha2.
  assert (e2 = e) by congruence. subst e2.
  exists u1, (setSelectedEngine (ename e) u1), e1.
  by repeat split; try apply Ha1; try apply Ha2.
Qed.

(** Three engines; the last is selected, so "next" wraps to the first. *)
Lemma engine_next_then_previous_witness :
  let l := [mkEngineItem (JsString "Google") (JsString "https://www.google.com/search?q={q}");
            mkEngineItem (JsString "Bing") (JsString "https://www.bing.com/search?q={q}");
            mkEngineItem (JsString "DuckDuckGo") (JsString "https://duckduckgo.com/?q={q}")] in
  let e := mkEngineItem (JsString "DuckDuckGo") (JsString "https://duckduckgo.com/?q={q}") in
  let u := mkSearchUi (Some l) [] (Some JsNull) (setItem "dove-engine" "DuckDuckGo" blankPage) in
  engineMenu u = Some l
  /\ NoDup (ename <$> l)
  /\ Forall (fun x => exists s, ename x = JsString s) l
  /\ l !! 2%nat = Some e
  /\ selectedEngineName u = ename e
  /\ exists u1 u2, nextEngine 1 u = Some u1 /\ nextEngine (-1) u1 = Some u2
                   /\ selectedEngineName u2 = ename e.
Proof.
  intros l e u.
  assert (NoDup (ename <$> l)) as Hnd by (vm_compute; repeat constructor; set_solver).
  assert (Forall (fun x => exists s, ename x = JsString s) l) as Hstr
    by (repeat constructor; eexists; reflexivity).
  split; [reflexivity|]. split; [exact Hnd|]. split; [exact Hstr|].
  split; [reflexivity|]. split; [reflexivity|].
  destruct (engine_next_then_previous u l 2%nat e eq_refl Hnd Hstr eq_refl eq_refl)
    as (u1 & u2 & e1 & H1 & _ & _ & _ & H2 & H3 & _).
  exists u1, u2. split; [exact H1|]. split; [exact H2|exact H3].
Defined.

(** ** The search URL *)

Lemma stripPrefix_correct pat : forall s r,
  stripPrefix pat s = Some r -> s = pat +:+ r.
Proof.
  induction pat as [|a pat IH]; intros s r; cbn [stripPrefix].
  - by intros [= ->].
  - destruct s as [|b s]; [done|]. case_decide as E; [|done]. subst b.
    intros H. apply IH in H. by rewrite H.
Qed.

Lemma findSub_correct pat : forall s a b,
  findSub pat s = Some (a, b) -> s = a +:+ pat +:+ b.
Proof.
  induction s as [|c s IH]; intros a b; cbn [findSub].
  - destruct (stripPrefix pat "") as [r|] eqn:E; [|done].
    intros [= <- <-]. exact (stripPrefix_correct _ _ _ E).
  - destruct (stripPrefix pat (String c s)) as [r|] eqn:E.
    + intros [= <- <-]. exact (stripPrefix_correct _ _ _ E).
    + destruct (findSub pat s) as [[a' b']|] eqn:E'; [|done].
      cbn. intros [= <- <-]. by rewrite (IH a' b' eq_refl).
Qed.

Lemma byte_ascii_of_N n : (n < 256)%N -> byte (Ascii.ascii_of_N n) = n.
Proof. intros H. apply Ascii.N_ascii_embedding. exact H. Qed.

Lemma hexDigit_safe n : (n < 16)%N -> urlSafe (hexDigit n) = true.
Proof.
  intros Hn. unfold hexDigit.
  destruct (bool_decide_reflect (n < 10)%N) as [H|H];
    unfold urlSafe, unreserved; rewrite byte_ascii_of_N by lia.
  - rewrite (bool_decide_eq_true_2 (48 <= 48 + n <= 57)%N) by lia.
    by rewrite !orb_true_r.
  - by rewrite (bool_decide_eq_true_2 (65 <= 55 + n <= 90)%N) by lia.
Qed.

Lemma encodeURIComponent_safe s :
  Forall (fun c => urlSafe c = true) (String.list_ascii_of_string (encodeURIComponent s)).
Proof.
  induction s as [|c s IH]; cbn [encodeURIComponent String.list_ascii_of_string];
    [constructor|].
  destruct (unreserved (byte c)) eqn:E; cbn [String.list_ascii_of_string].
  - constructor; [|done]. unfold urlSafe. by rewrite E.
  - pose proof (Ascii.N_ascii_bounded c) as Hb. fold (byte c) in Hb.
    constructor; [reflexivity|].
    constructor; [apply hexDigit_safe, N.Div0.div_lt_upper_bound; lia|].
    constructor; [apply hexDigit_safe, N.mod_lt; lia|done].
Qed.

Lemma urlSafe_not_dollar c : urlSafe c = true -> byte c ≠ 36%N.
Proof.
  unfold urlSafe, unreserved. intros H E. rewrite E in H.
  by vm_compute in H.
Qed.

(** A replacement text without [$] is inserted as it is. *)
Lemma expand_plain m b a rep :
  Forall (fun c => byte c ≠ 36%N) (String.list_ascii_of_string rep) ->
  expand m b a rep = rep.
Proof.
  induction rep as [|c r IH]; [done|]. cbn [String.list_ascii_of_string].
  intros H. apply Forall_cons in H as [Hc Hr]. cbn [expand].
  rewrite bool_decide_eq_false_2 by done. by rewrite IH.
Qed.

(** X8.  The search URL is the selected engine's template with the first
    [{q}] replaced by the percent-encoded query, character for character:
    the encoded query holds only letters, digits, [- _ . ! ~ * ' ( )] and
    [%XX] escapes, so nothing of the query can act as a URL delimiter or as
    a [$] pattern of [replace].  Later occurrences of [{q}] stay, and a
    template without [{q}] is returned with the query left out. *)
Theorem search_url_encodes_query (qs : string) (u : SearchUi) i e tpl :
  pickEngine (selectedEngineName u) (engines u) = Some (i, e) ->
  etemplate e = JsString tpl ->
  Forall (fun c => urlSafe c = true)
         (String.list_ascii_of_string (encodeURIComponent qs))
  /\ (forall pre post, findSub "{q}" tpl = Some (pre, post) ->
      tpl = pre +:+ "{q}" +:+ post
      /\ currentEngineUrl qs u = Some (pre +:+ encodeURIComponent qs +:+ post))
  /\ (findSub "{q}" tpl = None -> currentEngineUrl qs u = Some tpl).
Proof.
  intros Hp Ht. split; [apply encodeURIComponent_safe|]. split.
  - intros pre post Hf. split; [by apply findSub_correct|].
    unfold currentEngineUrl. rewrite Hp, Ht. cbn [orEmpty].
    unfold jsReplace. rewrite Hf. rewrite expand_plain; [done|].
    eapply Forall_impl; [apply encodeURIComponent_safe|].
    intros c. apply urlSafe_not_dollar.
  - intros Hf. unfold currentEngineUrl. rewrite Hp, Ht. cbn [orEmpty].
    unfold jsReplace. by rewrite Hf.
Qed.

Lemma search_url_encodes_query_witness :
  let e := mkEngineItem (JsString "Bing") (JsString "https://www.bing.com/search?q={q}&form={q}") in
  let u := mkSearchUi (Some [e]) [] None blankPage in
  pickEngine (selectedEngineName u) (engines u) = Some (0%nat, e)
  /\ etemplate e = JsString "https://www.bing.com/search?q={q}&form={q}"
  /\ currentEngineUrl "a&b $& c" u
     = Some "https://www.bing.com/search?q=a%26b%20%24%26%20c&form={q}".
Proof.
  intros e u. split; [reflexivity|]. split; [reflexivity|].
  destruct (search_url_encodes_query "a&b $& c" u 0%nat e _ eq_refl eq_refl)
    as (_ & H & _).
  exact (proj2 (H "https://www.bing.com/search?q=" "&form={q}" eq_refl)).
Defined.

(** ** Categories *)

Lemma initialCat_kept (u : CatUi) items :
  let t := initialCat u items in
  (falsy t = false -> Exists (fun it => dataCat it = t) items)
  /\ (falsy t = true ->
      t = match items with it :: _ => dataCat it | [] => JsString "" end).
Proof.
  unfold initialCat. destruct (falsy (getItem "dove-cat" (catPage u))) eqn:Ef; cbn [orb].
  - split; [|done]. destruct items as [|it items]; [done|].
    intros _. by constructor.
  - case_bool_decide as Hex; cbn [negb].
    + split; [done|]. intros H. congruence.
    + split; [|done]. destruct items as [|it items]; [done|].
      intros _. by constructor.
Qed.

(** X9.  [initCats] activates the stored category when it is a category of
    the sidebar, and the first sidebar entry otherwise (also when nothing or
    an empty string is stored); it marks exactly the entries of that
    category active and stores it, so that running [initCats] again, as the
    next page load does, changes nothing.  With an empty search box the
    sections shown are those of the category, or all of them when the
    category is empty or [null]. *)
Theorem initCats_restores_category (u : CatUi) (items : list CatItem) :
  catList u = Some items ->
  let t := initialCat u items in
  let u' := initCats u in
  (forall s, getItem "dove-cat" (catPage u) = JsString s -> s ≠ "" ->
     Exists (fun it => dataCat it = JsString s) items -> t = JsString s)
  /\ ((getItem "dove-cat" (catPage u) = JsNull
       \/ ~ Exists (fun it => dataCat it = getItem "dove-cat" (catPage u)) items) ->
      t = match items with it :: _ => dataCat it | [] => JsString "" end)
  /\ catList u' = Some (map (fun it => mkCatItem (dataCat it) (bool_decide (dataCat it = t))) items)
  /\ localStorage (catPage u') !! "dove-cat" = Some (orEmpty t)
  /\ currentCat u' = orEmpty t
  /\ (isBlank (default "" (searchText u)) = true ->
      Forall (fun sec => sectionDisplay sec = ""
                         <-> (falsy t = true \/ t = sectionCat sec)) (sections u'))
  /\ initCats u' = u'.
Proof.
  intros Hc t u'.
  assert (u' = setActiveCat t u) as Eu by (unfold u', initCats; by rewrite Hc).
  split; [|split].
  { intros s Hs Hne Hex. unfold t, initialCat. rewrite Hs. cbn [falsy].
    rewrite bool_decide_eq_false_2 by done. cbn [orb].
    by rewrite bool_decide_eq_true_2. }
  { intros [Hn|Hn]; unfold t, initialCat.
    - by rewrite Hn.
    - rewrite (bool_decide_eq_false_2 _ Hn). cbn [negb]. by rewrite orb_true_r. }
  rewrite Eu. unfold setActiveCat. rewrite Hc. cbn [catList catPage currentCat sections].
  split; [done|]. split; [by rewrite localStorage_setItem, lookup_insert_eq|].
  split; [done|]. split.
  { intros Hb. rewrite Hb. apply Forall_fmap, Forall_forall. intros sec _. cbn.
    destruct (falsy t) eqn:Ef; cbn [orb].
    - split; [by left|done].
    - case_bool_decide as E; split; try done; [by right|].
      intros [?|?]; congruence. }
  (* a second run *)
  set (items' := map (fun it => mkCatItem (dataCat it) (bool_decide (dataCat it = t))) items).
  set (u1 := mkCatUi _ _ _ _ _).
  assert (forall v, Exists (fun it => dataCat it = v) items'
                    <-> Exists (fun it => dataCat it = v) items) as Hex.
  { intros v. unfold items'. rewrite !Exists_exists. split.
    - intros (x & Hx & Hv). apply list_elem_of_fmap in Hx as (y & -> & Hy). eauto.
    - intros (y & Hy & Hv). eexists. split; [apply list_elem_of_fmap; eauto|done]. }
  assert (initialCat u1 items' = t) as Et.
  { destruct (initialCat_kept u items) as [Hkeep Hfall]. fold t in Hkeep, Hfall.
    assert (getItem "dove-cat" (catPage u1) = JsString (orEmpty t)) as Eg.
    { unfold u1, getItem. cbn [catPage].
      by rewrite localStorage_setItem, lookup_insert_eq. }
    unfold initialCat. rewrite Eg.
    destruct (falsy t) eqn:Ef.
    - assert (orEmpty t = "") as ->.
      { destruct t as [| |s]; try done. cbn in Ef. by apply bool_decide_eq_true in Ef. }
      cbn [falsy]. rewrite bool_decide_eq_true_2 by done. cbn [orb].
      rewrite (Hfall eq_refl). unfold items'. by destruct items.
    - destruct t as [| |s] eqn:Es; try done. cbn [orEmpty falsy].
      cbn in Ef. rewrite Ef. cbn [orb].
      rewrite bool_decide_eq_true_2 by (apply Hex, Hkeep; done). done. }
  unfold initCats. unfold u1 at 1. cbn [catList]. rewrite Et.
  unfold setActiveCat. unfold u1 at 1. cbn [catList].
  unfold u1. cbn [catList sections searchText catPage currentCat]. f_equal.
  - f_equal. unfold items'. rewrite map_map. done.
  - destruct (isBlank (default "" (searchText u))); [|done].
    rewrite map_map. done.
  - unfold setItem. cbn. f_equal. apply insert_insert_eq.
Qed.

(** A stored category that the sidebar no longer has. *)
Lemma initCats_restores_category_witness :
  let items := [mkCatItem (JsString "dev") false; mkCatItem (JsString "news") false] in
  let u := mkCatUi (Some items)
             [mkSectionEl (JsString "dev") ""; mkSectionEl (JsString "news") ""]
             "" (Some "") (setItem "dove-cat" "games" blankPage) in
  catList u = Some items
  /\ currentCat (initCats u) = "dev"
  /\ initCats (initCats u) = initCats u.
Proof.
  intros items u. split; [reflexivity|].
  destruct (initCats_restores_category u items eq_refl)
    as (_ & _ & _ & _ & H5 & _ & H7).
  split; [|exact H7]. rewrite H5. reflexivity.
Defined.

(** ** The loader: the shared provider cursor *)

Lemma nextUrl_A_cursor wd n idx i u :
  nextUrl ScriptA wd n idx = Some (i, u) -> i = ((idx + 1) mod 2)%nat.
Proof.
  unfold nextUrl. destruct (vp wd) as [w h'].
  change (length BG_PROVIDERS) with 2%nat.
  destruct (BG_PROVIDERS !! ((idx + 1) mod 2)%nat); [|done].
  by intros [= <- _].
Qed.

Lemma providersIssued_snoc L i t u :
  omap (fun x => match snd (fst x) with
                 | Provider i => Some i
                 | Fallback => None
                 end) (issued L ++ [(i, t, u)])
  = providersIssued L ++ match t with Provider j => [j] | Fallback => [] end.
Proof. unfold providersIssued. rewrite omap_app. by destruct t. Qed.

(** Whatever run goes on to its next request, the requests of the page keep
    alternating. *)
Lemma proceed_alternating h wd i tries was L :
  alternating L -> alternating (proceed ScriptA h wd i tries was L).
Proof.
  intros [Hps Hidx]. destruct tries as [|tries]; cbn [proceed].
  - unfold alternating, providersIssued. cbn [issued sharedIdx].
    rewrite providersIssued_snoc, app_nil_r. by split.
  - destruct (nextUrl ScriptA wd (length (issued L)) (sharedIdx L)) as [[idx u]|] eqn:E;
      [|destruct (nextUrl_A_defined wd (length (issued L)) (sharedIdx L)); congruence].
    apply nextUrl_A_cursor in E as ->.
    unfold alternating, providersIssued. cbn [issued sharedIdx].
    rewrite providersIssued_snoc. rewrite Hidx, Nat.Div0.add_mod_idemp_l.
    split.
    + intros k j Hk.
      destruct (decide (k < length (providersIssued L))%nat) as [Hlt|Hge].
      * rewrite lookup_app_l in Hk by done. by apply Hps.
      * rewrite lookup_app_r in Hk by lia.
        apply list_lookup_singleton_Some in Hk as [Hk <-].
        f_equal. lia.
    + rewrite length_app. cbn [length]. done.
Qed.

Lemma loaderStep_alternating h wd L e L' :
  alternating L -> loaderStep ScriptA h wd L e = Some L' -> alternating L'.
Proof.
  intros H Hstep. destruct e as [m|i ok]; cbn [loaderStep] in Hstep.
  - injection Hstep as <-. apply proceed_alternating. exact H.
  - destruct (loaderRuns L !! i) as [r|]; [|done].
    destruct (status r) as [t| |]; [|done|done].
    destruct ok; [by injection Hstep as <-|].
    destruct t; injection Hstep as <-; [by apply proceed_alternating|exact H].
Qed.

Lemma runLoaders_alternating h wd es : forall L L',
  alternating L -> runLoaders ScriptA h wd L es = Some L' -> alternating L'.
Proof.
  induction es as [|e es IH]; intros L L' H Hr; cbn [runLoaders] in Hr.
  - by injection Hr as <-.
  - destruct (loaderStep ScriptA h wd L e) as [L1|] eqn:E; [|done].
    eapply IH; [|exact Hr]. by eapply loaderStep_alternating.
Qed.

(** X10.  [providerIdx] is shared by all the runs of [loadNextWithRetry] on
    the page.  In revision A, over every interleaving of runs, the provider
    requests of the page, taken in the order they are made, alternate
    between the two providers, beginning with provider 1 (the cursor is
    advanced before it is used), and the cursor stays on the provider asked
    last.  The requests of one run need not alternate: [initBg] starts the
    run of the swap and the run of the preload together, and when the first
    request of the swap fails, the swap asks provider 1 a second time. *)
Theorem shared_cursor_alternates_providers h wd es L :
  runLoaders ScriptA h wd (mkLoaders 0 [] []) es = Some L ->
  (forall k i, providersIssued L !! k = Some i -> i = ((k + 1) mod 2)%nat)
  /\ sharedIdx L = (length (providersIssued L) mod 2)%nat
  /\ (runLoaders ScriptA h wd (mkLoaders 0 [] []) [Begin None; Begin None; Settled 0 false]
        ≫= fun L => asked <$> loaderRuns L !! 0%nat)
     = Some [Provider 1; Provider 1].
Proof.
  intros Hr.
  assert (alternating (mkLoaders 0 [] [])) as H0 by (split; [by intros k i|done]).
  destruct (runLoaders_alternating h wd es _ L H0 Hr) as [H1 H2].
  split; [exact H1|]. split; [exact H2|].
  cbn [runLoaders loaderStep]. change (Z.to_nat (budget None)) with 2%nat.
  cbn [proceed loaderRuns issued sharedIdx length app].
  destruct (nextUrl ScriptA wd 0 0) as [[i1 u1]|] eqn:E1;
    [|destruct (nextUrl_A_defined wd 0 0); congruence].
  apply nextUrl_A_cursor in E1 as ->.
  cbn [loaderRuns issued sharedIdx length app proceed Nat.modulo Nat.divmod Nat.add fst snd].
  change ((0 + 1) mod 2)%nat with 1%nat.
  cbn [loaderRuns issued sharedIdx length app proceed list_insert insert].
  destruct (nextUrl ScriptA wd 1 1) as [[i2 u2]|] eqn:E2;
    [|destruct (nextUrl_A_defined wd 1 1); congruence].
  apply nextUrl_A_cursor in E2 as ->.
  change ((1 + 1) mod 2)%nat with 0%nat.
  cbn [loaderRuns issued sharedIdx length app proceed list_insert insert lookup
       list_lookup status asked triesLeft].
  destruct (nextUrl ScriptA wd 2 0) as [[i3 u3]|] eqn:E3;
    [|destruct (nextUrl_A_defined wd 2 0); congruence].
  apply nextUrl_A_cursor in E3 as ->.
  reflexivity.
Qed.

(** Two runs side by side, both failing at first. *)
Lemma shared_cursor_alternates_providers_witness :
  let wd := mkWorld 1920 1080 (fun _ => 1700000000123) (fun _ => 4242) (fun _ _ => None) in
  let es := [Begin None; Begin None; Settled 0%nat false; Settled 1%nat false;
             Settled 0%nat false; Settled 0%nat true] in
  exists L, runLoaders ScriptA sampleHost wd (mkLoaders 0 [] []) es = Some L
            /\ sharedIdx L = (length (providersIssued L) mod 2)%nat.
Proof.
  intros wd es.
  destruct (runLoaders ScriptA sampleHost wd (mkLoaders 0 [] []) es) as [L|] eqn:E.
  - exists L. split; [reflexivity|].
    exact (proj1 (proj2 (shared_cursor_alternates_providers sampleHost wd es L E))).
  - vm_compute in E. discriminate E.
Defined.

Lemma retry_B h wd tries : forall n idx acc,
  retry ScriptB h wd tries n idx acc = retry ScriptB h wd 0 n idx acc.
Proof. induction tries as [|tries IH]; intros n idx acc; [done|]. apply IH. Qed.

(** X11.  Revision B calls [nextUrl], which it does not define; the
    ReferenceError is caught inside the loop.  So whatever the budget, a run
    of the loader makes one request, for [FALLBACK_BG], and settles with its
    outcome; no provider is ever asked and the cursor does not move. *)
Theorem revisionB_loads_only_fallback h wd maxTries idx :
  let o := loadNextWithRetry ScriptB h wd maxTries idx in
  attempts o
  = [mkAttempt Fallback (FALLBACK_BG h)
       (bool_decide (is_Some (network wd 0%nat (FALLBACK_BG h))))]
  /\ result o
     = (fun im => mkLoadResult im (FALLBACK_BG h)) <$> network wd 0%nat (FALLBACK_BG h)
  /\ cursor o = idx
  /\ providerAttempts o = [].
Proof.
  intros o. unfold o, loadNextWithRetry, providerAttempts. rewrite retry_B.
  cbn [retry]. by destruct (network wd 0%nat (FALLBACK_BG h)).
Qed.

(** ** The coordinator: what each operation leaves alone *)

Lemma Forall_filter_keep {A} (P Q : A -> Prop) `{!forall x, Decision (Q x)} (l : list A) :
  Forall P l -> Forall P (filter Q l).
Proof.
  rewrite !Forall_forall. intros HP x Hx. apply list_elem_of_filter in Hx as [_ Hx].
  by apply HP.
Qed.

Lemma withCid_elem c cs cl : withCid c cs = Some cl -> cl ∈ cs /\ cid cl = c.
Proof.
  unfold withCid. intros H. apply head_Some_elem_of in H.
  apply list_elem_of_filter in H as [? ?]. done.
Qed.

Lemma crossfadeTo_frame sc h res s :
  let s' := crossfadeTo sc h res s in
  bgLayer s' = bgLayer s /\ bgPrimary s' = bgPrimary s /\ bgBuffer s' = bgBuffer s
  /\ preloaded s' = preloaded s /\ awaitingSwap s' = awaitingSwap s
  /\ awaitingPreload s' = awaitingPreload s.
Proof.
  cbv zeta. unfold crossfadeTo.
  destruct (bgPrimary s) eqn:Ep, (bgBuffer s) eqn:Eb, sc; repeat split;
    first [reflexivity | exact Ep | exact Eb].
Qed.

(** [updateBg] once the buffers exist (or in revision B, which never calls
    [ensureBgBuffers]). *)
Lemma updateBg_unfold sc h s :
  is_Some (bgPrimary s) \/ sc = ScriptB ->
  updateBg sc h s
  = if switching s then set_queued true s
    else match preloaded s with
         | Some res =>
             crossfadeTo sc h res
               (set_preloaded None (record Switched (set_switching true s)))
         | None =>
             set_awaitingSwap (S (awaitingSwap s))
               (record Switched (set_switching true s))
         end.
Proof.
  intros H. unfold updateBg.
  assert (match sc with ScriptA => ensureBgBuffers s | ScriptB => s end = s) as ->.
  { destruct sc; [|done]. destruct H as [[x Hx]|H]; [|done].
    unfold ensureBgBuffers. rewrite Hx. by destruct (bgLayer s). }
  reflexivity.
Qed.

(** [onDone] in two parts: the exchange of the layers, then the queued
    request and the preload. *)
Lemma onDone_unfold sc h c s :
  exists s1,
    onDone sc h c s
    = startProactivePreload
        (set_preloaded None
           (if queued s then updateBg sc h (set_queued false s1) else s1))
    /\ s1 = record (FadeDone (cid c))
              (set_switching false
                 (set_bgBuffer (Some (oldPrimary c))
                    (set_bgPrimary (Some (newPrimary c))
                       (onPage (setFade (oldPrimary c) true)
                          (set_listeners
                             (filter (fun lc => lc ≠ (listensOn sc c, c)) (listeners s))
                             s))))).
Proof. eexists. split; reflexivity. Qed.

Lemma preload_restart_frame s :
  let s' := startProactivePreload (set_preloaded None s) in
  bgLayer s' = bgLayer s /\ bgPrimary s' = bgPrimary s /\ bgBuffer s' = bgBuffer s
  /\ switching s' = switching s /\ queued s' = queued s /\ page s' = page s
  /\ awaitingSwap s' = awaitingSwap s /\ delayed s' = delayed s
  /\ listeners s' = listeners s /\ timers s' = timers s /\ nextCid s' = nextCid s
  /\ log s' = log s
  /\ preloaded s' = None /\ awaitingPreload s' = S (awaitingPreload s).
Proof. cbv zeta. repeat split; reflexivity. Qed.

(** ** The coordinator: the two buffers *)

Lemma crossfadeTo_buffered sc h res s : buffered s -> buffered (crossfadeTo sc h res s).
Proof.
  intros ((x & y & Hx & Hy & Hne) & Hd & Hl & Ht).
  destruct (crossfadeTo_frame sc h res s) as (_ & F1 & F2 & _).
  destruct (crossfadeTo_armed sc h res s x y Hx Hy) as (_ & _ & Harm).
  split; [exists x, y; by rewrite F1, F2|].
  destruct sc; destruct Harm as (A1 & A2 & A3); rewrite A1, A2, A3;
    repeat split; try done; apply Forall_app; split; try done;
    constructor; done.
Qed.

Lemma updateBg_buffered sc h s : buffered s -> buffered (updateBg sc h s).
Proof.
  intros H. pose proof H as ((x & y & Hx & _) & _).
  rewrite updateBg_unfold by (left; rewrite Hx; eauto).
  destruct (switching s); [exact H|].
  destruct (preloaded s); [|exact H].
  apply crossfadeTo_buffered. exact H.
Qed.

Lemma swapFailed_buffered h s : buffered s -> buffered (swapFailed h s).
Proof.
  intros H. pose proof H as ((x & y & Hx & _) & _).
  unfold swapFailed, startProactivePreload.
  change (bgPrimary (set_switching false s)) with (bgPrimary s). rewrite Hx.
  cbn [preloaded record onPage set_log set_page set_switching].
  destruct (preloaded s); exact H.
Qed.

Lemma onDone_buffered sc h c s :
  buffered s -> distinctLayers c -> buffered (onDone sc h c s).
Proof.
  intros (_ & Hd & Hl & Ht) Hc.
  destruct (onDone_unfold sc h c s) as (s1 & -> & E1).
  assert (buffered s1) as H1.
  { rewrite E1. split; [exists (newPrimary c), (oldPrimary c); by repeat split|].
    split; [exact Hd|]. split; [|exact Ht].
    cbn [listeners record set_log set_switching set_bgBuffer set_bgPrimary onPage
           set_page set_listeners].
    by apply Forall_filter_keep. }
  assert (buffered (if queued s then updateBg sc h (set_queued false s1) else s1)) as H2.
  { destruct (queued s); [|exact H1]. apply updateBg_buffered. exact H1. }
  exact H2.
Qed.

Lemma fire_buffered sc h s lc :
  buffered s -> distinctLayers (snd lc) -> buffered (fire sc h s lc).
Proof.
  intros H Hc. unfold fire. case_decide; [|exact H].
  apply onDone_buffered; [|exact Hc].
  destruct H as (Hb & Hd & Hl & Ht). split; [exact Hb|]. split; [exact Hd|].
  split; [|exact Ht]. cbn [listeners set_listeners]. by apply Forall_filter_keep.
Qed.

Lemma foldl_fire_buffered sc h ls : forall s,
  Forall (fun lc => distinctLayers (snd lc)) ls ->
  buffered s -> buffered (foldl (fire sc h) s ls).
Proof.
  induction ls as [|lc ls IH]; intros s Hls H; [exact H|].
  cbn [foldl]. apply Forall_cons in Hls as [Hc Hls].
  apply IH; [exact Hls|]. by apply fire_buffered.
Qed.

Lemma step_buffered sc h s e s' :
  buffered s -> step sc h s e = Some s' -> buffered s'.
Proof.
  intros H Hstep. pose proof H as (Hb & Hd & Hl & Ht).
  destruct e as [|r|r|c|l|c]; unfold step in Hstep.
  - destruct (bgLayer s); [|done]. injection Hstep as <-. by apply updateBg_buffered.
  - destruct (awaitingSwap s) as [|n]; [done|]. injection Hstep as <-.
    destruct r as [res|].
    + apply crossfadeTo_buffered. exact H.
    + apply swapFailed_buffered. exact H.
  - destruct (awaitingPreload s) as [|n]; [done|]. injection Hstep as <-.
    destruct r; exact H.
  - destruct (withCid c (delayed s)) as [cl|] eqn:E; [|done]. injection Hstep as <-.
    apply withCid_elem in E as [Hin _].
    assert (distinctLayers cl) as Hcl by (rewrite Forall_forall in Hd; by apply Hd).
    unfold phase2, arm.
    split; [exact Hb|]. cbn [delayed listeners timers set_timers set_listeners
      onPage set_page set_delayed].
    split; [by apply Forall_filter_keep|].
    split; apply Forall_app; split; try done; constructor; done.
  - injection Hstep as <-. unfold dispatch.
    apply foldl_fire_buffered; [|exact H]. by apply Forall_filter_keep.
  - destruct (withCid c (timers s)) as [cl|] eqn:E; [|done]. injection Hstep as <-.
    apply withCid_elem in E as [Hin _].
    assert (distinctLayers cl) as Hcl by (rewrite Forall_forall in Ht; by apply Ht).
    assert (buffered (set_timers (filter (fun x => cid x ≠ c) (timers s)) s)) as H1.
    { split; [exact Hb|]. split; [exact Hd|]. split; [exact Hl|].
      cbn [timers set_timers]. by apply Forall_filter_keep. }
    cbn [switching set_timers]. destruct (switching s); [|exact H1].
    by apply onDone_buffered.
Qed.

Lemma run_buffered sc h es : forall s s',
  buffered s -> run sc h s es = Some s' -> buffered s'.
Proof.
  induction es as [|e es IH]; intros s s' Hs Hr; cbn [run] in Hr.
  - by injection Hr as <-.
  - destruct (step sc h s e) as [s1|] eqn:E; [|done].
    eapply IH; [|exact Hr]. by eapply step_buffered.
Qed.

(** The state [initBg] leaves in revision A. *)
Lemma initBg_A_state h blur p :
  initBg ScriptA h blur (boot (Some BgLayer) p)
  = mkState (Some BgLayer) (Some BgLayer) (Some BgLayer2) true false None
      (let pg := applyTone ScriptA (Some "dark")
                   (setLayerDom BgLayer2 (mkLayerDom "" true) p) in
       match blur with
       | Some v => applyBgBlur ScriptA (device h) v pg
       | None => pg
       end)
      1 1 [] [] [] 0 [Switched].
Proof. by destruct blur. Qed.

Lemma initBg_A_buffered h blur p :
  buffered (initBg ScriptA h blur (boot (Some BgLayer) p)).
Proof.
  rewrite initBg_A_state. split; [by exists BgLayer, BgLayer2|].
  by repeat split.
Qed.

(** X12.  Revision A keeps its two buffers apart.  After [initBg], whatever
    the event loop delivers (requests, loads that succeed or fail,
    [transitionend] on either layer, safety-net timers, also left-over ones),
    [bgPrimary] and [bgBuffer] are both set and are different elements: a
    crossfade never writes the next image onto the layer that is showing. *)
Theorem revisionA_buffers_stay_distinct h blur p es s :
  run ScriptA h (initBg ScriptA h blur (boot (Some BgLayer) p)) es = Some s ->
  exists x y, bgPrimary s = Some x /\ bgBuffer s = Some y /\ x ≠ y.
Proof.
  intros Hr.
  by destruct (run_buffered ScriptA h es _ s (initBg_A_buffered h blur p) Hr) as [? _].
Qed.

(** The schedule with a left-over safety-net timer. *)
Lemma revisionA_buffers_stay_distinct_witness :
  let s0 := initBg ScriptA sampleHost (Some 12) (boot (Some BgLayer) blankPage) in
  let r1 := mkLoadResult whiteImage "https://picsum.photos/1920/1080?random=1" in
  let r2 := mkLoadResult whiteImage "https://picsum.photos/1920/1080?random=2" in
  let es := [SwapSettled (Some r1); RequestSwap; TransitionEnd BgLayer2; Timeout 0%nat;
             SwapSettled (Some r2); Timeout 1%nat] in
  exists s, run ScriptA sampleHost s0 es = Some s
            /\ exists x y, bgPrimary s = Some x /\ bgBuffer s = Some y /\ x ≠ y.
Proof.
  intros s0 r1 r2 es.
  destruct (run ScriptA sampleHost s0 es) as [s|] eqn:E.
  - exists s. split; [reflexivity|].
    exact (revisionA_buffers_stay_distinct sampleHost (Some 12) blankPage es s E).
  - vm_compute in E. discriminate E.
Defined.

(** ** The coordinator: counting switches *)

Lemma fadesBegun_snoc l o :
  fadesBegun (l ++ [o]) = (fadesBegun l + (if isFadeStarted o then 1 else 0))%nat.
Proof.
  unfold fadesBegun. rewrite filter_app, length_app. f_equal.
  destruct (isFadeStarted o) eqn:E;
    [by rewrite filter_cons_True|by rewrite filter_cons_False by congruence].
Qed.

Lemma fallbacksShown_snoc l o :
  fallbacksShown (l ++ [o])
  = (fallbacksShown l + (if decide (o = FallbackShown) then 1 else 0))%nat.
Proof.
  unfold fallbacksShown. rewrite filter_app, length_app. f_equal.
  case_decide; [by rewrite filter_cons_True|by rewrite filter_cons_False].
Qed.

(** A crossfade settles one switch. *)
Lemma crossfadeTo_balanced sc h res s x y :
  bgPrimary s = Some x -> bgBuffer s = Some y ->
  swaps (log s)
  = S (fadesBegun (log s) + fallbacksShown (log s) + awaitingSwap s) ->
  balanced (crossfadeTo sc h res s).
Proof.
  intros Hx Hy Hb. unfold balanced.
  destruct (crossfadeTo_frame sc h res s) as (_ & _ & _ & _ & -> & _).
  destruct (crossfadeTo_armed sc h res s x y Hx Hy) as (-> & _).
  rewrite swaps_snoc, fadesBegun_snoc, fallbacksShown_snoc.
  rewrite decide_False by done. rewrite decide_False by done.
  cbn [isFadeStarted]. lia.
Qed.

Lemma updateBg_balanced sc h s :
  buffered s -> balanced s -> balanced (updateBg sc h s).
Proof.
  intros ((x & y & Hx & Hy & _) & _) Hb.
  rewrite updateBg_unfold by (left; rewrite Hx; eauto).
  destruct (switching s); [exact Hb|].
  unfold balanced in Hb.
  destruct (preloaded s).
  - apply (crossfadeTo_balanced sc h _ _ x y); [exact Hx|exact Hy|].
    cbn [log awaitingSwap set_preloaded record set_log set_switching].
    rewrite swaps_snoc, fadesBegun_snoc, fallbacksShown_snoc.
    rewrite decide_True by done. rewrite decide_False by done.
    cbn [isFadeStarted]. lia.
  - unfold balanced.
    cbn [log awaitingSwap set_awaitingSwap record set_log set_switching].
    rewrite swaps_snoc, fadesBegun_snoc, fallbacksShown_snoc.
    rewrite decide_True by done. rewrite decide_False by done.
    cbn [isFadeStarted]. lia.
Qed.

Lemma swapFailed_balanced h s x :
  bgPrimary s = Some x ->
  swaps (log s)
  = S (fadesBegun (log s) + fallbacksShown (log s) + awaitingSwap s) ->
  balanced (swapFailed h s).
Proof.
  intros Hx Hb. unfold balanced.
  destruct (swapFailed_effect h s) as (_ & -> & _).
  assert (awaitingSwap (swapFailed h s) = awaitingSwap s) as ->.
  { unfold swapFailed, startProactivePreload.
    change (bgPrimary (set_switching false s)) with (bgPrimary s). rewrite Hx.
    cbn [preloaded record onPage set_log set_page set_switching].
    by destruct (preloaded s). }
  rewrite Hx, swaps_snoc, fadesBegun_snoc, fallbacksShown_snoc.
  rewrite decide_False by done. rewrite decide_True by done.
  cbn [isFadeStarted]. lia.
Qed.

Lemma onDone_balanced sc h c s :
  balanced s -> distinctLayers c -> buffered s -> balanced (onDone sc h c s).
Proof.
  intros Hb Hc (_ & Hd & Hl & Ht).
  destruct (onDone_unfold sc h c s) as (s1 & -> & E1).
  assert (buffered s1) as H1.
  { rewrite E1. split; [exists (newPrimary c), (oldPrimary c); by repeat split|].
    split; [exact Hd|]. split; [|exact Ht].
    cbn [listeners record set_log set_switching set_bgBuffer set_bgPrimary onPage
           set_page set_listeners].
    by apply Forall_filter_keep. }
  assert (balanced s1) as B1.
  { rewrite E1. unfold balanced in *.
    cbn [log awaitingSwap record set_log set_switching set_bgBuffer set_bgPrimary
           onPage set_page set_listeners].
    rewrite swaps_snoc, fadesBegun_snoc, fallbacksShown_snoc.
    rewrite decide_False by done. rewrite decide_False by done.
    cbn [isFadeStarted]. lia. }
  assert (balanced (if queued s then updateBg sc h (set_queued false s1) else s1)) as B2.
  { destruct (queued s); [|exact B1]. apply updateBg_balanced; [exact H1|exact B1]. }
  exact B2.
Qed.

Lemma foldl_fire_balanced sc h ls : forall s,
  Forall (fun lc => distinctLayers (snd lc)) ls ->
  buffered s -> balanced s ->
  balanced (foldl (fire sc h) s ls).
Proof.
  induction ls as [|lc ls IH]; intros s Hls H Hb; [exact Hb|].
  cbn [foldl]. apply Forall_cons in Hls as [Hc Hls].
  apply IH; [exact Hls|by apply fire_buffered|].
  unfold fire. case_decide; [|exact Hb].
  apply onDone_balanced; [exact Hb|exact Hc|].
  destruct H as (Hxy & Hd & Hl & Ht). split; [exact Hxy|]. split; [exact Hd|].
  split; [|exact Ht]. cbn [listeners set_listeners]. by apply Forall_filter_keep.
Qed.

Lemma step_balanced sc h s e s' :
  buffered s -> balanced s -> step sc h s e = Some s' -> balanced s'.
Proof.
  intros H Hb Hstep. pose proof H as (Hxy & Hd & Hl & Ht).
  pose proof Hxy as (x & y & Hx & Hy & _).
  destruct e as [|r|r|c|l|c]; unfold step in Hstep.
  - destruct (bgLayer s); [|done]. injection Hstep as <-. by apply updateBg_balanced.
  - destruct (awaitingSwap s) as [|n] eqn:En; [done|]. injection Hstep as <-.
    unfold balanced in Hb. rewrite En in Hb.
    destruct r as [res|].
    + apply (crossfadeTo_balanced sc h _ _ x y); [exact Hx|exact Hy|].
      cbn [log awaitingSwap set_preloaded set_awaitingSwap]. lia.
    + apply (swapFailed_balanced h _ x); [exact Hx|].
      cbn [log awaitingSwap set_awaitingSwap]. lia.
  - destruct (awaitingPreload s) as [|n]; [done|]. injection Hstep as <-.
    destruct r; exact Hb.
  - destruct (withCid c (delayed s)) as [cl|]; [|done]. injection Hstep as <-.
    exact Hb.
  - injection Hstep as <-. unfold dispatch.
    apply foldl_fire_balanced; [|exact H|exact Hb]. by apply Forall_filter_keep.
  - destruct (withCid c (timers s)) as [cl|] eqn:E; [|done]. injection Hstep as <-.
    apply withCid_elem in E as [Hin _].
    assert (distinctLayers cl) as Hcl by (rewrite Forall_forall in Ht; by apply Ht).
    cbn [switching set_timers]. destruct (switching s); [|exact Hb].
    apply onDone_balanced; [exact Hb|exact Hcl|].
    split; [exact Hxy|]. split; [exact Hd|]. split; [exact Hl|].
    cbn [timers set_timers]. by apply Forall_filter_keep.
Qed.

Lemma run_balanced sc h es : forall s s',
  buffered s -> balanced s -> run sc h s es = Some s' -> balanced s'.
Proof.
  induction es as [|e es IH]; intros s s' Hs Hb Hr; cbn [run] in Hr.
  - by injection Hr as <-.
  - destruct (step sc h s e) as [s1|] eqn:E; [|done].
    eapply IH; [| |exact Hr]; [by eapply step_buffered|by eapply step_balanced].
Qed.

(** X13.  Revision A loses no switch.  After [initBg], at every point of
    every run, each time [updateBg] has taken the switch it has either begun
    a crossfade, or put the fallback image on the visible layer, or its load
    is still awaited. *)
Theorem revisionA_every_switch_settles h blur p es s :
  run ScriptA h (initBg ScriptA h blur (boot (Some BgLayer) p)) es = Some s ->
  swaps (log s)
  = (fadesBegun (log s) + fallbacksShown (log s) + awaitingSwap s)%nat.
Proof.
  intros Hr.
  apply (run_balanced ScriptA h es _ s (initBg_A_buffered h blur p)); [|exact Hr].
  rewrite initBg_A_state. reflexivity.
Qed.

(** One swap that loads, one that fails, one that is still loading. *)
Lemma revisionA_every_switch_settles_witness :
  let s0 := initBg ScriptA sampleHost (Some 12) (boot (Some BgLayer) blankPage) in
  let r1 := mkLoadResult whiteImage "https://picsum.photos/1920/1080?random=1" in
  let es := [SwapSettled (Some r1); TransitionEnd BgLayer2; RequestSwap;
             SwapSettled None; RequestSwap] in
  exists s, run ScriptA sampleHost s0 es = Some s
            /\ swaps (log s)
               = (fadesBegun (log s) + fallbacksShown (log s) + awaitingSwap s)%nat.
Proof.
  intros s0 r1 es.
  destruct (run ScriptA sampleHost s0 es) as [s|] eqn:E.
  - exists s. split; [reflexivity|].
    exact (revisionA_every_switch_settles sampleHost (Some 12) blankPage es s E).
  - vm_compute in E. discriminate E.
Defined.

(** ** The coordinator: switches and requests *)

Lemma updateBg_owed sc h s :
  (swaps (log (updateBg sc h s)) + pending (updateBg sc h s)
   <= S (swaps (log s) + pending s))%nat.
Proof.
  destruct (switching s) eqn:Hs.
  - rewrite (updateBg_while_switching sc h s Hs). unfold pending.
    cbn [queued log set_queued].
    assert (log (match sc with ScriptA => ensureBgBuffers s | ScriptB => s end) = log s)
      as -> by (destruct sc; [by rewrite ensureBgBuffers_log|done]).
    destruct (queued s); lia.
  - destruct (updateBg_idle sc h s Hs) as (_ & Hq & Hl). unfold pending.
    rewrite Hq, Hl. lia.
Qed.

Lemma onDone_owed sc h c s :
  (swaps (log (onDone sc h c s)) + pending (onDone sc h c s)
   <= swaps (log s) + pending s)%nat.
Proof.
  destruct (onDone_unfold sc h c s) as (s1 & -> & E1).
  destruct (preload_restart_frame
              (if queued s then updateBg sc h (set_queued false s1) else s1))
    as (_ & _ & _ & _ & Fq & _ & _ & _ & _ & _ & _ & Fl & _).
  unfold pending at 1. rewrite Fq, Fl.
  assert (swaps (log s1) = swaps (log s)) as L1.
  { rewrite E1.
    cbn [log record set_log set_switching set_bgBuffer set_bgPrimary onPage
           set_page set_listeners].
    rewrite swaps_snoc. rewrite decide_False by done. lia. }
  assert (queued s1 = queued s) as Q1 by (by rewrite E1).
  unfold pending. destruct (queued s) eqn:Q.
  - assert (switching (set_queued false s1) = false) as Hs by (by rewrite E1).
    destruct (updateBg_idle sc h _ Hs) as (_ & Hq & Hl).
    rewrite Hq, Hl. cbn [queued log set_queued]. rewrite L1. lia.
  - rewrite Q1, L1. lia.
Qed.

Lemma foldl_fire_owed sc h ls : forall s,
  (swaps (log (foldl (fire sc h) s ls)) + pending (foldl (fire sc h) s ls)
   <= swaps (log s) + pending s)%nat.
Proof.
  induction ls as [|lc ls IH]; intros s; [done|].
  cbn [foldl]. etrans; [apply IH|].
  unfold fire. case_decide; [|done].
  etrans; [apply onDone_owed|]. done.
Qed.

Lemma step_owed sc h s e s' :
  step sc h s e = Some s' ->
  (swaps (log s') + pending s'
   <= swaps (log s) + pending s + (if isRequest e then 1 else 0))%nat.
Proof.
  intros Hstep.
  destruct e as [|r|r|c|l|c]; unfold step in Hstep; cbn [isRequest].
  - destruct (bgLayer s); [|done]. injection Hstep as <-.
    pose proof (updateBg_owed sc h s). lia.
  - destruct (awaitingSwap s) as [|n]; [done|]. injection Hstep as <-.
    destruct r as [res|].
    + unfold swapLoaded, pending.
      rewrite crossfadeTo_swaps, crossfadeTo_queued. cbn [log queued set_preloaded
        set_awaitingSwap]. lia.
    + destruct (swapFailed_effect h (set_awaitingSwap n s)) as (_ & El & _).
      assert (queued (swapFailed h (set_awaitingSwap n s)) = queued s) as Eq.
      { unfold swapFailed, startProactivePreload.
        destruct (bgPrimary (set_switching false (set_awaitingSwap n s)));
          cbn [preloaded record onPage set_log set_page set_switching set_awaitingSwap];
          by destruct (preloaded s). }
      unfold pending. rewrite El, Eq. cbn [log bgPrimary set_awaitingSwap].
      destruct (bgPrimary s).
      * rewrite swaps_snoc. rewrite decide_False by done. lia.
      * rewrite app_nil_r. lia.
  - destruct (awaitingPreload s) as [|n]; [done|]. injection Hstep as <-.
    destruct r; unfold pending; cbn [log queued set_preloaded set_awaitingPreload]; lia.
  - destruct (withCid c (delayed s)) as [cl|]; [|done]. injection Hstep as <-.
    unfold pending.
    change (log (phase2 sc cl _)) with (log s).
    change (queued (phase2 sc cl _)) with (queued s). lia.
  - injection Hstep as <-. unfold dispatch.
    pose proof (foldl_fire_owed sc h (filter (fun lc => fst lc = l) (listeners s)) s).
    lia.
  - destruct (withCid c (timers s)) as [cl|]; [|done]. injection Hstep as <-.
    change (switching (set_timers _ s)) with (switching s).
    destruct (switching s).
    + etrans; [apply onDone_owed|]. apply Nat.eq_le_incl. unfold pending.
      change (log (set_timers _ s)) with (log s).
      change (queued (set_timers _ s)) with (queued s). lia.
    + apply Nat.eq_le_incl. unfold pending.
      change (log (set_timers _ s)) with (log s).
      change (queued (set_timers _ s)) with (queued s). lia.
Qed.

Lemma requests_cons e es :
  requests (e :: es) = ((if isRequest e then 1 else 0) + requests es)%nat.
Proof.
  unfold requests. destruct (isRequest e) eqn:E;
    [by rewrite filter_cons_True|by rewrite filter_cons_False by congruence].
Qed.

(** X14.  No swap without a request.  In both revisions, over any run from
    any state, the switches taken plus the request still held in [queued]
    grow by at most the number of requests made: completion handlers, timers
    and settled loads never start a swap of their own, they only serve the
    one request that was queued. *)
Theorem swaps_bounded_by_requests sc h es : forall s s',
  run sc h s es = Some s' ->
  (swaps (log s') + pending s' <= swaps (log s) + pending s + requests es)%nat.
Proof.
  induction es as [|e es IH]; intros s s' Hr; cbn [run] in Hr.
  - injection Hr as <-. unfold requests. cbn. lia.
  - destruct (step sc h s e) as [s1|] eqn:E; [|done].
    apply IH in Hr. apply step_owed in E. rewrite requests_cons. lia.
Qed.

(** Three clicks during the first crossfade of a page. *)
Lemma swaps_bounded_by_requests_witness :
  let s0 := initBg ScriptA sampleHost (Some 12) (boot (Some BgLayer) blankPage) in
  let r1 := mkLoadResult whiteImage "https://picsum.photos/1920/1080?random=1" in
  let es := [SwapSettled (Some r1); RequestSwap; RequestSwap; RequestSwap;
             TransitionEnd BgLayer2; Timeout 0%nat] in
  exists s, run ScriptA sampleHost s0 es = Some s
            /\ (swaps (log s) + pending s
                <= swaps (log s0) + pending s0 + requests es)%nat.
Proof.
  intros s0 r1 es.
  destruct (run ScriptA sampleHost s0 es) as [s|] eqn:E.
  - exists s. split; [reflexivity|].
    exact (swaps_bounded_by_requests ScriptA sampleHost es s0 s E).
  - vm_compute in E. discriminate E.
Defined.

(** ** Revision B: the page is never painted *)

Lemma crossfadeTo_guard sc h res s :
  bgPrimary s = None -> crossfadeTo sc h res s = s.
Proof. intros H. unfold crossfadeTo. by rewrite H. Qed.

Lemma updateBg_unbuffered h p s :
  unbuffered p s -> unbuffered p (updateBg ScriptB h s).
Proof.
  intros H. pose proof H as (Hp & Hb & Hd & Hl & Ht & H1 & H2 & Hg).
  rewrite updateBg_unfold by (by right).
  destruct (switching s); [exact H|].
  assert (unbuffered p (record Switched (set_switching true s))) as H'.
  { repeat split; try done. cbn [log record set_log set_switching].
    apply Forall_app. split; [exact Hg|]. by constructor. }
  destruct (preloaded s); [|exact H'].
  rewrite crossfadeTo_guard by exact Hp. exact H'.
Qed.

Lemma step_unbuffered h p s e s' :
  unbuffered p s -> step ScriptB h s e = Some s' -> unbuffered p s'.
Proof.
  intros H Hstep. pose proof H as (Hp & Hb & Hd & Hl & Ht & H1 & H2 & Hg).
  destruct e as [|r|r|c|l|c]; unfold step in Hstep.
  - destruct (bgLayer s); [|done]. injection Hstep as <-. by apply updateBg_unbuffered.
  - destruct (awaitingSwap s) as [|n]; [done|]. injection Hstep as <-.
    destruct r as [res|].
    + unfold swapLoaded. rewrite crossfadeTo_guard by exact Hp. exact H.
    + unfold swapFailed, startProactivePreload.
      change (bgPrimary (set_switching false (set_awaitingSwap n s))) with (bgPrimary s).
      rewrite Hp. cbn [preloaded set_switching set_awaitingSwap].
      destruct (preloaded s); exact H.
  - destruct (awaitingPreload s) as [|n]; [done|]. injection Hstep as <-.
    destruct r; exact H.
  - by rewrite Hd in Hstep.
  - injection Hstep as <-. unfold dispatch. rewrite Hl. exact H.
  - by rewrite Ht in Hstep.
Qed.

Lemma run_unbuffered h p es : forall s s',
  unbuffered p s -> run ScriptB h s es = Some s' -> unbuffered p s'.
Proof.
  induction es as [|e es IH]; intros s s' Hs Hr; cbn [run] in Hr.
  - by injection Hr as <-.
  - destruct (step ScriptB h s e) as [s1|] eqn:E; [|done].
    eapply IH; [|exact Hr]. by eapply step_unbuffered.
Qed.

Lemma only_switches l :
  Forall (fun o => o = Switched) l -> fadesBegun l = 0%nat /\ fallbacksShown l = 0%nat.
Proof.
  induction 1 as [|o l -> _ [IH1 IH2]]; [done|].
  unfold fadesBegun, fallbacksShown in *.
  rewrite filter_cons_False by done. rewrite filter_cons_False by done. done.
Qed.

(** X15.  Revision B never paints a background.  Its calls of
    [ensureBgBuffers] are commented out, so [bgPrimary] and [bgBuffer] stay
    [null] for good: after [initBg], whatever requests, loads, frames,
    [transitionend] events and timers follow, neither layer's
    [backgroundImage] or [fade] class is ever written, no crossfade begins
    and the fallback image is never shown. *)
Theorem revisionB_never_paints h blur p es s :
  run ScriptB h (initBg ScriptB h blur (boot (Some BgLayer) p)) es = Some s ->
  dom1 (page s) = dom1 p /\ dom2 (page s) = dom2 p
  /\ bgPrimary s = None /\ bgBuffer s = None
  /\ fadesBegun (log s) = 0%nat /\ fallbacksShown (log s) = 0%nat.
Proof.
  intros Hr.
  assert (unbuffered p (initBg ScriptB h blur (boot (Some BgLayer) p))) as H0.
  { rewrite initBg_B_state. repeat split; try done.
    - cbn [page dom1]. destruct blur; [rewrite applyBgBlur_is_plain|]; reflexivity.
    - cbn [page dom2]. destruct blur; [rewrite applyBgBlur_is_plain|]; reflexivity.
    - by repeat constructor. }
  destruct (run_unbuffered h p es _ s H0 Hr) as (Hp & Hb & _ & _ & _ & H1 & H2 & Hg).
  destruct (only_switches _ Hg). done.
Qed.

(** A failed load, a click, a load that succeeds, a stray [transitionend]. *)
Lemma revisionB_never_paints_witness :
  let s0 := initBg ScriptB sampleHost (Some 12) (boot (Some BgLayer) blankPage) in
  let r := mkLoadResult whiteImage (FALLBACK_BG sampleHost) in
  let es := [SwapSettled None; RequestSwap; SwapSettled (Some r);
             TransitionEnd BgLayer; PreloadSettled (Some r)] in
  exists s, run ScriptB sampleHost s0 es = Some s
            /\ dom1 (page s) = dom1 blankPage /\ bgPrimary s = None.
Proof.
  intros s0 r es.
  destruct (run ScriptB sampleHost s0 es) as [s|] eqn:E.
  - exists s. split; [reflexivity|].
    destruct (revisionB_never_paints sampleHost (Some 12) blankPage es s E)
      as (H1 & _ & H3 & _).
    split; [exact H1|exact H3].
  - vm_compute in E. discriminate E.
Defined.

(** ** Revision B: tone application and the stored theme *)

(** In revision B, as long as no buffer exists, no event of the rotation
    writes to the page. *)
Lemma step_B_page h s e s' :
  bgPrimary s = None -> delayed s = [] -> listeners s = [] -> timers s = [] ->
  step ScriptB h s e = Some s' ->
  page s' = page s
  /\ bgPrimary s' = None /\ delayed s' = [] /\ listeners s' = [] /\ timers s' = [].
Proof.
  intros Hp Hd Hl Ht Hstep.
  destruct e as [|r|r|c|l|c]; unfold step in Hstep.
  - destruct (bgLayer s); [|done]. injection Hstep as <-.
    rewrite updateBg_unfold by (by right).
    destruct (switching s); [done|].
    destruct (preloaded s); [|done].
    by rewrite crossfadeTo_guard by exact Hp.
  - destruct (awaitingSwap s) as [|n]; [done|]. injection Hstep as <-.
    destruct r as [res|].
    + unfold swapLoaded. by rewrite crossfadeTo_guard by exact Hp.
    + unfold swapFailed, startProactivePreload.
      change (bgPrimary (set_switching false (set_awaitingSwap n s))) with (bgPrimary s).
      rewrite Hp. cbn [preloaded set_switching set_awaitingSwap].
      by destruct (preloaded s).
  - destruct (awaitingPreload s) as [|n]; [done|]. injection Hstep as <-.
    by destruct r.
  - by rewrite Hd in Hstep.
  - injection Hstep as <-. unfold dispatch. by rewrite Hl.
  - by rewrite Ht in Hstep.
Qed.

Lemma run_B_page h es : forall s s',
  bgPrimary s = None -> delayed s = [] -> listeners s = [] -> timers s = [] ->
  run ScriptB h s es = Some s' ->
  page s' = page s
  /\ bgPrimary s' = None /\ delayed s' = [] /\ listeners s' = [] /\ timers s' = [].
Proof.
  induction es as [|e es IH]; intros s s' Hp Hd Hl Ht Hr; cbn [run] in Hr.
  - by injection Hr as <-.
  - destruct (step ScriptB h s e) as [s1|] eqn:E; [|done].
    destruct (step_B_page h s e s1 Hp Hd Hl Ht E) as (E1 & Hp1 & Hd1 & Hl1 & Ht1).
    destruct (IH s1 s' Hp1 Hd1 Hl1 Ht1 Hr) as (E2 & ?). by rewrite E2, E1.
Qed.

Lemma initBg_B_page h blur p :
  let loaded := page (initBg ScriptB h blur (boot (Some BgLayer) p)) in
  bodyClass loaded = bodyClass p
  /\ localStorage loaded !! "dove-theme" = Some "dark".
Proof.
  cbv zeta. rewrite initBg_B_state. cbn [page].
  destruct blur as [v|].
  - rewrite applyBgBlur_is_plain. unfold applyBgBlur_plain. cbv zeta.
    rewrite localStorage_setItem, localStorage_setProperty.
    rewrite lookup_insert_ne by done. split; [reflexivity|apply applyTone_B_theme].
  - split; [reflexivity|apply applyTone_B_theme].
Qed.

(** C10 (as the code has it).  In revision B [applyTone] stores its tone
    under the key [dove-theme], the key [setTheme] stores the manual choice
    under, and switches the classes [light]/[dark] of the document element;
    it sets no style property (revision A sets [--bg-overlay] and leaves the
    storage alone).  The tone [crossfadeTo] passes is ['light'] or ['dark'],
    and the call in [initBg] does overwrite the stored choice with ['dark']
    at every page load.  But the call in [crossfadeTo] is never reached: the
    buffers are never created, so [crossfadeTo] returns before [applyTone]
    in every run, and a theme chosen at any point of a run stays stored
    whatever requests, loads, [transitionend] events and timers follow. *)
Theorem revisionB_rotation_never_applies_tone h im (t : string) (p pt : Page)
    (blur : option Z) :
  setTheme t p = Some pt ->
  let tone := orDark (analyzeTone ScriptB h im) in
  let p' := applyTone ScriptB tone pt in
  (tone = Some "light" \/ tone = Some "dark")
  /\ localStorage pt !! "dove-theme" = Some t
  /\ localStorage p' !! "dove-theme" = Some (String_ tone)
  /\ String_ tone ∈ rootClass p'
  /\ rootStyle p' = rootStyle p
  /\ localStorage (applyTone ScriptA tone pt) !! "dove-theme" = Some t
  /\ is_Some (rootStyle (applyTone ScriptA tone pt) !! "--bg-overlay")
  /\ localStorage (page (initBg ScriptB h blur (boot (Some BgLayer) pt)))
       !! "dove-theme" = Some "dark"
  /\ (forall q es1 s1 qt es2 s2,
        run ScriptB h (initBg ScriptB h blur (boot (Some BgLayer) q)) es1 = Some s1 ->
        setTheme t (page s1) = Some qt ->
        run ScriptB h (set_page qt s1) es2 = Some s2 ->
        localStorage (page s2) !! "dove-theme" = Some t).
Proof.
  intros Hset tone p'.
  pose proof (setTheme_Some t p pt Hset) as Ept.
  assert (Ht : localStorage pt !! "dove-theme" = Some t)
    by (rewrite Ept; cbn [localStorage]; by rewrite lookup_insert_eq).
  assert (Hr : rootStyle pt = rootStyle p) by (by rewrite Ept).
  split; [apply orDark_analyzeTone|].
  split; [exact Ht|].
  split; [apply applyTone_B_theme|].
  split; [unfold p'; cbn; set_solver|].
  split; [by rewrite <- Hr|].
  split; [cbn [applyTone]; by rewrite applyTone_A_localStorage|].
  split.
  { cbn [applyTone].
    destruct (orDark_analyzeTone ScriptB h im) as [E|E]; fold tone in E; rewrite E.
    - rewrite applyTone_A_light. cbn.
      rewrite lookup_insert_ne by done. rewrite lookup_insert_eq. eauto.
    - rewrite applyTone_A_dark. cbn.
      rewrite lookup_insert_ne by done. rewrite lookup_insert_eq. eauto. }
  split; [by destruct (initBg_B_page h blur pt) as [_ ?]|].
  intros q es1 s1 qt es2 s2 Hr1 Hq Hr2.
  rewrite initBg_B_state in Hr1.
  apply run_B_page in Hr1 as (_ & Hp1 & Hd1 & Hl1 & Ht1); [|reflexivity..].
  destruct (run_B_page h es2 (set_page qt s1) s2 Hp1 Hd1 Hl1 Ht1 Hr2) as (-> & _).
  cbn [page set_page]. apply setTheme_Some in Hq as ->. cbn [localStorage].
  by rewrite lookup_insert_eq.
Qed.

(** The theme light is chosen after a page load; a swap, a request, a
    preload and a [transitionend] follow. *)
Lemma revisionB_rotation_never_applies_tone_witness :
  let s0 := initBg ScriptB sampleHost (Some 12) (boot (Some BgLayer) blankPage) in
  let r := mkLoadResult whiteImage (FALLBACK_BG sampleHost) in
  let es := [SwapSettled (Some r); RequestSwap; PreloadSettled (Some r);
             TransitionEnd BgLayer] in
  exists pt s2,
    setTheme "light" (page s0) = Some pt
    /\ run ScriptB sampleHost (set_page pt s0) es = Some s2
    /\ localStorage (page s2) !! "dove-theme" = Some "light".
Proof.
  intros s0 r es.
  destruct (setTheme "light" (page s0)) as [pt|] eqn:E;
    [|vm_compute in E; discriminate E].
  pose proof (setTheme_Some _ _ _ E) as Ept. subst pt.
  match type of E with _ = Some ?x => set (pt := x) in * end.
  destruct (run ScriptB sampleHost (set_page pt s0) es) as [s2|] eqn:E2;
    [|vm_compute in E2; discriminate E2].
  exists pt, s2. split; [exact E|]. split; [exact E2|].
  exact (proj2 (proj2 (proj2 (proj2 (proj2 (proj2 (proj2 (proj2
    (revisionB_rotation_never_applies_tone sampleHost whiteImage "light" (page s0) pt
       (Some 12) E))))))))
    blankPage [] s0 pt es s2 eq_refl E E2).
Defined.

(** Such a run: on a page of revision B the first click on the toggle
    stores the theme auto; then images classified light arrive for a swap
    and for the preload, with requests and [transitionend] events between
    them.  The stored theme is as the click left it. *)
Lemma rotation_B_keeps_stored_theme :
  let s0 := initBg ScriptB sampleHost (Some 12) (boot (Some BgLayer) blankPage) in
  let r := mkLoadResult whiteImage (FALLBACK_BG sampleHost) in
  let es := [SwapSettled (Some r); RequestSwap; PreloadSettled (Some r);
             TransitionEnd BgLayer; RequestSwap; TransitionEnd BgLayer2] in
  let theme (pg : Page) := localStorage pg !! "dove-theme" in
  analyzeTone ScriptB sampleHost whiteImage = Some "light"
  /\ theme (page s0) = Some "dark"
  /\ (theme <$> toggleThemeClick (page s0)) = Some (Some "auto")
  /\ (toggleThemeClick (page s0) ≫= fun pg =>
        (fun s => theme (page s)) <$> run ScriptB sampleHost (set_page pg s0) es)
     = Some (Some "auto").
Proof. vm_compute. repeat split; reflexivity. Qed.

(** ** Completion and the preload slot *)

Lemma ensureBgBuffers_awaitingPreload s :
  awaitingPreload (ensureBgBuffers s) = awaitingPreload s.
Proof. unfold ensureBgBuffers. by destruct (bgLayer s), (bgPrimary s). Qed.

Lemma updateBg_awaitingPreload sc h s :
  awaitingPreload (updateBg sc h s) = awaitingPreload s.
Proof.
  unfold updateBg. cbv zeta.
  assert (awaitingPreload
            (match sc with ScriptA => ensureBgBuffers s | ScriptB => s end)
          = awaitingPreload s) as E
    by (destruct sc; [apply ensureBgBuffers_awaitingPreload|done]).
  set (s0 := match sc with ScriptA => ensureBgBuffers s | ScriptB => s end) in *.
  destruct (switching s0); [exact E|].
  cbn [preloaded record set_log set_switching].
  destruct (preloaded s0); [|exact E].
  destruct (crossfadeTo_frame sc h l
              (set_preloaded None (record Switched (set_switching true s0))))
    as (_ & _ & _ & _ & _ & ->).
  exact E.
Qed.

(** X16.  Every completion of a crossfade empties the preload slot and
    starts exactly one new load for it, in both revisions and whether or not
    a queued request is served on the way: an image that a preload delivered
    while the crossfade was running is dropped unless the queued request has
    just used it. *)
Theorem completion_restarts_preload sc h c s :
  preloaded (onDone sc h c s) = None
  /\ awaitingPreload (onDone sc h c s) = S (awaitingPreload s).
Proof.
  destruct (onDone_unfold sc h c s) as (s1 & -> & E1).
  destruct (preload_restart_frame
              (if queued s then updateBg sc h (set_queued false s1) else s1))
    as (_ & _ & _ & _ & _ & _ & _ & _ & _ & _ & _ & _ & -> & ->).
  split; [done|]. f_equal.
  destruct (queued s); [rewrite updateBg_awaitingPreload|]; by rewrite E1.
Qed.

(** ** A request behind a load that fails *)

Lemma swapFailed_queued h s : queued (swapFailed h s) = queued s.
Proof.
  unfold swapFailed, startProactivePreload.
  destruct (bgPrimary (set_switching false s));
    cbn [preloaded record onPage set_log set_page set_switching];
    by destruct (preloaded s).
Qed.

Lemma swapFailed_awaitingSwap h s : awaitingSwap (swapFailed h s) = awaitingSwap s.
Proof.
  unfold swapFailed, startProactivePreload.
  destruct (bgPrimary (set_switching false s));
    cbn [preloaded record onPage set_log set_page set_switching];
    by destruct (preloaded s).
Qed.

(** X17.  The [catch] block of [updateBg] does not look at [queued].  A
    request that arrives while the load of a swap is awaited is queued; when
    that load then fails altogether, [switching] is cleared but the queued
    request is neither served nor dropped.  The next request takes the switch
    at once, and [queued] still stands behind it. *)
Theorem failed_load_leaves_request_queued sc h s n :
  is_Some (bgLayer s) -> switching s = true -> awaitingSwap s = S n ->
  exists s',
    run sc h s [RequestSwap; SwapSettled None] = Some s'
    /\ switching s' = false
    /\ queued s' = true
    /\ swaps (log s') = swaps (log s)
    /\ awaitingSwap s' = n
    /\ queued (updateBg sc h s') = true
    /\ swaps (log (updateBg sc h s')) = S (swaps (log s')).
Proof.
  intros [l Hl] Hs Ha.
  set (s0 := match sc with ScriptA => ensureBgBuffers s | ScriptB => s end).
  assert (awaitingSwap s0 = S n /\ log s0 = log s /\ bgPrimary s0 = bgPrimary s0)
    as (Ha0 & Hl0 & _).
  { unfold s0. destruct sc; [|done]. rewrite ensureBgBuffers_log.
    split; [|done]. unfold ensureBgBuffers. by destruct (bgLayer s), (bgPrimary s). }
  cbn [run]. unfold step at 1. rewrite Hl.
  rewrite (updateBg_while_switching sc h s Hs). fold s0.
  unfold step. cbn [awaitingSwap set_queued]. rewrite Ha0.
  eexists. split; [reflexivity|].
  set (s1 := set_awaitingSwap n (set_queued true s0)).
  destruct (swapFailed_effect h s1) as (E1 & E2 & _).
  assert (queued (swapFailed h s1) = true) as Eq by (by rewrite swapFailed_queued).
  assert (swaps (log (swapFailed h s1)) = swaps (log s)) as El.
  { rewrite E2. change (log s1) with (log s0). rewrite Hl0.
    destruct (bgPrimary s1); [|by rewrite app_nil_r].
    rewrite swaps_snoc. rewrite decide_False by done. lia. }
  split; [exact E1|]. split; [exact Eq|]. split; [exact El|].
  split; [by rewrite swapFailed_awaitingSwap|].
  destruct (updateBg_idle sc h _ E1) as (_ & Hq & Hsw).
  split; [by rewrite Hq|exact Hsw].
Qed.

(** A click while the first image of a page is loading. *)
Lemma failed_load_leaves_request_queued_witness :
  let s := initBg ScriptA sampleHost (Some 12) (boot (Some BgLayer) blankPage) in
  is_Some (bgLayer s) /\ switching s = true /\ awaitingSwap s = 1%nat
  /\ exists s',
       run ScriptA sampleHost s [RequestSwap; SwapSettled None] = Some s'
       /\ switching s' = false /\ queued s' = true.
Proof.
  intros s.
  assert (is_Some (bgLayer s)) as H1 by (vm_compute; eauto).
  assert (switching s = true) as H2 by reflexivity.
  assert (awaitingSwap s = 1%nat) as H3 by reflexivity.
  split; [exact H1|]. split; [exact H2|]. split; [exact H3|].
  destruct (failed_load_leaves_request_queued ScriptA sampleHost s 0%nat H1 H2 H3)
    as (s' & E & Hs & Hq & _).
  exists s'. split; [exact E|]. split; [exact Hs|exact Hq].
Defined.

(** ** Revision A: a completed swap *)

Lemma onDone_idle sc h c s :
  queued s = false ->
  let s' := onDone sc h c s in
  page s' = setFade (oldPrimary c) true (page s)
  /\ bgPrimary s' = Some (newPrimary c) /\ bgBuffer s' = Some (oldPrimary c)
  /\ switching s' = false /\ queued s' = false
  /\ log s' = log s ++ [FadeDone (cid c)].
Proof.
  intros Hq. cbv zeta.
  destruct (onDone_unfold sc h c s) as (s1 & -> & E1). rewrite Hq.
  destruct (preload_restart_frame s1)
    as (_ & -> & -> & -> & -> & -> & _ & _ & _ & _ & _ & -> & _).
  rewrite E1. repeat split; try reflexivity. exact Hq.
Qed.

(** X18.  Revision A, a swap from a clean state (no request queued, no
    listener on the buffer and no timer left over from an earlier crossfade):
    whichever comes first, [transitionend] on the layer fading in or the
    safety-net timer, it completes the swap.  Afterwards the former buffer
    shows the new image without [fade], the former primary is hidden and
    still holds its own image, the two have exchanged roles and [switching]
    is clear. *)
Theorem completed_swap_shows_image h res s p b e :
  bgPrimary s = Some p -> bgBuffer s = Some b -> p ≠ b ->
  switching s = true -> queued s = false ->
  Forall (fun x => cid x ≠ nextCid s) (timers s) ->
  Forall (fun lc => fst lc ≠ b) (listeners s) ->
  e = TransitionEnd b \/ e = Timeout (nextCid s) ->
  exists s2,
    step ScriptA h (crossfadeTo ScriptA h res s) e = Some s2
    /\ layerDom b (page s2) = mkLayerDom (cssUrl (url res)) false
    /\ layerDom p (page s2) = mkLayerDom (backgroundImage (layerDom p (page s))) true
    /\ bgPrimary s2 = Some b /\ bgBuffer s2 = Some p
    /\ switching s2 = false
    /\ log s2 = log s ++ [FadeStarted (nextCid s); FadeDone (nextCid s)].
Proof.
  intros Hp Hb Hne Hs Hq Hft Hfl He.
  destruct (crossfadeTo_armed ScriptA h res s p b Hp Hb) as (Hl & _ & Ht & Hli & _).
  set (c := mkClosure (nextCid s) p b) in *.
  set (s1 := crossfadeTo ScriptA h res s) in *.
  assert (queued s1 = false) as Hq1 by (unfold s1; by rewrite crossfadeTo_queued).
  assert (exists X, step ScriptA h s1 e = Some (onDone ScriptA h c X)
                    /\ page X = page s1 /\ queued X = false /\ log X = log s1)
    as (X & -> & HX1 & HX2 & HX3).
  { destruct He as [-> | ->].
    - destruct (listeners_snoc_fresh b c (listeners s) Hfl) as [Hw Hf].
      unfold step, dispatch. rewrite Hli, Hw. cbn [foldl]. unfold fire.
      rewrite Hli.
      rewrite decide_True
        by (apply elem_of_app; right; by apply list_elem_of_singleton).
      rewrite Hf. eexists. split; [reflexivity|]. by repeat split.
    - destruct (withCid_snoc_fresh (nextCid s) (timers s) c Hft eq_refl) as [Hw Hf].
      unfold step. rewrite Ht, Hw, Hf. cbn [switching set_timers].
      unfold s1 at 1. rewrite crossfadeTo_switching, Hs.
      eexists. split; [reflexivity|]. by repeat split. }
  eexists. split; [reflexivity|].
  destruct (onDone_idle ScriptA h c X HX2) as (-> & -> & -> & -> & _ & ->).
  rewrite HX1, HX3, Hl, <- app_assoc. cbn [oldPrimary newPrimary cid c app].
  unfold s1. rewrite (crossfadeTo_page ScriptA h res s p b Hp Hb). cbv zeta.
  set (pg := applyTone ScriptA _ _).
  assert (layerDom b pg = mkLayerDom (cssUrl (url res)) (fade (layerDom b (page s))))
    as Eb by (unfold pg; by rewrite layerDom_applyTone, setBackgroundImage_layerDom).
  assert (layerDom p pg = layerDom p (page s)) as Ep.
  { unfold pg. rewrite layerDom_applyTone. unfold setBackgroundImage.
    by rewrite layerDom_setLayerDom_ne. }
  assert (forall l l' v q, l ≠ l' -> layerDom l (setFade l' v q) = layerDom l q) as Hoth
    by (intros l l' v q Hll; unfold setFade; by rewrite layerDom_setLayerDom_ne).
  repeat split; try done.
  - rewrite Hoth by done. rewrite setFade_layerDom. rewrite Hoth by done.
    by rewrite Eb.
  - rewrite setFade_layerDom. rewrite Hoth by done. rewrite setFade_layerDom.
    cbn [backgroundImage]. by rewrite Ep.
Qed.

(** The first swap of a page, completed by [transitionend]. *)
Lemma completed_swap_shows_image_witness :
  let s := initBg ScriptA sampleHost (Some 12) (boot (Some BgLayer) blankPage) in
  let res := mkLoadResult whiteImage "https://picsum.photos/1920/1080?random=1" in
  exists s2,
    step ScriptA sampleHost (crossfadeTo ScriptA sampleHost res s) (TransitionEnd BgLayer2)
      = Some s2
    /\ layerDom BgLayer2 (page s2) = mkLayerDom (cssUrl (url res)) false
    /\ bgPrimary s2 = Some BgLayer2.
Proof.
  intros s res.
  destruct (completed_swap_shows_image sampleHost res s BgLayer BgLayer2
              (TransitionEnd BgLayer2) eq_refl eq_refl ltac:(discriminate)
              eq_refl eq_refl (Forall_nil_2 _) (Forall_nil_2 _) (or_introl eq_refl))
    as (s2 & E & H1 & _ & H3 & _).
  exists s2. split; [exact E|]. split; [exact H1|exact H3].
Defined.

(** ** The search box *)

Lemma shown_matchDisplay rl v c :
  v ≠ "" ->
  shown (matchDisplay rl v c) = includes (cardText rl c) v.
Proof.
  intros Hv. unfold matchDisplay. rewrite bool_decide_false by done.
  by destruct (includes (cardText rl c) v).
Qed.

(** While searching, a section has a visible card exactly when one of its
    cards matches. *)
Lemma sectionVisible_hit rl v cs members :
  v ≠ "" ->
  sectionVisible ((fun c => setCardDisplay (matchDisplay rl v c) c) <$> cs) members = true
  <-> exists i c, i ∈ members /\ cs !! i = Some c /\ includes (cardText rl c) v = true.
Proof.
  intros Hv. unfold sectionVisible. rewrite existsb_exists. split.
  - intros (i & Hin & Hi). rewrite list_lookup_fmap in Hi.
    destruct (cs !! i) as [c|] eqn:E; [|done]. cbn in Hi.
    rewrite shown_matchDisplay in Hi by done.
    exists i, c. split; [by apply list_elem_of_In|done].
  - intros (i & c & Hin & E & Hc). exists i. split; [by apply list_elem_of_In|].
    rewrite list_lookup_fmap, E. cbn. by rewrite shown_matchDisplay.
Qed.

(** The keys [hasVisibleByCat] ends with: those it had, and the category
    of every section with a visible card. *)
Lemma searchSections_has cs secs : forall ms has cat,
  cat ∈ (searchSections cs secs ms has).2
  <-> cat ∈ has
      \/ exists k sec, secs !! k = Some sec /\ orEmpty (sectionCat sec) = cat
                       /\ sectionVisible cs (default [] (ms !! k)) = true.
Proof.
  induction secs as [|sec secs IH]; intros ms has cat.
  - cbn. split; [by left|]. intros [?|(k & sec & ? & _)]; done.
  - cbn [searchSections]. cbv zeta.
    set (visible := sectionVisible cs (default [] (head ms))).
    set (has1 := if visible then {[orEmpty (sectionCat sec)]} ∪ has else has).
    pose proof (IH (tail ms) has1 cat) as IH'.
    destruct (searchSections cs secs (tail ms) has1) as [secs' has'].
    cbn [snd] in *. rewrite IH'. clear IH'.
    assert (visible = sectionVisible cs (default [] (ms !! 0%nat))) as Hv0
      by (unfold visible; by rewrite head_lookup).
    split.
    + intros [Hin|(k & sec' & Hk & Hc & Hv)].
      * unfold has1 in Hin. destruct visible eqn:Ev; [|by left].
        apply elem_of_union in Hin as [Hin|Hin]; [|by left].
        apply elem_of_singleton in Hin. right. exists 0%nat, sec.
        by rewrite <- Hv0.
      * right. exists (S k), sec'. rewrite lookup_tail in Hv. done.
    + intros [Hin|(k & sec' & Hk & Hc & Hv)].
      * left. unfold has1. destruct visible; [|done].
        apply elem_of_union. by right.
      * destruct k as [|k].
        -- injection Hk as <-. left. unfold has1. rewrite Hv0, Hv.
           apply elem_of_union. left. by apply elem_of_singleton.
        -- right. exists k, sec'. by rewrite lookup_tail.
Qed.

(** [filter()] with a query. *)
Lemma filterLinks_search rl u :
  query rl u ≠ "" ->
  let cs := (fun c => setCardDisplay (matchDisplay rl (query rl u) c) c) <$> cards u in
  let r := searchSections cs (sections (cats u)) (sectionCards u) ∅ in
  let items :=
    match catList (cats u) with
    | Some items =>
        (fun it =>
           if bool_decide (orEmpty (dataCat it) ∈ r.2) || inherited rl (orEmpty (dataCat it))
           then "" else "none") <$> items
    | None => itemDisplay u
    end in
  filterLinks rl u
  = mkLinksUi cs (sectionCards u) items (catChildren u)
      (match catList (cats u) with
       | Some _ => (fun _ => if existsb shown items then "" else "none") <$> sidebar u
       | None => sidebar u
       end)
      (mkCatUi (catList (cats u)) r.1 (currentCat (cats u)) (searchText (cats u))
         (catPage (cats u))).
Proof.
  intros Hv. cbv zeta. unfold filterLinks. cbv zeta.
  rewrite bool_decide_false by done.
  by destruct (searchSections _ (sections (cats u)) (sectionCards u) ∅).
Qed.

(** X19.  While a query is in the search box, the sidebar lists a category
    exactly when some section of that category holds a card whose text
    includes the query, or when the category's name is one that a fresh
    object answers to through [Object.prototype] (the lookup table is an
    object literal); a missing [data-cat] counts as the empty name on both
    sides.  The sidebar itself is hidden exactly when no category is
    listed. *)
Theorem search_lists_categories_with_results rl u items j it :
  query rl u ≠ "" ->
  catList (cats u) = Some items ->
  items !! j = Some it ->
  let u' := filterLinks rl u in
  let found :=
    exists k sec i c,
      sections (cats u) !! k = Some sec
      /\ orEmpty (sectionCat sec) = orEmpty (dataCat it)
      /\ i ∈ default [] (sectionCards u !! k)
      /\ cards u !! i = Some c
      /\ includes (cardText rl c) (query rl u) = true in
  (itemDisplay u' !! j = Some "" \/ itemDisplay u' !! j = Some "none")
  /\ (itemDisplay u' !! j = Some ""
      <-> found \/ inherited rl (orEmpty (dataCat it)) = true)
  /\ (forall d, sidebar u = Some d ->
      (sidebar u' = Some "none" <-> Forall (fun x => x = "none") (itemDisplay u'))
      /\ (sidebar u' = Some "" \/ sidebar u' = Some "none")).
Proof.
  intros Hv Hc Hj u' found. unfold u'. rewrite (filterLinks_search rl u Hv).
  cbv zeta. rewrite Hc. cbn [itemDisplay sidebar].
  set (cs := (fun c => setCardDisplay (matchDisplay rl (query rl u) c) c) <$> cards u).
  set (has := (searchSections cs (sections (cats u)) (sectionCards u) ∅).2).
  rewrite list_lookup_fmap, Hj. cbn [fmap option_fmap option_map].
  assert (orEmpty (dataCat it) ∈ has <-> found) as Hhas.
  { unfold has. rewrite searchSections_has. split.
    - intros [Hin|(k & sec & Hk & Hcat & Hvis)]; [by apply elem_of_empty in Hin|].
      apply (sectionVisible_hit rl _ _ _ Hv) in Hvis as (i & c & Hi & Hci & Hinc).
      by exists k, sec, i, c.
    - intros (k & sec & i & c & Hk & Hcat & Hi & Hci & Hinc). right.
      exists k, sec. split; [done|]. split; [done|].
      apply (sectionVisible_hit rl _ _ _ Hv). by exists i, c. }
  split; [|split].
  - destruct (bool_decide _ || inherited rl _); [by left|by right].
  - rewrite <- Hhas. destruct (bool_decide_reflect (orEmpty (dataCat it) ∈ has)) as [Hin|Hin];
      destruct (inherited rl (orEmpty (dataCat it))); cbn; split; try done;
      try (intros _; by left); try (intros _; by right); try (intros [?|?]; done).
  - intros d Hd. rewrite Hd. cbn [fmap option_fmap option_map].
    set (ds := _ <$> items).
    assert (existsb shown ds = false <-> Forall (fun x => x = "none") ds) as Hex.
    { clear. induction ds as [|x ds IH]; [by split|].
      cbn [existsb]. rewrite orb_false_iff, IH, Forall_cons. unfold shown.
      destruct (bool_decide_reflect (x = "none")); cbn; split; intros [? ?]; done. }
    destruct (existsb shown ds) eqn:Ex.
    + split; [|by left]. split; [done|]. intros HF. apply Hex in HF. congruence.
    + split; [|by right]. split; [|done]. intros _. by apply Hex.
Qed.

(** The sample page with [Git] typed into the box. *)
Lemma search_lists_categories_with_results_witness :
  let u := sampleLinks true "  Git " in
  query sampleRealm u ≠ ""
  /\ itemDisplay (filterLinks sampleRealm u) !! 0%nat = Some ""
  /\ itemDisplay (filterLinks sampleRealm u) !! 1%nat = Some "none".
Proof.
  intros u.
  assert (query sampleRealm u ≠ "") as Hq by (vm_compute; discriminate).
  split; [exact Hq|].
  pose proof (search_lists_categories_with_results sampleRealm u
                [mkCatItem (JsString "dev") true; mkCatItem (JsString "news") false]
                0%nat (mkCatItem (JsString "dev") true) Hq eq_refl eq_refl) as H0.
  split; [|vm_compute; reflexivity].
  apply (proj2 H0). left.
  exists 0%nat, (mkSectionEl (JsString "dev") ""), 0%nat,
    (mkCard (JsString "GitHub") (JsString "github.com") (JsString "Code hosting")
       (JsString "https://github.com/") "").
  repeat split; try reflexivity. cbn. apply list_elem_of_here.
Defined.

Lemma head_filter_fmap {A} (P Q : A -> Prop) `{!forall x, Decision (P x)}
    `{!forall x, Decision (Q x)} (g : A -> A) (l : list A) :
  (forall x, P (g x) <-> Q x) ->
  head (filter P (g <$> l)) = g <$> head (filter Q l).
Proof.
  intros HPQ. induction l as [|x l IH]; [done|].
  rewrite fmap_cons. destruct (decide (Q x)) as [Hq|Hq].
  - rewrite (filter_cons_True Q) by done.
    rewrite (filter_cons_True P) by (by apply HPQ). done.
  - rewrite (filter_cons_False Q) by done.
    rewrite (filter_cons_False P) by (by rewrite HPQ). exact IH.
Qed.

(** X20.  Enter after a search.  With a query in the box, Enter opens the
    [href] of the first card, in document order, whose text includes the
    lower-cased query, and nothing at all when that card has no [href]; only
    when no card matches does it hand the query, trimmed but not lower-cased,
    to the search engine.  Shift+Enter always goes to the search engine. *)
Theorem enter_opens_first_match rl u e :
  query rl u ≠ "" ->
  trim (default "" (searchText (cats u))) ≠ "" ->
  onEnter false (filterLinks rl u) e
  = match head (filter (fun c => includes (cardText rl c) (query rl u) = true) (cards u)) with
    | Some c => if falsy (href c) then None else Some (orEmpty (href c))
    | None => externalSearch u e
    end
  /\ onEnter true (filterLinks rl u) e = externalSearch u e
  /\ externalSearch u e
     = match currentEngineUrl (trim (default "" (searchText (cats u)))) e with
       | Some url => if bool_decide (url = "") then None else Some url
       | None => None
       end.
Proof.
  intros Hv Ht. rewrite (filterLinks_search rl u Hv). cbv zeta.
  unfold onEnter, externalSearch. cbn [cats searchText cards].
  rewrite !bool_decide_false by done. split; [|done].
  set (g := fun c => setCardDisplay (matchDisplay rl (query rl u) c) c).
  assert (head (filter (fun c => shown (cardDisplay c) = true) (g <$> cards u))
          = g <$> head (filter (fun c => includes (cardText rl c) (query rl u) = true)
                         (cards u))) as Hh.
  { apply head_filter_fmap. intros c. unfold g. cbn [cardDisplay setCardDisplay].
    by rewrite shown_matchDisplay. }
  destruct (filter _ (g <$> cards u)) as [|c' rest]; cbn [head] in Hh;
    destruct (head (filter _ (cards u))) as [c|]; cbn in Hh; try done.
  by injection Hh as ->.
Qed.

(** [Git] on the sample page: Enter opens the first of the two matching
    cards. *)
Lemma enter_opens_first_match_witness :
  let u := sampleLinks true "  Git " in
  query sampleRealm u ≠ ""
  /\ trim (default "" (searchText (cats u))) ≠ ""
  /\ onEnter true (filterLinks sampleRealm u) sampleEngines = externalSearch u sampleEngines.
Proof.
  intros u.
  assert (query sampleRealm u ≠ "") as Hq by (vm_compute; discriminate).
  assert (trim (default "" (searchText (cats u))) ≠ "") as Ht by (vm_compute; discriminate).
  split; [exact Hq|]. split; [exact Ht|].
  exact (proj1 (proj2 (enter_opens_first_match sampleRealm u sampleEngines Hq Ht))).
Defined.

Lemma query_typeText_empty rl u :
  toLowerCase rl "" = "" ->
  query rl
    (mkLinksUi (cards u) (sectionCards u) (itemDisplay u) (catChildren u) (sidebar u)
       (mkCatUi (catList (cats u)) (sections (cats u)) (currentCat (cats u)) (Some "")
          (catPage (cats u))))
  = "".
Proof. intros Hl. change (trim (toLowerCase rl "") = ""). by rewrite Hl. Qed.

Lemma cards_cleared rl (cs : list Card) :
  Forall (fun c => cardDisplay c = "")
    ((fun c => setCardDisplay (matchDisplay rl "" c) c) <$> cs).
Proof. apply Forall_fmap, Forall_forall. by intros c _. Qed.

(** X21.  Emptying the search box on a page with a category list restores
    the category view: every card and every sidebar entry is shown again,
    and the sections are shown by category.  The category in force is
    [currentCat] or, when that is empty, the first entry's; it is activated
    and stored under [dove-cat], and a section is shown exactly when its
    [data-cat] is that category (all of them when the category is empty). *)
Theorem cleared_search_restores_category rl u items :
  toLowerCase rl "" = "" ->
  catList (cats u) = Some items ->
  let u' := typeText rl "" u in
  let name := restoreCat (cats u) in
  Forall (fun c => cardDisplay c = "") (cards u')
  /\ Forall (fun d => d = "") (itemDisplay u')
  /\ sections (cats u')
     = map (fun sec =>
              mkSectionEl (sectionCat sec)
                (if falsy name || bool_decide (name = sectionCat sec) then "" else "none"))
         (sections (cats u))
  /\ localStorage (catPage (cats u')) !! "dove-cat" = Some (orEmpty name)
  /\ currentCat (cats u') = orEmpty name
  /\ (forall d, sidebar u = Some d ->
      sidebar u' = Some (if bool_decide (0 < catChildren u)%nat then "" else "none")).
Proof.
  intros Hl Hc u' name. unfold u', typeText, filterLinks. cbv zeta.
  rewrite (query_typeText_empty rl u Hl).
  rewrite bool_decide_true by done.
  cbn [cards itemDisplay cats sidebar catList catChildren].
  rewrite Hc.
  split; [apply cards_cleared|].
  split; [apply Forall_fmap, Forall_forall; by intros ? _|].
  assert (restoreCat
            (mkCatUi (Some items) (sections (cats u)) (currentCat (cats u)) (Some "")
               (catPage (cats u))) = name) as ->.
  { unfold name, restoreCat. cbn [currentCat catList]. by rewrite Hc. }
  unfold setActiveCat. cbn [catList sections currentCat searchText catPage default].
  change (isBlank "") with true. cbv iota.
  split; [reflexivity|]. split; [by rewrite localStorage_setItem, lookup_insert_eq|].
  split; [reflexivity|]. intros d ->. reflexivity.
Qed.

(** The sample page: [Git] is searched for, then the box is emptied. *)
Lemma cleared_search_restores_category_witness :
  let u := filterLinks sampleRealm (sampleLinks true "Git") in
  toLowerCase sampleRealm "" = ""
  /\ Forall (fun c => cardDisplay c = "") (cards (typeText sampleRealm "" u))
  /\ currentCat (cats (typeText sampleRealm "" u)) = "dev".
Proof.
  intros u.
  pose proof (cleared_search_restores_category sampleRealm u
                [mkCatItem (JsString "dev") true; mkCatItem (JsString "news") false]
                eq_refl eq_refl) as (H1 & _ & _ & _ & H5 & _).
  split; [reflexivity|]. split; [exact H1|exact H5].
Defined.

(** X22.  On a page without a category list, emptying the search box does
    not bring back the sections that the search has hidden: [filter] hides a
    section without a matching card whether or not there is a category list,
    but restores sections only through [setActiveCat], which returns at once
    without one.  All cards are shown again; the section that held no match
    stays hidden with them inside. *)
Theorem cleared_search_keeps_sections_hidden rl u k sec :
  catList (cats u) = None ->
  toLowerCase rl "" = "" ->
  query rl u ≠ "" ->
  sections (cats u) !! k = Some sec ->
  (forall i c, i ∈ default [] (sectionCards u !! k) -> cards u !! i = Some c ->
               includes (cardText rl c) (query rl u) = false) ->
  let u1 := filterLinks rl u in
  let u2 := typeText rl "" u1 in
  sectionDisplay <$> sections (cats u1) !! k = Some "none"
  /\ sections (cats u2) = sections (cats u1)
  /\ Forall (fun c => cardDisplay c = "") (cards u2).
Proof.
  intros Hc Hl Hv Hk Hmiss u1 u2.
  assert (sections (cats u2) = sections (cats u1)
          /\ Forall (fun c => cardDisplay c = "") (cards u2)) as [E2 F2].
  { unfold u2, typeText, filterLinks. cbv zeta.
    rewrite (query_typeText_empty rl u1 Hl).
    rewrite bool_decide_true by done. cbn [cards cats].
    split; [|apply cards_cleared].
    unfold setActiveCat. cbn [catList].
    assert (catList (cats u1) = None) as ->; [|done].
    unfold u1. rewrite (filterLinks_search rl u Hv). cbv zeta. by rewrite Hc. }
  split; [|done].
  unfold u1. rewrite (filterLinks_search rl u Hv). cbv zeta. cbn [cats sections].
  set (cs := (fun c => setCardDisplay (matchDisplay rl (query rl u) c) c) <$> cards u).
  assert (forall secs ms has j s,
            secs !! j = Some s ->
            sectionVisible cs (default [] (ms !! j)) = false ->
            sectionDisplay <$> (searchSections cs secs ms has).1 !! j = Some "none") as Hsec.
  { clear. induction secs as [|s0 secs IH]; intros ms has j s Hj Hvis; [done|].
    cbn [searchSections]. cbv zeta.
    set (has1 := if sectionVisible cs (default [] (head ms)) then _ else _).
    pose proof (IH (tail ms) has1) as IH'.
    destruct (searchSections cs secs (tail ms) has1) as [secs' has'].
    cbn [fst] in *. destruct j as [|j].
    - cbn. rewrite head_lookup, Hvis. done.
    - cbn [lookup list_lookup]. apply (IH' j s); [exact Hj|].
      by rewrite lookup_tail. }
  apply (Hsec _ _ _ k sec Hk).
  destruct (sectionVisible cs (default [] (sectionCards u !! k))) eqn:Ev; [|done].
  apply (sectionVisible_hit rl _ _ _ Hv) in Ev as (i & c & Hi & Hci & Hinc).
  rewrite (Hmiss i c Hi Hci) in Hinc. done.
Qed.

(** The sample page without its category list: [news] holds no match for
    [git]. *)
Lemma cleared_search_keeps_sections_hidden_witness :
  let u := sampleLinks false "git" in
  let u2 := typeText sampleRealm "" (filterLinks sampleRealm u) in
  query sampleRealm u ≠ ""
  /\ sectionDisplay <$> sections (cats u2) !! 1%nat = Some "none"
  /\ Forall (fun c => cardDisplay c = "") (cards u2).
Proof.
  intros u u2.
  assert (query sampleRealm u ≠ "") as Hq by (vm_compute; discriminate).
  split; [exact Hq|].
  assert (forall i c, i ∈ default [] (sectionCards u !! 1%nat) -> cards u !! i = Some c ->
                      includes (cardText sampleRealm c) (query sampleRealm u) = false)
    as Hmiss.
  { intros i c Hi Hc. cbn in Hi. apply list_elem_of_singleton in Hi as ->.
    cbn in Hc. injection Hc as <-. vm_compute. reflexivity. }
  destruct (cleared_search_keeps_sections_hidden sampleRealm u 1%nat
              (mkSectionEl (JsString "news") "") eq_refl eq_refl Hq eq_refl Hmiss)
    as (H1 & H2 & H3).
  split; [|exact H3]. unfold u2. rewrite H2. exact H1.
Defined.

(** ** The theme toggle after a page load *)


Lemma restoreTheme_throws p t :
  localStorage p !! "dove-theme" = Some t -> validToken ("theme-" +:+ t) = false ->
  t ≠ "" -> restoreTheme p = None.
Proof.
  intros E Hv Ht. unfold restoreTheme, getItem. rewrite E.
  rewrite bool_decide_false by done. unfold setTheme. cbv zeta. by rewrite Hv.
Qed.



(** ** Provider URLs *)

(** X24.  The size asked of a provider is the inner size of the window, and
    never less than 1280x720: the floor of 800x600 that [vp()] applies and
    its default for a zero size are always overridden by the provider's own
    floor.  The first provider is [picsum.photos], the second
    [source.unsplash.com]; both URLs are absolute https URLs. *)
Theorem provider_url_sizes wd n idx i u :
  nextUrl ScriptA wd n idx = Some (i, u) ->
  let w := pretty (Z.max 1280 (innerWidth wd)) in
  let h := pretty (Z.max 720 (innerHeight wd)) in
  isRemoteUrl u = true
  /\ (i = 0%nat /\ u = "https://picsum.photos/" +:+ w +:+ "/" +:+ h +:+ "?random="
                       +:+ pretty (Date_now wd n)
      \/ i = 1%nat /\ u = "https://source.unsplash.com/random/" +:+ w +:+ "x" +:+ h
                          +:+ "?wallpapers,landscape&sig=" +:+ pretty (Math_random wd n)).
Proof.
  intros Hn w h.
  assert (Z.max 1280 (Z.max 800 (orElse (innerWidth wd) 800)) = Z.max 1280 (innerWidth wd))
    as Ew by (unfold orElse; case_decide; lia).
  assert (Z.max 720 (Z.max 600 (orElse (innerHeight wd) 600)) = Z.max 720 (innerHeight wd))
    as Eh by (unfold orElse; case_decide; lia).
  pose proof (nextUrl_A_cursor wd n idx i u Hn) as Hi.
  unfold nextUrl, vp in Hn. change (length BG_PROVIDERS) with 2%nat in Hn.
  rewrite <- Hi in Hn.
  pose proof (Nat.mod_upper_bound (idx + 1) 2 ltac:(lia)) as Hlt. rewrite <- Hi in Hlt.
  destruct i as [|[|i]]; [| |lia]; cbn [BG_PROVIDERS lookup list_lookup] in Hn;
    injection Hn as <-; rewrite Ew, Eh; fold w h.
  - split; [|by left]. unfold isRemoteUrl.
    change ("https://picsum.photos/" +:+ w +:+ "/" +:+ h +:+ "?random=" +:+ pretty (Date_now wd n))
      with ("https://" +:+ ("picsum.photos/" +:+ w +:+ "/" +:+ h +:+ "?random="
                            +:+ pretty (Date_now wd n))).
    by rewrite prefix_app.
  - split; [|by right]. unfold isRemoteUrl.
    change ("https://source.unsplash.com/random/" +:+ w +:+ "x" +:+ h
            +:+ "?wallpapers,landscape&sig=" +:+ pretty (Math_random wd n))
      with ("https://" +:+ ("source.unsplash.com/random/" +:+ w +:+ "x" +:+ h
                            +:+ "?wallpapers,landscape&sig=" +:+ pretty (Math_random wd n))).
    by rewrite prefix_app.
Qed.

(** A window of 1024x768: the request is for 1280x768. *)
Lemma provider_url_sizes_witness :
  let wd := mkWorld 1024 768 (fun _ => 1700000000123) (fun _ => 4242) (fun _ _ => None) in
  exists i u, nextUrl ScriptA wd 0 0 = Some (i, u) /\ isRemoteUrl u = true.
Proof.
  intros wd.
  destruct (nextUrl ScriptA wd 0 0) as [[i u]|] eqn:E.
  - exists i, u. split; [reflexivity|].
    exact (proj1 (provider_url_sizes wd 0%nat 0%nat i u E)).
  - vm_compute in E. discriminate E.
Defined.

(** ** The engine menu *)

Lemma toggleEngineMenu_announced force m :
  announced m -> announced (toggleEngineMenu force m).
Proof.
  intros H. unfold toggleEngineMenu.
  destruct (engineMenu (search m)); [|exact H].
  destruct (hasButton m); [|exact H]. cbn [negb].
  by destruct (match force with Some b => b | None => menuHidden m end).
Qed.

Lemma documentClick_announced outside m :
  announced m -> announced (documentClick outside m).
Proof.
  intros H. unfold documentClick.
  destruct (engineMenu (search m)); [|exact H].
  destruct (negb (menuHidden m) && outside); [|exact H].
  by apply toggleEngineMenu_announced.
Qed.

Lemma click_announced t m : announced m -> announced (click t m).
Proof.
  intros H. destruct t as [| |i| |]; cbn [click].
  - by apply documentClick_announced, toggleEngineMenu_announced.
  - by apply documentClick_announced, toggleEngineMenu_announced.
  - destruct (engines (search m) !! i); [|exact H].
    apply documentClick_announced, toggleEngineMenu_announced. exact H.
  - by apply documentClick_announced.
  - by apply documentClick_announced.
Qed.

Lemma engineMenu_setSelectedEngine name u :
  engineMenu (setSelectedEngine name u) = engineMenu u.
Proof.
  unfold setSelectedEngine. destruct (engineMenu u) as [l|] eqn:E; [|done].
  destruct (pickEngine name l) as [[i e]|]; [done|exact E].
Qed.

Lemma toggleEngineMenu_present force m l :
  engineMenu (search m) = Some l -> hasButton m = true ->
  let open := default (menuHidden m) force in
  toggleEngineMenu force m
  = mkMenuUi true (negb open) (Some (if open then "true" else "false")) (search m).
Proof.
  intros Hl Hb. cbv zeta. unfold toggleEngineMenu. rewrite Hl, Hb. cbn [negb].
  by destruct force as [[|]|], (menuHidden m).
Qed.

Lemma documentClick_present outside m l :
  engineMenu (search m) = Some l -> hasButton m = true ->
  menuHidden (documentClick outside m) = menuHidden m || outside
  /\ ariaExpanded (documentClick outside m)
     = (if negb (menuHidden m) && outside then Some "false" else ariaExpanded m)
  /\ search (documentClick outside m) = search m.
Proof.
  intros Hl Hb. unfold documentClick. rewrite Hl.
  destruct (menuHidden m) eqn:E, outside; cbn [negb andb orb];
    rewrite ?(toggleEngineMenu_present _ _ l Hl Hb); cbn; by rewrite ?E.
Qed.

(** X25.  On a page with the menu and its button, from the first click on
    the button on, [aria-expanded] of the button always says whether the
    menu is open, whatever is clicked afterwards (the button, an engine,
    the menu, anything else).  A click on the button itself opens a closed
    menu and closes an open one; a click on an engine or outside the menu
    leaves it closed. *)
Theorem menu_state_is_announced m ts :
  is_Some (engineMenu (search m)) -> hasButton m = true ->
  announced (foldl (fun m t => click t m) (click OnButton m) ts)
  /\ menuHidden (click OnButton m) = negb (menuHidden m)
  /\ menuHidden (click Elsewhere m) = true
  /\ (forall i, is_Some (engines (search m) !! i) -> menuHidden (click (OnItem i) m) = true).
Proof.
  intros [l Hl] Hb.
  pose proof (toggleEngineMenu_present None m l Hl Hb) as Ht. cbv zeta in Ht.
  cbn [default from_option id] in Ht.
  split; [|split; [|split]].
  - assert (announced (click OnButton m)) as H0.
    { cbn [click]. apply documentClick_announced. rewrite Ht. unfold announced.
      cbn [ariaExpanded menuHidden]. by destruct (menuHidden m). }
    revert H0. generalize (click OnButton m). clear.
    induction ts as [|t ts IH]; intros m H; [exact H|].
    cbn [foldl]. apply IH. by apply click_announced.
  - cbn [click]. rewrite Ht.
    destruct (documentClick_present false
                (mkMenuUi true (negb (menuHidden m))
                   (Some (if menuHidden m then "true" else "false")) (search m)) l Hl eq_refl)
      as (-> & _). cbn [menuHidden]. by rewrite orb_false_r.
  - cbn [click]. destruct (documentClick_present true m l Hl Hb) as (-> & _).
    by rewrite orb_true_r.
  - intros i [x Hx]. cbn [click]. rewrite Hx. cbv zeta.
    set (m1 := mkMenuUi _ _ _ _).
    assert (engineMenu (search m1) = Some l) as Hl1
      by (unfold m1; cbn [search]; by rewrite engineMenu_setSelectedEngine).
    assert (hasButton m1 = true) as Hb1 by exact Hb.
    rewrite (toggleEngineMenu_present (Some false) m1 l Hl1 Hb1). cbv zeta.
    cbn [default from_option id negb].
    destruct (documentClick_present false (mkMenuUi true true (Some "false") (search m1))
                l Hl1 eq_refl) as (-> & _).
    reflexivity.
Qed.

(** The sample menu: the button, the first engine, then a click elsewhere. *)
Lemma menu_state_is_announced_witness :
  let m := mkMenuUi true true None sampleEngines in
  is_Some (engineMenu (search m)) /\ hasButton m = true
  /\ announced (foldl (fun m t => click t m) (click OnButton m) [OnItem 0%nat; Elsewhere]).
Proof.
  intros m.
  assert (is_Some (engineMenu (search m))) as H1 by (vm_compute; eauto).
  split; [exact H1|]. split; [reflexivity|].
  exact (proj1 (menu_state_is_announced m [OnItem 0%nat; Elsewhere] H1 eq_refl)).
Defined.

(** X26.  A click whose target is an element inside the button (not the
    button itself) always ends with the menu closed: the button's listener
    opens a closed menu, and the listener of [document], which spares only
    clicks inside the menu and clicks whose target is the button itself,
    closes it again in the same click.  So the menu cannot be opened by
    clicking on something inside the button. *)
Theorem click_inside_button_never_opens m :
  is_Some (engineMenu (search m)) -> hasButton m = true ->
  menuHidden (click InsideButton m) = true
  /\ ariaExpanded (click InsideButton m) = Some "false".
Proof.
  intros [l Hl] Hb. cbn [click].
  rewrite (toggleEngineMenu_present None m l Hl Hb). cbv zeta.
  cbn [default from_option id].
  destruct (documentClick_present true
              (mkMenuUi true (negb (menuHidden m))
                 (Some (if menuHidden m then "true" else "false")) (search m)) l Hl eq_refl)
    as (-> & -> & _).
  cbn [menuHidden ariaExpanded]. split; [by rewrite orb_true_r|].
  by destruct (menuHidden m).
Qed.

(** The closed sample menu. *)
Lemma click_inside_button_never_opens_witness :
  let m := mkMenuUi true true None sampleEngines in
  is_Some (engineMenu (search m)) /\ hasButton m = true
  /\ menuHidden (click InsideButton m) = true.
Proof.
  intros m.
  assert (is_Some (engineMenu (search m))) as H1 by (vm_compute; eauto).
  split; [exact H1|]. split; [reflexivity|].
  exact (proj1 (click_inside_button_never_opens m H1 eq_refl)).
Defined.

(** ** Keyboard shortcuts *)

(** X27.  The branch for [/] comes first in the [keydown] listener.  So a
    [/] typed anywhere but in the search box only moves the focus to the
    box, modifier or not, and Ctrl+[/] (Cmd+[/] on a Mac) reaches
    [externalSearch] only while the search box has the focus.  [nextEngine]
    is called only with Alt held, only with 1 or -1, and with -1 only for
    ArrowUp. *)
Theorem slash_focuses_before_it_searches rl isMac qFocused ev :
  (key ev = "/" -> qFocused = false -> shortcut rl isMac qFocused ev = FocusSearch)
  /\ (shortcut rl isMac qFocused ev = SearchOutside ->
      key ev = "/" /\ qFocused = true
      /\ (if isMac then metaKey ev else ctrlKey ev) = true)
  /\ (forall d, shortcut rl isMac qFocused ev = CycleEngine d ->
      altKey ev = true /\ (d = 1 \/ d = -1)
      /\ (d = -1 -> key ev = "ArrowUp")).
Proof.
  unfold shortcut. cbv zeta. split; [|split].
  - intros -> ->. by rewrite bool_decide_true by done.
  - destruct (bool_decide_reflect (key ev = "/")) as [Hk|Hk];
      destruct qFocused; cbn [negb andb orb];
      destruct ((if isMac then metaKey ev else ctrlKey ev)) eqn:Em; cbn [andb orb];
      repeat (match goal with
              | |- context [if ?b then _ else _] => destruct b eqn:?; cbn [andb orb]
              end); try done.
  - intros d.
    destruct (bool_decide_reflect (key ev = "ArrowUp")) as [Hu|Hu];
      destruct (bool_decide_reflect (key ev = "ArrowDown")) as [Hd|Hd];
      destruct (altKey ev); cbn [andb orb];
      repeat (match goal with
              | |- context [if ?b then _ else _] => destruct b eqn:?; cbn [andb orb]
              end); try done;
      intros [= <-]; (split; [done|]); (split; [by (left + right)|]); try done;
      try congruence.
Qed.
